(** * Schedule optimisation: a shallow embedding of [main.py] and [app/main.py]

    The development follows the Python sources function by function.

    - Numbers.  Every economic parameter of a [Schedule] is a Python [int]
      (the defaults are, and the forms of the application store the result
      of [int(...)]), so the value [get_cost] computes is an integer carried
      by a float64; it is modelled exactly, in [Z].  Temperatures and
      [epsilon] are modelled as exact rationals ([Q]); the Metropolis test
      [s < np.exp(delta / current_temp)] is a parameter of the development.
    - Objects.  numpy arrays are mutable and shared: they live in a [heap]
      and the program manipulates references ([loc]) to them.
    - Randomness.  The module [random] is an infinite [tape] of naturals that
      is consumed one draw at a time.
    - Exceptions.  A computation ends in [Ok], in [Raise e] for a Python
      exception [e], or in [OutOfFuel] when a [while] loop is cut short. *)

From Stdlib Require Import ZArith QArith Qround Lqa Permutation Sorted Lia Ascii String.
From Stdlib Require DecimalString DecimalZ.
From stdpp Require Import base tactics option list functions gmap strings.

Close Scope Q_scope.
Open Scope nat_scope.

(** ** Outcomes and the exception monad *)

Inductive exn : Type :=
  | IndexError
  | ValueError
  | AttributeError
  | KeyError
  | ZeroDivisionError.

Inductive outcome (A : Type) : Type :=
  | Ok (a : A)
  | Raise (e : exn)
  | OutOfFuel.

Arguments Ok {A} a.
Arguments Raise {A} e.
Arguments OutOfFuel {A}.

Definition outcome_bind {A B} (f : A → outcome B) (m : outcome A) : outcome B :=
  match m with
  | Ok a => f a
  | Raise e => Raise e
  | OutOfFuel => OutOfFuel
  end.

#[global] Instance outcome_ret : MRet outcome := λ A a, Ok a.
#[global] Instance outcome_mbind : MBind outcome := λ A B f m, outcome_bind f m.

(** [for x in l: s = body x s], stopping at the first exception. *)
Fixpoint for_in {A S : Type} (l : list A) (body : A → S → outcome S) (s : S)
  : outcome S :=
  match l with
  | [] => Ok s
  | x :: l' => s' ← body x s; for_in l' body s'
  end.

(** [range(n)] *)
Definition range (n : nat) : list nat := seq 0 n.

(** ** Domain model *)

Inductive LessonType : Type :=
  | CELLULITE_KILLER
  | ZUMBA
  | ZUMBA_ADVANCED
  | FITNESS
  | CROSSFIT
  | BRAZILIAN_BUTT
  | PILATES
  | CITY_PUMP
  | STRETCHING
  | YOGA.

#[global] Instance LessonType_eq_dec : EqDecision LessonType.
Proof. solve_decision. Defined.

(** The enumeration numbers of [LessonType]. *)
Definition LessonType_value (t : LessonType) : nat :=
  match t with
  | CELLULITE_KILLER => 0 | ZUMBA => 1 | ZUMBA_ADVANCED => 2 | FITNESS => 3
  | CROSSFIT => 4 | BRAZILIAN_BUTT => 5 | PILATES => 6 | CITY_PUMP => 7
  | STRETCHING => 8 | YOGA => 9
  end.

(** [for lesson_type in LessonType] iterates in definition order. *)
Definition LessonType_members : list LessonType :=
  [CELLULITE_KILLER; ZUMBA; ZUMBA_ADVANCED; FITNESS; CROSSFIT;
   BRAZILIAN_BUTT; PILATES; CITY_PUMP; STRETCHING; YOGA].

Module Client.
Record t : Type := mk { id : Z; selected_training : list LessonType }.
End Client.

Module Instructor.
Record t : Type := mk { id : Z; qualifications : list LessonType }.
End Instructor.

Module Lesson.
Record t : Type := mk {
  instructor : Instructor.t;
  lesson_type : LessonType;
  participants : list Client.t
}.
End Lesson.

#[global] Instance Client_eq_dec : EqDecision Client.t.
Proof. solve_decision. Defined.
#[global] Instance Instructor_eq_dec : EqDecision Instructor.t.
Proof. solve_decision. Defined.
#[global] Instance Lesson_eq_dec : EqDecision Lesson.t.
Proof. solve_decision. Defined.

(** ** The assignment grid: a numpy object array of rank 3

    [data] is the C-ordered buffer, [shape] the triple
    [(classrooms, days, time slots)].  A cell is [None] or a lesson. *)

Definition index : Type := nat * nat * nat.

Record ndarray : Type := mk_ndarray {
  shape : nat * nat * nat;
  data : list (option Lesson.t)
}.

#[global] Instance ndarray_eq_dec : EqDecision ndarray.
Proof. solve_decision. Defined.

Definition shape0 (a : ndarray) : nat := a.(shape).1.1.
Definition shape1 (a : ndarray) : nat := a.(shape).1.2.
Definition shape2 (a : ndarray) : nat := a.(shape).2.

Definition size (a : ndarray) : nat := shape0 a * shape1 a * shape2 a.

(** The buffer of a numpy array always has [size] elements. *)
Definition wf_ndarray (a : ndarray) : Prop := length a.(data) = size a.

(** Position of the cell [(c, d, ts)] in the buffer. *)
Definition ravel (a : ndarray) (i : index) : nat :=
  let '(c, d, ts) := i in (c * shape1 a + d) * shape2 a + ts.

Definition in_bounds (a : ndarray) (i : index) : bool :=
  let '(c, d, ts) := i in
  bool_decide (c < shape0 a) && bool_decide (d < shape1 a)
  && bool_decide (ts < shape2 a).

(** [a[c, d, ts]]; [IndexError] outside the shape. *)
Definition getitem (a : ndarray) (i : index) : outcome (option Lesson.t) :=
  if in_bounds a i then
    match a.(data) !! ravel a i with
    | Some x => Ok x
    | None => Raise IndexError
    end
  else Raise IndexError.

(** [a[c, d, ts] = x]; [IndexError] outside the shape. *)
Definition setitem (a : ndarray) (i : index) (x : option Lesson.t)
  : outcome ndarray :=
  if in_bounds a i && bool_decide (ravel a i < length a.(data)) then
    Ok (mk_ndarray a.(shape) (<[ravel a i := x]> a.(data)))
  else Raise IndexError.

(** All indices of an array, in C order (the order of [np.argwhere]). *)
Definition indices (a : ndarray) : list index :=
  c ← range (shape0 a); d ← range (shape1 a); ts ← range (shape2 a);
  [(c, d, ts)].

(** The content of a cell, for specifications: [None] when the cell is empty
    or does not exist. *)
Definition cell (a : ndarray) (i : index) : option Lesson.t :=
  if in_bounds a i then mjoin (a.(data) !! ravel a i) else None.

(** [np.argwhere(a != None)] and [np.argwhere(a == None)] *)
Definition argwhere_not_None (a : ndarray) : list index :=
  filter (λ i, is_Some (cell a i)) (indices a).
Definition argwhere_None (a : ndarray) : list index :=
  filter (λ i, cell a i = None) (indices a).

(** Number of occupied cells, and the lessons of the grid in buffer order. *)
Definition lessons (a : ndarray) : list Lesson.t := omap id a.(data).
Definition occupied (a : ndarray) : nat := length (lessons a).

(** [np.array([None for x in range(c * d * t)]).reshape((c, d, t))] *)
Definition empty_grid (c d t : nat) : ndarray :=
  mk_ndarray (c, d, t) (replicate (c * d * t) None).

(** ** The schedule object *)

Abbreviation loc := nat (only parsing).

Record Schedule : Type := mk_Schedule {
  class_id : nat;
  day : nat;
  time_slot : nat;
  max_clients_per_training : nat;
  clients : list Client.t;
  instructors : list Instructor.t;
  schedule : loc;
  ticket_cost : Z;
  hour_pay : Z;
  pay_for_presence : Z;
  class_renting_cost : Z
}.

Definition set_schedule (self : Schedule) (r : loc) : Schedule :=
  mk_Schedule self.(class_id) self.(day) self.(time_slot)
    self.(max_clients_per_training) self.(clients) self.(instructors) r
    self.(ticket_cost) self.(hour_pay) self.(pay_for_presence)
    self.(class_renting_cost).

(** ** numpy tables of counters *)

Abbreviation table := (list (list nat)) (only parsing).

(** [np.zeros(shape=(n, m))] *)
Definition zeros (n m : nat) : table := replicate n (replicate m 0).

(** Row selected by a Python integer: numpy counts a negative index from the
    end, and raises [IndexError] outside [[-n, n)]. *)
Definition np_index (n : nat) (i : Z) : option nat :=
  if decide (0 ≤ i < Z.of_nat n)%Z then Some (Z.to_nat i)
  else if decide (- Z.of_nat n ≤ i < 0)%Z then Some (Z.to_nat (Z.of_nat n + i))
  else None.

(** [t[i, j] = f(t[i, j])] *)
Definition table_alter (f : nat → nat) (i j : nat) (t : table) : outcome table :=
  match t !! i with
  | Some row =>
      match row !! j with
      | Some x => Ok (<[i := <[j := f x]> row]> t)
      | None => Raise IndexError
      end
  | None => Raise IndexError
  end.

(** [t.sum()] and [(t > 0).sum()] *)
Definition table_sum (t : table) : nat := sum_list_with sum_list t.
Definition table_positive (t : table) : nat :=
  sum_list_with (λ row, length (filter (λ x, 0 < x) row)) t.

(** The entry [t[i, j]] (0 outside the table), and the shape of a table. *)
Definition tget (t : table) (i j : nat) : nat :=
  default 0 (t !! i ≫= (.!! j)).
Definition dims (n m : nat) (t : table) : Prop :=
  length t = n ∧ Forall (λ row, length row = m) t.

(** ** [Schedule.get_cost] *)

Record cost_acc : Type := mk_cost_acc {
  participants_sum : nat;
  instructors_hours : table;
  class_per_day : table
}.

(** The body of the innermost loop of [get_cost]. *)
Definition get_cost_cell (self : Schedule) (current_solution : ndarray)
    (c d ts : nat) (acc : cost_acc) : outcome cost_acc :=
  x ← getitem current_solution (c, d, ts);
  match x with
  | None => Ok acc
  | Some lesson =>
      let participants_sum' :=
        acc.(participants_sum) + length lesson.(Lesson.participants) in
      match np_index (length self.(instructors))
              lesson.(Lesson.instructor).(Instructor.id) with
      | None => Raise IndexError
      | Some row =>
          instructors_hours' ← table_alter S row d acc.(instructors_hours);
          class_per_day' ← table_alter (λ _, 1) c d acc.(class_per_day);
          Ok (mk_cost_acc participants_sum' instructors_hours' class_per_day')
      end
  end.

Definition get_cost_loop (self : Schedule) (current_solution : ndarray)
  : outcome cost_acc :=
  for_in (range (shape0 current_solution)) (λ c,
    for_in (range (shape1 current_solution)) (λ d,
      for_in (range (shape2 current_solution)) (λ ts,
        get_cost_cell self current_solution c d ts)))
    (mk_cost_acc 0
       (zeros (length self.(instructors)) self.(day))
       (zeros self.(class_id) self.(day))).

Definition get_cost (self : Schedule) (current_solution : ndarray) : outcome Z :=
  acc ← get_cost_loop self current_solution;
  Ok (self.(ticket_cost) * Z.of_nat acc.(participants_sum)
      - self.(hour_pay) * Z.of_nat (table_sum acc.(instructors_hours))
      - self.(pay_for_presence) * Z.of_nat (table_positive acc.(instructors_hours))
      - self.(class_renting_cost) * Z.of_nat (table_sum acc.(class_per_day)))%Z.

(** ** The store: heap of arrays, the schedule object, the random tape *)

Record state : Type := mk_state {
  self : Schedule;
  heap : loc → ndarray;
  next : loc;
  tape : nat → nat
}.

Definition M (A : Type) : Type := state → outcome (A * state).

#[global] Instance M_ret : MRet M := λ A a st, Ok (a, st).
#[global] Instance M_bind : MBind M := λ A B f m st,
  match m st with
  | Ok (a, st') => f a st'
  | Raise e => Raise e
  | OutOfFuel => OutOfFuel
  end.

Definition lift {A} (m : outcome A) : M A := λ st,
  match m with
  | Ok a => Ok (a, st)
  | Raise e => Raise e
  | OutOfFuel => OutOfFuel
  end.

Definition raise {A} (e : exn) : M A := λ _, Raise e.

Definition get_self : M Schedule := λ st, Ok (st.(self), st).
Definition put_self (s : Schedule) : M unit := λ st,
  Ok ((), mk_state s st.(heap) st.(next) st.(tape)).

(** Reading and writing the array a reference points to. *)
Definition deref (r : loc) : M ndarray := λ st, Ok (st.(heap) r, st).
Definition update (r : loc) (a : ndarray) (st : state) : state :=
  mk_state st.(self) (<[r := a]> st.(heap)) st.(next) st.(tape).
Definition assign (r : loc) (a : ndarray) : M unit := λ st,
  Ok ((), update r a st).

(** [copy.deepcopy(r)]: a new array object with equal content.  Lessons are
    immutable values here, so copying them is the identity. *)
Definition allocate (a : ndarray) (st : state) : state :=
  mk_state st.(self) (<[st.(next) := a]> st.(heap)) (S st.(next)) st.(tape).
Definition deepcopy (r : loc) : M loc := λ st,
  Ok (st.(next), allocate (st.(heap) r) st).

(** One draw of the random generator. *)
Definition tick (st : state) : state :=
  mk_state st.(self) st.(heap) st.(next) (λ k, st.(tape) (S k)).
Definition draw : M nat := λ st, Ok (st.(tape) 0, tick st).

(** [random.choice(seq)]: [IndexError] on an empty sequence. *)
Definition choice {A} (l : list A) : M A :=
  match l with
  | [] => raise IndexError
  | x :: _ => k ← draw; mret (nth (k mod length l) l x)
  end.

(** [random.randint(0, b - 1)], given [b]: [ValueError] on an empty range. *)
Definition randint0 (b : nat) : M nat :=
  match b with
  | 0 => raise ValueError
  | S _ => k ← draw; mret (k mod b)
  end.

(** [r[i]] and [r[i] = x] through a reference: the array is updated in
    place, every holder of [r] sees the new content. *)
Definition getitem_at (r : loc) (i : index) : M (option Lesson.t) :=
  a ← deref r; lift (getitem a i).
Definition setitem_at (r : loc) (i : index) (x : option Lesson.t) : M unit :=
  a ← deref r; a' ← lift (setitem a i x); assign r a'.

(** [self.get_cost(r)] *)
Definition get_cost_at (r : loc) : M Z :=
  s ← get_self; a ← deref r; lift (get_cost s a).

(** ** [Schedule.get_neighbor] *)

Definition get_neighbor (current_solution : loc) : M loc :=
  a ← deref current_solution;
  random_not_none_id ← choice (argwhere_not_None a);
  random_none_id ← choice (argwhere_None a);
  x ← getitem_at current_solution random_not_none_id;
  setitem_at current_solution random_none_id x;;
  setitem_at current_solution random_not_none_id None;;
  mret current_solution.

(** ** [Schedule.generate_random_schedule] *)

(** [range(start, stop, step)] for a positive [step]. *)
Definition range3 (start stop step : nat) : list nat :=
  (λ k, start + k * step) <$> seq 0 ((stop - start + (step - 1)) / step).

(** [int(np.ceil(a / b))]; [ZeroDivisionError] when [b] is zero. *)
Definition ceil_div (a b : nat) : outcome nat :=
  match b with
  | 0 => Raise ZeroDivisionError
  | S _ => Ok ((a + (b - 1)) / b)
  end.

(** [a % b] *)
Definition py_mod (a b : nat) : outcome nat :=
  match b with
  | 0 => Raise ZeroDivisionError
  | S _ => Ok (a mod b)
  end.

(** During generation [self.schedule] is the view of shape [(n, 1)] on the
    buffer of the grid: its row [ts] is the one-element array holding cell
    [ts] of the buffer. *)
Definition row_not_None (a : ndarray) (ts : nat) : bool :=
  bool_decide (is_Some (mjoin (a.(data) !! ts))).

(** [self.schedule[lesson_id] = lesson] on that view. *)
Definition set_row (a : ndarray) (lesson_id : nat) (x : option Lesson.t)
  : outcome ndarray :=
  if bool_decide (lesson_id < length a.(data)) then
    Ok (mk_ndarray a.(shape) (<[lesson_id := x]> a.(data)))
  else Raise IndexError.

(** The loop over the positions that share the weekly slot of [lesson_id].
    At an occupied position the source evaluates
    [self.schedule[ts].instructor.id]; [self.schedule[ts]] is a numpy array
    (a row of the view), which has no attribute [instructor]. *)
Definition exclude_busy (a : ndarray) (positions : list nat)
    (all_instructors : list Instructor.t) : outcome (list Instructor.t) :=
  for_in positions (λ ts all_instructors,
    if row_not_None a ts then Raise AttributeError else Ok all_instructors)
    all_instructors.

Record gen_acc : Type := mk_gen_acc {
  gen_i : nat;
  free_ts : list nat
}.

(** [free_ts.pop(k)] *)
Definition pop {A} (l : list A) (k : nat) : outcome (A * list A) :=
  match l !! k with
  | Some x => Ok (x, delete k l)
  | None => Raise IndexError
  end.

(** The body of [for training in range(num_of_trainings)]. *)
Definition place_training (greedy : bool) (lesson_type : LessonType)
    (all_participants : list Client.t) (training : nat)
    (st : list Instructor.t * gen_acc)
  : M (list Instructor.t * gen_acc) :=
  let '(all_instructors, acc) := st in
  s ← get_self;
  let m := s.(max_clients_per_training) in
  let participants := take m (drop (training * m) all_participants) in
  '(lesson_id, acc) ←
    (if greedy then mret (acc.(gen_i), mk_gen_acc (S acc.(gen_i)) acc.(free_ts))
     else
       k ← randint0 (length acc.(free_ts));
       '(x, rest) ← lift (pop acc.(free_ts) k);
       mret (x, mk_gen_acc acc.(gen_i) rest));
  let interval := s.(day) * s.(time_slot) in
  a ← deref s.(schedule);
  start ← lift (py_mod lesson_id interval);
  all_instructors ←
    lift (exclude_busy a (range3 start (length a.(data)) interval)
            all_instructors);
  instructor ← choice all_instructors;
  a' ← lift (set_row a lesson_id
               (Some (Lesson.mk instructor lesson_type participants)));
  assign s.(schedule) a';;
  mret (all_instructors, acc).

(** [for x in l: s = body x s] in the store monad. *)
Fixpoint for_inM {A S : Type} (l : list A) (body : A → S → M S) (s : S)
  : M S :=
  match l with
  | [] => mret s
  | x :: l' => s' ← body x s; for_inM l' body s'
  end.

(** The body of [for lesson_type in LessonType]. *)
Definition place_lesson_type (greedy : bool) (lesson_type : LessonType)
    (acc : gen_acc) : M gen_acc :=
  s ← get_self;
  let all_participants :=
    filter (λ client, lesson_type ∈ client.(Client.selected_training))
      s.(clients) in
  let all_instructors :=
    filter (λ instructor, lesson_type ∈ instructor.(Instructor.qualifications))
      s.(instructors) in
  num_of_trainings ←
    lift (ceil_div (length all_participants) s.(max_clients_per_training));
  '(_, acc) ← for_inM (range num_of_trainings)
                (place_training greedy lesson_type all_participants)
                (all_instructors, acc);
  mret acc.

Definition generate_random_schedule (greedy : bool) : M unit :=
  s ← get_self;
  a ← deref s.(schedule);
  for_inM LessonType_members (place_lesson_type greedy)
    (mk_gen_acc 0 (range (length a.(data))));;
  mret ().

(** ** [Schedule.simulated_annealing] *)

(** [x < y] on rationals *)
Definition Qltb (x y : Q) : bool := negb (Qle_bool y x).

Record sa_state : Type := mk_sa_state {
  current_solution : loc;
  best_solution : loc;
  current_temp : Q;
  current_cost : Z;
  best_cost : Z;
  counter : nat;
  total_counter : nat
}.

Section Annealing.

(** [metropolis s delta current_temp] stands for the floating-point test
    [s < np.exp(delta / current_temp)], where [s] is the draw behind
    [random.uniform(0, 1)]. *)
Variable metropolis : nat → Z → Q → bool.

(** The body of [for j in range(0, n_iter_one_temp)]. *)
Definition sa_iteration (s : sa_state) : M sa_state :=
  let total_counter := S s.(total_counter) in
  neighbor_solution ← get_neighbor s.(current_solution);
  neighbor_cost ← get_cost_at neighbor_solution;
  let delta := (neighbor_cost - s.(current_cost))%Z in
  if (delta >=? 0)%Z then
    let current_solution := neighbor_solution in
    let current_cost := neighbor_cost in
    if (current_cost >? s.(best_cost))%Z then
      best_solution ← deepcopy current_solution;
      mret (mk_sa_state current_solution best_solution s.(current_temp)
              current_cost current_cost s.(counter) total_counter)
    else
      mret (mk_sa_state current_solution s.(best_solution) s.(current_temp)
              current_cost s.(best_cost) s.(counter) total_counter)
  else
    u ← draw;
    if metropolis u delta s.(current_temp) then
      mret (mk_sa_state neighbor_solution s.(best_solution) s.(current_temp)
              neighbor_cost s.(best_cost) s.(counter) total_counter)
    else
      mret (mk_sa_state s.(current_solution) s.(best_solution) s.(current_temp)
              s.(current_cost) s.(best_cost) s.(counter) total_counter).

(** The body of the [while] loop: one temperature level. *)
Definition sa_epoch (alpha epsilon : Q) (n_iter_one_temp : Z) (s : sa_state)
  : M sa_state :=
  s ← for_inM (range (Z.to_nat n_iter_one_temp)) (λ _, sa_iteration) s;
  let current_temp := (alpha * s.(current_temp))%Q in
  let counter :=
    if Qltb (inject_Z (Z.abs (s.(current_cost) - s.(best_cost)))) epsilon
    then S s.(counter) else 0 in
  mret (mk_sa_state s.(current_solution) s.(best_solution) current_temp
          s.(current_cost) s.(best_cost) counter s.(total_counter)).

(** [current_temp > min_temp and counter < n_iter_without_improvement] *)
Definition sa_continue (min_temp : Q) (n_iter_without_improvement : Z)
    (s : sa_state) : bool :=
  Qltb min_temp s.(current_temp)
  && bool_decide (Z.of_nat s.(counter) < n_iter_without_improvement)%Z.

Fixpoint sa_while (fuel : nat) (alpha min_temp epsilon : Q)
    (n_iter_one_temp n_iter_without_improvement : Z) (s : sa_state)
  : M sa_state :=
  if sa_continue min_temp n_iter_without_improvement s then
    match fuel with
    | 0 => λ _, OutOfFuel
    | S fuel =>
        s ← sa_epoch alpha epsilon n_iter_one_temp s;
        sa_while fuel alpha min_temp epsilon n_iter_one_temp
          n_iter_without_improvement s
    end
  else mret s.

(** The state with which the [while] loop is entered. *)
Definition sa_init (initial_temp : Q) : M sa_state :=
  s ← get_self;
  current_solution ← deepcopy s.(schedule);
  best_solution ← deepcopy current_solution;
  current_cost ← get_cost_at current_solution;
  best_cost ← get_cost_at best_solution;
  mret (mk_sa_state current_solution best_solution initial_temp
          current_cost best_cost 0 0).

Definition simulated_annealing (fuel : nat) (alpha initial_temp : Q)
    (n_iter_one_temp : Z) (min_temp epsilon : Q)
    (n_iter_without_improvement : Z) (initial_solution : bool)
  : M (Z * nat) :=
  (if initial_solution then mret () else generate_random_schedule false);;
  s ← sa_init initial_temp;
  s ← sa_while fuel alpha min_temp epsilon n_iter_one_temp
        n_iter_without_improvement s;
  this ← get_self;
  put_self (set_schedule this s.(best_solution));;
  mret (s.(best_cost), s.(total_counter)).

End Annealing.

(** ** [Schedule.improve_results] *)

(** A day record [[d, timeslots, free_ts]] of the list [trainings]. *)
Record item : Type := mk_item {
  item0 : nat;
  item1 : list nat;
  item2 : list nat
}.

(** [trainings2] holds the very objects of [trainings] in another order: it
    is kept as the list of their positions in [trainings], so that an update
    through [trainings2[i]] is seen through [trainings] too. *)
Record repack : Type := mk_repack {
  grid : ndarray;
  trainings : list item;
  trainings2 : list nat;
  changed : bool
}.

(** [len(item[1])] of the record at position [p]. *)
Definition key (tr : list item) (p : nat) : nat :=
  from_option (λ r, length r.(item1)) 0 (tr !! p).

Fixpoint insert_by (k : nat → nat) (p : nat) (l : list nat) : list nat :=
  match l with
  | [] => [p]
  | q :: l' =>
      if decide (k p ≤ k q) then p :: q :: l' else q :: insert_by k p l'
  end.

(** [sorted(trainings, key=lambda item: len(item[1]))]: a stable sort. *)
Definition sorted (tr : list item) : list nat :=
  foldr (insert_by (key tr)) [] (seq 0 (length tr)).

(** [l[k]] of a Python list *)
Definition list_get {A} (l : list A) (k : nat) : outcome A :=
  match l !! k with
  | Some x => Ok x
  | None => Raise IndexError
  end.

(** [l.remove(x)]: drops the first occurrence, [ValueError] if there is none. *)
Fixpoint list_remove (x : nat) (l : list nat) : outcome (list nat) :=
  match l with
  | [] => Raise ValueError
  | y :: l' =>
      if decide (x = y) then Ok l'
      else l'' ← list_remove x l'; Ok (y :: l'')
  end.

Definition push1 (x : nat) (r : item) : item :=
  mk_item r.(item0) (r.(item1) ++ [x]) r.(item2).
Definition push2 (x : nat) (r : item) : item :=
  mk_item r.(item0) r.(item1) (r.(item2) ++ [x]).
Definition set1 (l : list nat) (r : item) : item :=
  mk_item r.(item0) l r.(item2).
Definition set2 (l : list nat) (r : item) : item :=
  mk_item r.(item0) r.(item1) l.

(** The scan of one day of one classroom for one instructor. *)
Definition scan_day (g : ndarray) (instructor : Instructor.t) (c d : nat)
  : outcome (list nat * list nat) :=
  for_in (range (shape2 g)) (λ ts '(timeslots, free_ts),
    x ← getitem g (c, d, ts);
    match x with
    | Some lesson =>
        if decide (lesson.(Lesson.instructor).(Instructor.id)
                   = instructor.(Instructor.id))
        then Ok (timeslots ++ [ts], free_ts)
        else Ok (timeslots, free_ts)
    | None => Ok (timeslots, free_ts ++ [ts])
    end) ([], []).

(** The body of [for d in range(self.schedule.shape[1])]. *)
Definition scan_append (g : ndarray) (instructor : Instructor.t) (c d : nat)
    (tr : list item) : outcome (list item) :=
  '(timeslots, free_ts) ← scan_day g instructor c d;
  Ok (if bool_decide (0 < length timeslots)
      then tr ++ [mk_item d timeslots free_ts] else tr).

(** One turn of a [for ts_iter in range(...)] loop: the lesson in the
    [ts_iter]-th occupied slot of the record at [src] goes to the
    [ts_iter]-th free slot of the record at [dst].  The two records are
    distinct entries of [trainings2]. *)
Definition move_lesson (c src dst ts_iter : nat) (st : repack * list nat)
  : outcome (repack * list nat) :=
  let '(s, timeslots_taken) := st in
  r_src ← list_get s.(trainings) src;
  r_dst ← list_get s.(trainings) dst;
  from ← list_get r_src.(item1) ts_iter;
  to ← list_get r_dst.(item2) ts_iter;
  x ← getitem s.(grid) (c, r_src.(item0), from);
  g ← setitem s.(grid) (c, r_dst.(item0), to) x;
  g ← setitem g (c, r_src.(item0), from) None;
  let tr := alter (push1 to) dst s.(trainings) in
  let tr := alter (push2 from) src tr in
  Ok (mk_repack g tr s.(trainings2) true, timeslots_taken ++ [to]).

(** The body of [for ts_iter in timeslots_taken]. *)
Definition forget_taken (dst ts_iter : nat) (tr : list item)
  : outcome (list item) :=
  r ← list_get tr dst;
  l ← list_remove ts_iter r.(item2);
  Ok (<[dst := set2 l r]> tr).

(** One branch of the conditional: every lesson of the record at [src] goes
    to the record at [dst]. *)
Definition drain (c src dst : nat) (s : repack) : outcome repack :=
  r_src ← list_get s.(trainings) src;
  '(s, timeslots_taken) ←
    for_in (range (length r_src.(item1))) (move_lesson c src dst) (s, []);
  tr ← for_in timeslots_taken (forget_taken dst) s.(trainings);
  Ok (mk_repack s.(grid) (alter (set1 []) src tr) s.(trainings2) s.(changed)).

(** The body of [for j in range(i+1, len(trainings2))], up to the test of
    [changed]. *)
Definition pair_step (c i j : nat) (s : repack) : outcome repack :=
  let s := mk_repack s.(grid) s.(trainings) s.(trainings2) false in
  pi ← list_get s.(trainings2) i;
  pj ← list_get s.(trainings2) j;
  ri ← list_get s.(trainings) pi;
  rj ← list_get s.(trainings) pj;
  if bool_decide (length ri.(item1) ≤ length rj.(item2)) then
    drain c pi pj s
  else if bool_decide (length rj.(item1) < length ri.(item2)) then
    drain c pj pi s
  else Ok s.

(** [for j in js], left by [break] after the first change. *)
Fixpoint pair_loop (c i : nat) (js : list nat) (s : repack) : outcome repack :=
  match js with
  | [] => Ok s
  | j :: js' =>
      s ← pair_step c i j s;
      if s.(changed) then
        Ok (mk_repack s.(grid) s.(trainings) (sorted s.(trainings)) true)
      else pair_loop c i js' s
  end.

(** The body of [for i in range(len(trainings2) - 1)]. *)
Definition repack_from (c i : nat) (s : repack) : outcome repack :=
  pair_loop c i (seq (i + 1) (length s.(trainings2) - (i + 1))) s.

(** The body of [for c in range(self.schedule.shape[0])]; [trainings] is
    carried from one classroom to the next. *)
Definition improve_classroom (instructor : Instructor.t) (c : nat)
    (st : ndarray * list item * bool) : outcome (ndarray * list item * bool) :=
  let '(g, tr, ch) := st in
  tr ← for_in (range (shape1 g)) (scan_append g instructor c) tr;
  let tr2 := sorted tr in
  s ← for_in (range (length tr2 - 1)) (repack_from c) (mk_repack g tr tr2 ch);
  Ok (s.(grid), s.(trainings), s.(changed)).

(** The body of [for instructor in self.instructors]. *)
Definition improve_instructor (instructor : Instructor.t)
    (st : ndarray * bool) : outcome (ndarray * bool) :=
  let '(g, ch) := st in
  '(g, _, ch) ←
    for_in (range (shape0 g)) (improve_classroom instructor) (g, [], ch);
  Ok (g, ch).

(** The body of [while changed]. *)
Definition improve_pass (instructors : list Instructor.t) (g : ndarray)
  : outcome (ndarray * bool) :=
  for_in instructors improve_instructor (g, false).

Fixpoint improve_while (fuel : nat) (instructors : list Instructor.t)
    (ch : bool) (g : ndarray) : outcome ndarray :=
  if ch then
    match fuel with
    | 0 => OutOfFuel
    | S fuel =>
        '(g, ch) ← improve_pass instructors g;
        improve_while fuel instructors ch g
    end
  else Ok g.

(** The grid-to-grid function of [improve_results]. *)
Definition improve_grid (fuel : nat) (instructors : list Instructor.t)
    (g : ndarray) : outcome ndarray :=
  improve_while fuel instructors true g.

(** [self.improve_results()]: the array [self.schedule] is rewritten in
    place. *)
Definition improve_results (fuel : nat) : M unit :=
  s ← get_self;
  g ← deref s.(schedule);
  g ← lift (improve_grid fuel s.(instructors) g);
  assign s.(schedule) g.

(** ** The parameter forms of the application ([app/main.py]) *)

(** A value stored in a parameter dictionary. *)
Inductive value : Type :=
  | VInt (z : Z)
  | VFloat (q : Q)
  | VBool (b : bool)
  | VList (l : list string).

Section Forms.

(** The builtin [int] on text: [None] stands for [ValueError]. *)
Variable int : string → option Z.

(** [try: d[parameter] = int(input_parameter)
     except ValueError: d[parameter] = 0] *)
Definition store_int (d : gmap string value) (parameter input_parameter : string)
  : gmap string value :=
  match int input_parameter with
  | Some n => <[parameter := VInt n]> d
  | None => <[parameter := VInt 0]> d
  end.

(** [Optimize.on_text] on the dictionary [self.parameters]. *)
Definition Optimize_on_text (parameters : gmap string value)
    (parameter input_parameter : string) : gmap string value :=
  store_int parameters parameter input_parameter.

(** [ScheduleParameters.on_text] on the class dictionary
    [schedule_parameters]; the second component is the value printed, or the
    [KeyError] of the lookup of ['ticket_cost']. *)
Definition ScheduleParameters_on_text (schedule_parameters : gmap string value)
    (parameter input_parameter : string)
  : gmap string value * outcome value :=
  let d := store_int schedule_parameters parameter input_parameter in
  (d, match d !! "ticket_cost"%string with
      | Some v => Ok v
      | None => Raise KeyError
      end).

End Forms.

(** A reading of [int] on ASCII text: optional blanks, an optional sign,
    then decimal digits that single underscores may separate. *)
Definition is_space (c : ascii) : bool :=
  let n := nat_of_ascii c in
  bool_decide (n = 32) || (bool_decide (9 ≤ n) && bool_decide (n ≤ 13)).

Definition digit_of (c : ascii) : option Z :=
  let n := nat_of_ascii c in
  if bool_decide (48 ≤ n) && bool_decide (n ≤ 57)
  then Some (Z.of_nat (n - 48)) else None.

(** [after_digit] tells whether the previous character was a digit. *)
Fixpoint int_digits (l : list ascii) (acc : Z) (after_digit : bool)
  : option Z :=
  match l with
  | [] => if after_digit then Some acc else None
  | c :: l' =>
      match digit_of c with
      | Some d => int_digits l' (10 * acc + d)%Z true
      | None =>
          if bool_decide (c = "_"%char) && after_digit
          then int_digits l' acc false else None
      end
  end.

Fixpoint lstrip (l : list ascii) : list ascii :=
  match l with
  | c :: l' => if is_space c then lstrip l' else l
  | [] => []
  end.

Definition int_ascii (s : string) : option Z :=
  let l := lstrip (reverse (lstrip (reverse (list_ascii_of_string s)))) in
  match l with
  | "-"%char :: l' => Z.opp <$> int_digits l' 0 false
  | "+"%char :: l' => int_digits l' 0 false
  | _ => int_digits l 0 false
  end.

(** The dictionaries the two screens start from. *)
Definition Optimize_parameters : gmap string value :=
  list_to_map
    [("neighborhood_type_lst"%string, VList []);
     ("initial_solution"%string, VBool false);
     ("alpha"%string, VFloat (1 # 2));
     ("initial_temp"%string, VInt 100);
     ("n_iter_one_temp"%string, VInt 50);
     ("min_temp"%string, VFloat (1 # 10));
     ("epsilon"%string, VFloat (1 # 100));
     ("n_iter_without_improvement"%string, VInt 1000)].

Definition schedule_parameters : gmap string value :=
  list_to_map
    [("class_num"%string, VInt 1);
     ("day_num"%string, VInt 6);
     ("time_slot_num"%string, VInt 6);
     ("max_clients_per_training"%string, VInt 5);
     ("ticket_cost"%string, VInt 40);
     ("hour_pay"%string, VInt 50);
     ("pay_for_presence"%string, VInt 50);
     ("class_renting_cost"%string, VInt 200)].

(** ** The score as the specification words it *)

(** The occupied cells of a grid, with their coordinates, in C order. *)
Definition cells_in (a : ndarray) (p : list index) : list (index * Lesson.t) :=
  omap (λ i, (i,.) <$> cell a i) p.
Definition cells (a : ndarray) : list (index * Lesson.t) :=
  cells_in a (indices a).

(** Sum of [f i j] over [i < n] and [j < m]. *)
Definition sum2 (n m : nat) (f : nat → nat → nat) : nat :=
  sum_list_with (λ i, sum_list_with (f i) (range m)) (range n).

Definition indicator (b : bool) : nat := if b then 1 else 0.

(** Total participant count over the occupied cells. *)
Definition participants_total (a : ndarray) : nat :=
  sum_list_with (λ x, length x.2.(Lesson.participants)) (cells a).

(** Number of lessons instructor number [i] gives on day [d]. *)
Definition lessons_on (a : ndarray) (i d : nat) : nat :=
  length (filter (λ x, x.2.(Lesson.instructor).(Instructor.id) = Z.of_nat i
                       ∧ x.1.1.2 = d) (cells a)).

(** Does classroom [c] hold a lesson on day [d]? *)
Definition rented (a : ndarray) (c d : nat) : bool :=
  bool_decide (Exists (λ x, x.1.1.1 = c ∧ x.1.1.2 = d) (cells a)).

Definition instructor_hours (self : Schedule) (a : ndarray) : nat :=
  sum2 (length self.(instructors)) self.(day) (lessons_on a).

Definition instructor_presence_days (self : Schedule) (a : ndarray) : nat :=
  sum2 (length self.(instructors)) self.(day)
    (λ i d, indicator (bool_decide (1 ≤ lessons_on a i d))).

Definition classroom_days (self : Schedule) (a : ndarray) : nat :=
  sum2 self.(class_id) self.(day) (λ c d, indicator (rented a c d)).

Definition final_score (self : Schedule) (a : ndarray) : Z :=
  (self.(ticket_cost) * Z.of_nat (participants_total a)
   - self.(hour_pay) * Z.of_nat (instructor_hours self a)
   - self.(pay_for_presence) * Z.of_nat (instructor_presence_days self a)
   - self.(class_renting_cost) * Z.of_nat (classroom_days self a))%Z.

(** A grid the tables of [get_cost] can account for: it is no larger than
    the schedule, and every lesson is given by a loaded instructor. *)
Definition valid_id (self : Schedule) (l : Lesson.t) : Prop :=
  (0 ≤ l.(Lesson.instructor).(Instructor.id)
     < Z.of_nat (length self.(instructors)))%Z.

Record grid_of (self : Schedule) (a : ndarray) : Prop := mk_grid_of {
  grid_wf : wf_ndarray a;
  grid_classrooms : shape0 a ≤ self.(class_id);
  grid_days : shape1 a ≤ self.(day);
  grid_ids : Forall (valid_id self) (lessons a)
}.

(** What the accumulators of [get_cost] hold once the cells [p] have been
    visited. *)
Record cost_inv (self : Schedule) (a : ndarray) (p : list index)
    (acc : cost_acc) : Prop := mk_cost_inv {
  inv_hours_dims :
    dims (length self.(instructors)) self.(day) acc.(instructors_hours);
  inv_class_dims : dims self.(class_id) self.(day) acc.(class_per_day);
  inv_participants :
    acc.(participants_sum)
    = sum_list_with (λ x, length x.2.(Lesson.participants)) (cells_in a p);
  inv_hours : ∀ i d,
    tget acc.(instructors_hours) i d
    = length (filter (λ x, x.2.(Lesson.instructor).(Instructor.id) = Z.of_nat i
                           ∧ x.1.1.2 = d) (cells_in a p));
  inv_class : ∀ c d,
    tget acc.(class_per_day) c d
    = indicator (bool_decide
        (Exists (λ x, x.1.1.1 = c ∧ x.1.1.2 = d) (cells_in a p)))
}.

(** ** A small studio, for examples

    Two instructors, three clients, one classroom open two days with two
    slots a day. *)

Definition client0 : Client.t := Client.mk 0 [ZUMBA].
Definition client1 : Client.t := Client.mk 1 [ZUMBA; YOGA].
Definition client2 : Client.t := Client.mk 2 [YOGA].
Definition instructor0 : Instructor.t := Instructor.mk 0 [ZUMBA; YOGA].
Definition instructor1 : Instructor.t := Instructor.mk 1 [YOGA].

Definition zumba0 : Lesson.t := Lesson.mk instructor0 ZUMBA [client0; client1].
Definition yoga0 : Lesson.t := Lesson.mk instructor0 YOGA [client1; client2].
Definition yoga1 : Lesson.t := Lesson.mk instructor1 YOGA [client2].

Definition studio : Schedule :=
  mk_Schedule 1 2 2 5 [client0; client1; client2] [instructor0; instructor1]
    0 40 50 50 200.

(** Instructor 0 teaches once on each day. *)
Definition week : ndarray :=
  mk_ndarray (1, 2, 2) [Some zumba0; None; Some yoga0; None].

Definition studio_state : state :=
  mk_state studio (λ _, week) 1 (λ k, k).

(** A lesson given by an instructor the studio has not loaded. *)
Definition guest_lesson : Lesson.t :=
  Lesson.mk (Instructor.mk 2 [PILATES]) PILATES [client0].
Definition guest_week : ndarray :=
  mk_ndarray (1, 2, 2) [Some zumba0; None; Some guest_lesson; None].

(** A studio with two classrooms, open one day with one slot; one client
    asks for two kinds of lesson, each taught by one instructor. *)
Definition duo : Schedule :=
  mk_Schedule 2 1 1 5 [Client.mk 0 [ZUMBA; YOGA]]
    [Instructor.mk 0 [ZUMBA]; Instructor.mk 1 [YOGA]] 0 40 50 50 200.
Definition duo_state (t : nat → nat) : state :=
  mk_state duo (λ _, empty_grid 2 1 1) 1 t.

(** The studio before any lesson is placed. *)
Definition studio_empty : state :=
  mk_state studio (λ _, empty_grid 1 2 2) 1 (λ k, k).

(** What [improve_results] relies on in a day record of classroom [c]: a
    day of the grid, slots of the grid listed once, and free slots that are
    empty cells. *)
Record item_ok (g : ndarray) (c : nat) (r : item) : Prop := mk_item_ok {
  item_day : r.(item0) < shape1 g;
  item_nodup : NoDup (r.(item1) ++ r.(item2));
  item_slots : Forall (λ ts, ts < shape2 g) (r.(item1) ++ r.(item2));
  item_free : Forall (λ ts, cell g (c, r.(item0), ts) = None) r.(item2)
}.

(** The records of [trainings] describe distinct days. *)
Definition trainings_ok (g : ndarray) (c : nat) (tr : list item) : Prop :=
  Forall (item_ok g c) tr ∧ NoDup (item0 <$> tr).

(** What the repacking loops keep true, starting from the grid [g0] with
    [n] records: the lessons are those of [g0], the records fit the grid,
    and [trainings2] lists every record once. *)
Record repack_inv (g0 : ndarray) (c n : nat) (s : repack) : Prop :=
  mk_repack_inv {
  repack_wf : wf_ndarray s.(grid);
  repack_shape : s.(grid).(shape) = g0.(shape);
  repack_lessons : lessons s.(grid) ≡ₚ lessons g0;
  repack_records : trainings_ok s.(grid) c s.(trainings);
  repack_length : length s.(trainings) = n;
  repack_pointers : s.(trainings2) ≡ₚ seq 0 n
}.

(** The state of [drain] after [k] lessons of the record at [src] (day
    [r_src.(item0)]) have gone to the record at [dst], starting from [s]. *)
Record drain_inv (g0 : ndarray) (c n : nat) (s : repack) (src dst : nat)
    (r_src r_dst : item) (k : nat) (st : repack * list nat) : Prop :=
  mk_drain_inv {
  drain_wf : wf_ndarray st.1.(grid);
  drain_shape : st.1.(grid).(shape) = g0.(shape);
  drain_lessons : lessons st.1.(grid) ≡ₚ lessons g0;
  drain_pointers : st.1.(trainings2) = s.(trainings2);
  drain_length : length st.1.(trainings) = n;
  drain_src :
    st.1.(trainings) !! src
    = Some (mk_item r_src.(item0) r_src.(item1)
              (r_src.(item2) ++ take k r_src.(item1)));
  drain_dst :
    st.1.(trainings) !! dst
    = Some (mk_item r_dst.(item0) (r_dst.(item1) ++ take k r_dst.(item2))
              r_dst.(item2));
  drain_others : ∀ p, p ≠ src → p ≠ dst →
    st.1.(trainings) !! p = s.(trainings) !! p;
  drain_taken : st.2 = take k r_dst.(item2);
  drain_other_days : ∀ d ts, d ≠ r_src.(item0) → d ≠ r_dst.(item0) →
    cell st.1.(grid) (c, d, ts) = cell s.(grid) (c, d, ts);
  drain_vacated : ∀ ts, ts ∈ r_src.(item2) ++ take k r_src.(item1) →
    cell st.1.(grid) (c, r_src.(item0), ts) = None;
  drain_free : ∀ ts, ts ∈ drop k r_dst.(item2) →
    cell st.1.(grid) (c, r_dst.(item0), ts) = None;
  drain_changed :
    st.1.(changed) = match k with 0 => s.(changed) | S _ => true end;
  drain_moved : ∀ j from to, j < k →
    r_src.(item1) !! j = Some from → r_dst.(item2) !! j = Some to →
    cell st.1.(grid) (c, r_dst.(item0), to)
    = cell s.(grid) (c, r_src.(item0), from);
  drain_src_rest : ∀ ts, ts ∉ take k r_src.(item1) →
    cell st.1.(grid) (c, r_src.(item0), ts)
    = cell s.(grid) (c, r_src.(item0), ts);
  drain_dst_rest : ∀ ts, ts ∉ take k r_dst.(item2) →
    cell st.1.(grid) (c, r_dst.(item0), ts)
    = cell s.(grid) (c, r_dst.(item0), ts)
}.

(** What [drain] has done when it returns [s']: the record at [src] has no
    occupied slot left, and the cells of its day that it listed are empty;
    their lessons are in the first free slots of the record at [dst]; no
    other cell of classroom [c] has changed. *)
Record drained (c : nat) (s : repack) (src dst : nat) (r_src r_dst : item)
    (s' : repack) : Prop := mk_drained {
  drained_pointers : s'.(trainings2) = s.(trainings2);
  drained_changed :
    s'.(changed)
    = match r_src.(item1) with [] => s.(changed) | _ :: _ => true end;
  drained_src :
    s'.(trainings) !! src
    = Some (mk_item r_src.(item0) [] (r_src.(item2) ++ r_src.(item1)));
  drained_dst :
    s'.(trainings) !! dst
    = Some (mk_item r_dst.(item0)
              (r_dst.(item1) ++ take (length r_src.(item1)) r_dst.(item2))
              (drop (length r_src.(item1)) r_dst.(item2)));
  drained_others : ∀ p, p ≠ src → p ≠ dst →
    s'.(trainings) !! p = s.(trainings) !! p;
  drained_other_days : ∀ d ts, d ≠ r_src.(item0) → d ≠ r_dst.(item0) →
    cell s'.(grid) (c, d, ts) = cell s.(grid) (c, d, ts);
  drained_vacated : ∀ ts, ts ∈ r_src.(item1) →
    cell s'.(grid) (c, r_src.(item0), ts) = None;
  drained_src_rest : ∀ ts, ts ∉ r_src.(item1) →
    cell s'.(grid) (c, r_src.(item0), ts)
    = cell s.(grid) (c, r_src.(item0), ts);
  drained_moved : ∀ j from to,
    r_src.(item1) !! j = Some from → r_dst.(item2) !! j = Some to →
    cell s'.(grid) (c, r_dst.(item0), to)
    = cell s.(grid) (c, r_src.(item0), from);
  drained_dst_rest : ∀ ts,
    ts ∉ take (length r_src.(item1)) r_dst.(item2) →
    cell s'.(grid) (c, r_dst.(item0), ts)
    = cell s.(grid) (c, r_dst.(item0), ts)
}.

(** A grid with two classrooms, two days and three slots: instructor 0
    teaches twice in classroom 0 on day 0 and once in classroom 1 on day 1;
    instructor 1 teaches in classroom 1 on day 0. *)
Definition zumba1 : Lesson.t := Lesson.mk instructor0 ZUMBA [client1].
Definition yoga2 : Lesson.t := Lesson.mk instructor0 YOGA [client2].
Definition two_rooms : ndarray :=
  mk_ndarray (2, 2, 3)
    [Some zumba0; Some zumba1; None;   None; None; None;
     None; None; Some yoga1;           Some yoga2; None; None].

(** A grid on which the search can run: [get_cost] accounts for it, and
    it has an occupied and an empty cell for [get_neighbor]. *)
Definition searchable (self : Schedule) (g : ndarray) : Prop :=
  grid_of self g ∧ 0 < occupied g ∧ occupied g < size g.

(** Is the content of a cell a lesson of the instructor with id [X]? *)
Definition taught (X : Z) (o : option Lesson.t) : bool :=
  match o with
  | Some l => bool_decide (l.(Lesson.instructor).(Instructor.id) = X)
  | None => false
  end.

(** Does the instructor with id [X] teach in classroom [c] on day [d]? *)
Definition present (g : ndarray) (c : nat) (X : Z) (d : nat) : bool :=
  bool_decide
    (Exists (λ ts, taught X (cell g (c, d, ts)) = true) (range (shape2 g))).

(** The number of days on which the instructor teaches in classroom [c],
    and the sum over the instructors of a schedule with one classroom. *)
Definition days_present (g : ndarray) (c : nat) (X : Z) : nat :=
  length (filter (λ d, present g c X d = true) (range (shape1 g))).
Definition presence (instructors : list Instructor.t) (g : ndarray) : nat :=
  sum_list_with (λ i, days_present g 0 i.(Instructor.id)) instructors.

(** The records tell the truth about the instructor with id [X]: the
    occupied slots of a record are the cells of its day that hold a lesson of
    the instructor, and the instructor teaches on no other day. *)
Record accurate (X : Z) (c : nat) (g : ndarray) (tr : list item) : Prop :=
  mk_accurate {
  accurate_slots : ∀ p r ts, tr !! p = Some r →
    ts ∈ r.(item1) ↔ taught X (cell g (c, r.(item0), ts)) = true;
  accurate_days : ∀ d, present g c X d = true → d ∈ item0 <$> tr
}.

(** [trainings2] is in ascending order of [len(item[1])]. *)
Definition ordered (tr : list item) (tr2 : list nat) : Prop :=
  ∀ i j pi pj, i < j → tr2 !! i = Some pi → tr2 !! j = Some pj →
    key tr pi ≤ key tr pj.

(** What the repacking of the records of the instructor with id [X] keeps
    true, for a bound [Φ] on the days of presence: the records are accurate,
    [trainings2] is in order, and the days of presence stay within the
    bound, strictly when [changed] is set. *)
Record progress (instructors : list Instructor.t) (X : Z) (Φ : nat)
    (s : repack) : Prop := mk_progress {
  progress_accurate : accurate X 0 s.(grid) s.(trainings);
  progress_ordered : ordered s.(trainings) s.(trainings2);
  progress_le : presence instructors s.(grid) ≤ Φ;
  progress_lt : s.(changed) = true → presence instructors s.(grid) < Φ
}.

(** The tuple [best_cost, total_counter] a caller of [simulated_annealing]
    receives, as Python values. *)
Definition returned (x : Z * nat) : list value :=
  [VFloat (inject_Z x.1); VInt (Z.of_nat x.2)].

(** The pair a computation ends with, for examples. *)
Definition result_of {A} (m : outcome (A * state)) (d : A * state) : A * state :=
  match m with
  | Ok x => x
  | _ => d
  end.

(** Two Metropolis tests for examples: one accepts on an even draw, one
    never accepts. *)
Definition coin (u : nat) (delta : Z) (current_temp : Q) : bool := Nat.even u.
Definition never (u : nat) (delta : Z) (current_temp : Q) : bool := false.

(** Loop variables of a run on [week] whose recorded cost is 0. *)
Definition sa_demo : sa_state := mk_sa_state 0 1 (4 # 1) 0 0 0 0.

(** What the annealing loop keeps true of its variables: the best solution
    is an array of its own, distinct from the working array, and [best_cost]
    is its cost; the cost on record for the working array never exceeds
    [best_cost]. *)
Record sa_inv (st : state) (s : sa_state) : Prop := mk_sa_inv {
  inv_distinct : s.(best_solution) ≠ s.(current_solution);
  inv_current_alloc : s.(current_solution) < st.(next);
  inv_best_alloc : s.(best_solution) < st.(next);
  inv_best_cost :
    get_cost st.(self) (st.(heap) s.(best_solution)) = Ok s.(best_cost);
  inv_current_le : (s.(current_cost) ≤ s.(best_cost))%Z
}.

(** [m] returns, or raises [e]: it raises nothing else and does not run out
    of fuel. *)
Definition fails_only {A} (e : exn) (m : outcome A) : Prop :=
  match m with
  | Ok _ => True
  | Raise e' => e' = e
  | OutOfFuel => False
  end.

(** Between two grids [g] and [g'], nobody has a new day in classroom 0:
    whoever teaches on a day in [g'] taught on that day in [g]. *)
Definition no_new_day (g g' : ndarray) : Prop :=
  ∀ X d, present g' 0 X d = true → present g 0 X d = true.

(** The lessons held in classroom [c] on day [d], in slot order. *)
Definition day_lessons (a : ndarray) (c d : nat) : list Lesson.t :=
  omap (λ ts, cell a (c, d, ts)) (range (shape2 a)).

(** The grid [week] with each lesson moved to the other slot of its day. *)
Definition week_late : ndarray :=
  mk_ndarray (1, 2, 2) [None; Some zumba0; None; Some yoga0].

(** What a run of [simulated_annealing] started in the store [st0] on the
    grid [g] keeps true: the working array and the best solution are arrays
    the run has created, they hold the lessons of [g] in a grid of the same
    shape, and the arrays that existed before the run are as they were. *)
Record sa_frame (st0 : state) (g : ndarray) (st : state) (s : sa_state)
  : Prop := mk_sa_frame {
  frame_current : st0.(next) ≤ s.(current_solution) < st.(next);
  frame_best : st0.(next) ≤ s.(best_solution) < st.(next);
  frame_current_wf : wf_ndarray (st.(heap) s.(current_solution));
  frame_current_shape : (st.(heap) s.(current_solution)).(shape) = g.(shape);
  frame_current_lessons : lessons (st.(heap) s.(current_solution)) ≡ₚ lessons g;
  frame_best_wf : wf_ndarray (st.(heap) s.(best_solution));
  frame_best_shape : (st.(heap) s.(best_solution)).(shape) = g.(shape);
  frame_best_lessons : lessons (st.(heap) s.(best_solution)) ≡ₚ lessons g;
  frame_old : ∀ r, r < st0.(next) → st.(heap) r = st0.(heap) r;
  frame_self : st.(self) = st0.(self)
}.

(** ** What [generate_random_schedule] is to place

    The clients who selected a lesson type, the instructors qualified for
    it, and the groups of at most [max_clients_per_training] clients the
    generator forms for it, in order. *)
Definition requests (s : Schedule) (lesson_type : LessonType) : list Client.t :=
  filter (λ client, lesson_type ∈ client.(Client.selected_training))
    s.(clients).
Definition qualified (s : Schedule) (lesson_type : LessonType)
  : list Instructor.t :=
  filter (λ instructor, lesson_type ∈ instructor.(Instructor.qualifications))
    s.(instructors).
Definition group (s : Schedule) (lesson_type : LessonType) (training : nat)
  : LessonType * list Client.t :=
  let m := s.(max_clients_per_training) in
  (lesson_type, take m (drop (training * m) (requests s lesson_type))).
Definition groups (s : Schedule) (lesson_type : LessonType)
  : list (LessonType * list Client.t) :=
  let m := s.(max_clients_per_training) in
  group s lesson_type
    <$> range ((length (requests s lesson_type) + (m - 1)) / m).
Definition planned (s : Schedule) (lesson_types : list LessonType)
  : list (LessonType * list Client.t) :=
  lesson_type ← lesson_types; groups s lesson_type.

(** The kind and the participants of a lesson. *)
Definition group_of (l : Lesson.t) : LessonType * list Client.t :=
  (l.(Lesson.lesson_type), l.(Lesson.participants)).

(** The positions the generator may still use, after [k] lessons: in greedy
    mode the positions from [k] on, otherwise those of [free_ts]; they are
    empty cells of the buffer [d]. *)
Definition free_slots (greedy : bool) (d : list (option Lesson.t))
    (acc : gen_acc) (k : nat) : Prop :=
  if greedy then
    acc.(gen_i) = k ∧ ∀ j, k ≤ j < length d → d !! j = Some None
  else
    NoDup acc.(free_ts) ∧ (∀ j, j ∈ acc.(free_ts) → d !! j = Some None)
    ∧ length acc.(free_ts) + k = length d.

(** The store [st] and the loop variables [acc] once the generator, started
    in the store [st0], has placed the groups [placed]. *)
Record gen_inv (greedy : bool) (st0 : state)
    (placed : list (LessonType * list Client.t)) (st : state) (acc : gen_acc)
  : Prop := mk_gen_inv {
  gen_self : st.(self) = st0.(self);
  gen_next : st.(next) = st0.(next);
  gen_frame : ∀ r, r ≠ st0.(self).(schedule) → st.(heap) r = st0.(heap) r;
  gen_shape :
    (st.(heap) st0.(self).(schedule)).(shape)
    = (st0.(heap) st0.(self).(schedule)).(shape);
  gen_length :
    length (st.(heap) st0.(self).(schedule)).(data)
    = length (st0.(heap) st0.(self).(schedule)).(data);
  gen_groups :
    group_of <$> lessons (st.(heap) st0.(self).(schedule)) ≡ₚ placed;
  gen_qualified :
    Forall (λ l, l.(Lesson.instructor)
                 ∈ qualified st0.(self) l.(Lesson.lesson_type))
      (lessons (st.(heap) st0.(self).(schedule)));
  gen_free :
    free_slots greedy (st.(heap) st0.(self).(schedule)).(data) acc
      (length placed)
}.

(** The participants of the lessons of one kind, lesson after lesson. *)
Definition attending (lesson_type : LessonType) (l : list Lesson.t)
  : list Client.t :=
  lesson ← filter (λ lesson, lesson.(Lesson.lesson_type) = lesson_type) l;
  lesson.(Lesson.participants).

(** The studio with other rooms, opening hours, group size and staff, and
    the store of a schedule before any lesson is placed. *)
Definition studio_with (class_num day_num time_slot_num max_clients : nat)
    (staff : list Instructor.t) : Schedule :=
  mk_Schedule class_num day_num time_slot_num max_clients
    [client0; client1; client2] staff 0 40 50 50 200.
Definition fresh (s : Schedule) : state :=
  mk_state s (λ _, empty_grid s.(class_id) s.(day) s.(time_slot)) 1 (λ k, k).

(** ** More of the application ([app/main.py]) *)

(** [l.remove(x)] on a list of strings: drops the first occurrence,
    [ValueError] if there is none. *)
Fixpoint remove_first (x : string) (l : list string) : outcome (list string) :=
  match l with
  | [] => Raise ValueError
  | y :: l' =>
      if decide (x = y) then Ok l'
      else l'' ← remove_first x l'; Ok (y :: l'')
  end.

(** [Optimize.checkbox_click] on the dictionary [self.parameters]; [active]
    is the test [value is True].  A missing key is a [KeyError], and a value
    without [append] and [remove] an [AttributeError]. *)
Definition Optimize_checkbox_click (parameters : gmap string value)
    (active : bool) (neighborhood_type : string)
  : outcome (gmap string value) :=
  match parameters !! "neighborhood_type_lst"%string with
  | None => Raise KeyError
  | Some (VList l) =>
      if active then
        Ok (<["neighborhood_type_lst"%string
              := VList (l ++ [neighborhood_type])]> parameters)
      else
        l' ← remove_first neighborhood_type l;
        Ok (<["neighborhood_type_lst"%string := VList l']> parameters)
  | Some _ => Raise AttributeError
  end.

(** The keys that [start_optimization] reads in [schedule_parameters], and
    a dictionary that holds an [int] under each of them. *)
Definition schedule_keys : list string :=
  ["class_num"; "day_num"; "time_slot_num"; "max_clients_per_training";
   "ticket_cost"; "hour_pay"; "pay_for_presence"; "class_renting_cost"]%string.
Definition all_ints (d : gmap string value) : Prop :=
  Forall (λ k, ∃ n, d !! k = Some (VInt n)) schedule_keys.

(** A sequence of edits of the form, each one an [on_text] event. *)
Definition edits (int : string → option Z) (events : list (string * string))
    (d : gmap string value) : gmap string value :=
  foldl (λ d e, (ScheduleParameters_on_text int d e.1 e.2).1) d events.

(** ** Text

    [str(n)] for a Python [int]: the decimal numeral, with a minus sign for
    a negative number. *)
Definition str_int (n : Z) : string :=
  DecimalString.NilZero.string_of_int (Z.to_int n).

(** [s.split(sep)] for a separator of one character: the pieces between
    the occurrences of [sep], empty pieces included. *)
Fixpoint str_split (sep : ascii) (s : string) : list string :=
  match s with
  | EmptyString => [EmptyString]
  | String c s' =>
      if decide (c = sep) then EmptyString :: str_split sep s'
      else
        match str_split sep s' with
        | w :: ws => String c w :: ws
        | [] => [String c EmptyString]
        end
  end.

(** [str(lesson_type)] for a member of the enumeration. *)
Definition LessonType_name (t : LessonType) : string :=
  match t with
  | CELLULITE_KILLER => "CELLULITE_KILLER" | ZUMBA => "ZUMBA"
  | ZUMBA_ADVANCED => "ZUMBA_ADVANCED" | FITNESS => "FITNESS"
  | CROSSFIT => "CROSSFIT" | BRAZILIAN_BUTT => "BRAZILIAN_BUTT"
  | PILATES => "PILATES" | CITY_PUMP => "CITY_PUMP"
  | STRETCHING => "STRETCHING" | YOGA => "YOGA"
  end.
Definition LessonType_str (t : LessonType) : string :=
  "LessonType." ++ LessonType_name t.

(** The characters ["\n"] and ["\t"]. *)
Definition nl : string := String "010" EmptyString.
Definition tab : string := String "009" EmptyString.

(** ** [Lesson.__str__] and [Schedule.__str__] *)

Definition Lesson_str (self : Lesson.t) : outcome string :=
  let lesson_type := LessonType_str self.(Lesson.lesson_type) in
  let lt := str_split "." lesson_type in
  lesson_type ← list_get lt 1;
  Ok ("I: " ++ str_int self.(Lesson.instructor).(Instructor.id)
      ++ ", L: " ++ lesson_type)%string.

Definition days : list string :=
  ["----- MONDAY -----"; "----- TUESDAY -----"; "----- WEDNESDAY -----";
   "----- THURSDAY -----"; "----- FRIDAY -----"; "----- SATURDAY -----"]%string.
Definition hour : list string :=
  ["16:00 - 17:00"; "17:00 - 18:00"; "18:00 - 19:00"; "19:00 - 20:00";
   "20:00 - 21:00"; "21:00 - 22:00"]%string.

(** The body of [for ts in range(self.schedule.shape[2])]. *)
Definition Schedule_str_slot (a : ndarray) (c d ts : nat) (result : string)
  : outcome string :=
  h ← list_get hour ts;
  let result := (result ++ (h ++ tab))%string in
  x ← getitem a (c, d, ts);
  match x with
  | None => Ok (result ++ ("Free" ++ nl))%string
  | Some lesson =>
      text ← Lesson_str lesson;
      Ok (result ++ (text ++ nl))%string
  end.

(** The body of [for d in range(self.schedule.shape[1])]. *)
Definition Schedule_str_day (a : ndarray) (c d : nat) (result : string)
  : outcome string :=
  name ← list_get days d;
  let result := (result ++ ((nl ++ name) ++ (nl ++ nl)))%string in
  for_in (range (shape2 a)) (Schedule_str_slot a c d) result.

(** [Schedule.__str__], on the array [self.schedule]. *)
Definition Schedule_str (a : ndarray) : outcome string :=
  for_in (range (shape0 a)) (λ c,
    for_in (range (shape1 a)) (Schedule_str_day a c)) EmptyString.

(** A grid of seven days. *)
Definition long_week : ndarray := empty_grid 1 7 2.

(** ** [Schedule.__init__]

    The two files are read by pandas; the rows that [df.iterrows()] yields
    are given here as pairs of the id column and the text of the
    [Lesson_Types] column. *)

(** [LessonType(v)]: the member with value [v], [ValueError] if there is
    none. *)
Definition LessonType_of_value (v : Z) : outcome LessonType :=
  match v with
  | 0 => Ok CELLULITE_KILLER | 1 => Ok ZUMBA | 2 => Ok ZUMBA_ADVANCED
  | 3 => Ok FITNESS | 4 => Ok CROSSFIT | 5 => Ok BRAZILIAN_BUTT
  | 6 => Ok PILATES | 7 => Ok CITY_PUMP | 8 => Ok STRETCHING | 9 => Ok YOGA
  | _ => Raise ValueError
  end%Z.

(** A list comprehension [[f(x) for x in l]] whose [f] may raise. *)
Fixpoint comprehension {A B} (f : A → outcome B) (l : list A)
  : outcome (list B) :=
  match l with
  | [] => Ok []
  | x :: l' => y ← f x; ys ← comprehension f l'; Ok (y :: ys)
  end.

(** [[LessonType(int(elem)) for elem in field.split(sep=" ")]] *)
Definition lesson_types_of (field : string) : outcome (list LessonType) :=
  comprehension
    (λ elem, match int_ascii elem with
             | Some v => LessonType_of_value v
             | None => Raise ValueError
             end)
    (str_split " " field).

(** [np.array([None, ...]).reshape(...)]: a new array object. *)
Definition new_array (a : ndarray) : M loc := λ st,
  Ok (st.(next), allocate a st).

Definition Schedule_init (client_rows instructor_rows : list (Z * string))
    (class_num day_num time_slot_num max_clients_per_training : nat)
    (ticket_cost hour_pay pay_for_presence class_renting_cost : Z) : M unit :=
  clients ← lift (comprehension
                    (λ client, types ← lesson_types_of client.2;
                               Ok (Client.mk client.1 types)) client_rows);
  instructors ← lift (comprehension
                        (λ instructor, types ← lesson_types_of instructor.2;
                                       Ok (Instructor.mk instructor.1 types))
                        instructor_rows);
  schedule ← new_array (empty_grid class_num day_num time_slot_num);
  put_self (mk_Schedule class_num day_num time_slot_num
              max_clients_per_training clients instructors schedule
              ticket_cost hour_pay pay_for_presence class_renting_cost).

(** [" ".join(str(t.value) for t in types)]: the text of a [Lesson_Types]
    field. *)
Fixpoint join_values (types : list LessonType) : string :=
  match types with
  | [] => EmptyString
  | [t] => str_int (Z.of_nat (LessonType_value t))
  | t :: types' =>
      (str_int (Z.of_nat (LessonType_value t))
       ++ String " " (join_values types'))%string
  end.

(** ** The script at the end of [main.py]

    [print(SM)] evaluates [SM.__str__()]; what is printed is not kept.  The
    two files are given by their rows, and the clock is left out. *)
Definition print_schedule : M unit :=
  SM ← get_self;
  a ← deref SM.(schedule);
  lift (Schedule_str a);;
  mret ().

Definition script (metropolis : nat → Z → Q → bool) (fuel fuel' : nat)
    (client_rows instructor_rows : list (Z * string))
  : M (Z * Z * nat * Z) :=
  Schedule_init client_rows instructor_rows 1 6 6 5 40 50 50 200;;
  generate_random_schedule false;;
  print_schedule;;
  SM ← get_self;
  initial ← get_cost_at SM.(schedule);
  '(best_cost, num_of_iter) ←
    simulated_annealing metropolis fuel (9999 # 10000) (1000 # 1) 50 (1 # 10)
      (1 # 100) 1000 true;
  print_schedule;;
  improve_results fuel';;
  print_schedule;;
  SM ← get_self;
  improved ← get_cost_at SM.(schedule);
  mret (initial, best_cost, num_of_iter, improved).

(** * Properties *)

(** ** Loops *)

Lemma bind_Ok_r {A} (m : outcome A) : (x ← m; Ok x) = m.
Proof. by destruct m. Qed.

Lemma for_in_app {A S} (l1 l2 : list A) (body : A → S → outcome S) s :
  for_in (l1 ++ l2) body s = (s' ← for_in l1 body s; for_in l2 body s').
Proof.
  revert s; induction l1 as [|x l1 IH]; intros s; simpl; [done|].
  destruct (body x s) as [s'| |]; simpl; [apply IH|done..].
Qed.

Lemma for_in_bind {A B S} (f : A → list B) (l : list A)
    (body : B → S → outcome S) s :
  for_in (l ≫= f) body s = for_in l (λ x, for_in (f x) body) s.
Proof.
  revert s; induction l as [|x l IH]; intros s; [done|].
  rewrite bind_cons, for_in_app. simpl.
  destruct (for_in (f x) body s); simpl; [apply IH|done..].
Qed.

Lemma for_in_ext {A S} (l : list A) (body1 body2 : A → S → outcome S) s :
  (∀ x s, x ∈ l → body1 x s = body2 x s) →
  for_in l body1 s = for_in l body2 s.
Proof.
  revert s; induction l as [|x l IH]; intros s Hb; [done|]. simpl.
  rewrite Hb by left. destruct (body2 x s); simpl; [|done..].
  apply IH. intros; apply Hb. by right.
Qed.

Lemma for_in_singleton {A S} (x : A) (body : A → S → outcome S) s :
  for_in [x] body s = body x s.
Proof. simpl. apply bind_Ok_r. Qed.

(** An invariant that every turn of the loop keeps holds at its end, and
    the loop raises nothing if no turn does. *)
Lemma for_in_invariant {A S} (I : S → Prop) (l : list A)
    (body : A → S → outcome S) s :
  I s →
  (∀ x s, x ∈ l → I s → ∃ s', body x s = Ok s' ∧ I s') →
  ∃ s', for_in l body s = Ok s' ∧ I s'.
Proof.
  revert s; induction l as [|x l IH]; intros s Hs Hb; simpl; [eauto|].
  destruct (Hb x s) as (s' & -> & Hs'); [left|done|]. simpl.
  apply IH; [done|]. intros; apply Hb; [by right|done].
Qed.

(** ** Arrays *)

Lemma elem_of_indices a c d ts :
  (c, d, ts) ∈ indices a ↔ c < shape0 a ∧ d < shape1 a ∧ ts < shape2 a.
Proof.
  unfold indices, range. rewrite list_elem_of_bind. split.
  - intros (c' & H1 & Hc). apply list_elem_of_bind in H1 as (d' & H1 & Hd).
    apply list_elem_of_bind in H1 as (ts' & H1 & Hts).
    apply list_elem_of_singleton in H1. simplify_eq.
    apply elem_of_seq in Hc, Hd, Hts. lia.
  - intros (Hc & Hd & Hts). exists c. split; [|apply elem_of_seq; lia].
    apply list_elem_of_bind. exists d. split; [|apply elem_of_seq; lia].
    apply list_elem_of_bind. exists ts. split; [|apply elem_of_seq; lia].
    by apply list_elem_of_singleton.
Qed.

Lemma in_bounds_spec a c d ts :
  in_bounds a (c, d, ts) = true ↔ c < shape0 a ∧ d < shape1 a ∧ ts < shape2 a.
Proof.
  unfold in_bounds. rewrite !andb_true_iff, !bool_decide_eq_true. tauto.
Qed.

Lemma ravel_lt a c d ts :
  c < shape0 a → d < shape1 a → ts < shape2 a →
  ravel a (c, d, ts) < size a.
Proof.
  unfold ravel, size. intros Hc Hd Hts.
  assert (c * shape1 a + d + 1 ≤ shape0 a * shape1 a) by nia.
  assert ((c * shape1 a + d + 1) * shape2 a ≤ shape0 a * shape1 a * shape2 a)
    by (apply Nat.mul_le_mono_r; lia).
  lia.
Qed.

Lemma mul_add_inj (m x x' r r' : nat) :
  r < m → r' < m → x * m + r = x' * m + r' → x = x' ∧ r = r'.
Proof.
  intros Hr Hr' Heq.
  destruct (Nat.lt_trichotomy x x') as [Hlt|[->|Hlt]]; [|lia|].
  - assert ((x + 1) * m ≤ x' * m) by (apply Nat.mul_le_mono_r; lia). lia.
  - assert ((x' + 1) * m ≤ x * m) by (apply Nat.mul_le_mono_r; lia). lia.
Qed.

Lemma ravel_inj a i j :
  in_bounds a i = true → in_bounds a j = true →
  ravel a i = ravel a j → i = j.
Proof.
  destruct i as [[c d] ts], j as [[c' d'] ts'].
  rewrite !in_bounds_spec. unfold ravel. intros (Hc&Hd&Hts) (Hc'&Hd'&Hts') Heq.
  apply mul_add_inj in Heq as [Heq ->]; [|done..].
  apply mul_add_inj in Heq as [-> ->]; done.
Qed.

Lemma getitem_cell a i :
  wf_ndarray a → in_bounds a i = true → getitem a i = Ok (cell a i).
Proof.
  intros Hwf Hb. unfold getitem, cell. rewrite Hb.
  destruct i as [[c d] ts]. apply in_bounds_spec in Hb as (?&?&?).
  destruct (lookup_lt_is_Some_2 (data a) (ravel a (c, d, ts))) as [x ->];
    [rewrite Hwf; by apply ravel_lt|done].
Qed.

(** ** Tables *)

Lemma sum_list_with_seq {A} (f : A → nat) (g : nat → nat) (l : list A) :
  (∀ i x, l !! i = Some x → g i = f x) →
  sum_list_with f l = sum_list_with g (seq 0 (length l)).
Proof.
  induction l as [|x l IH] using rev_ind; intros Hg; [done|].
  rewrite length_app, Nat.add_1_r, seq_S, !sum_list_with_app. simpl.
  rewrite IH.
  - f_equal. rewrite (Hg (length l) x); [done|].
    by rewrite lookup_app_r, Nat.sub_diag.
  - intros i y Hi. apply Hg. by apply lookup_app_l_Some.
Qed.

Lemma sum_list_with_ext_in {A} (f g : A → nat) (l : list A) :
  (∀ x, x ∈ l → f x = g x) → sum_list_with f l = sum_list_with g l.
Proof.
  induction l as [|x l IH]; intros Hfg; [done|]. simpl.
  rewrite Hfg by left. f_equal. apply IH. intros; apply Hfg. by right.
Qed.

Lemma sum2_ext n m f g :
  (∀ i j, i < n → j < m → f i j = g i j) → sum2 n m f = sum2 n m g.
Proof.
  intros Hfg. unfold sum2, range. apply sum_list_with_ext_in.
  intros i Hi%elem_of_seq. apply sum_list_with_ext_in.
  intros j Hj%elem_of_seq. apply Hfg; lia.
Qed.

Lemma dims_zeros n m : dims n m (zeros n m).
Proof.
  split; [apply length_replicate|].
  apply Forall_replicate, length_replicate.
Qed.

Lemma tget_zeros n m i j : tget (zeros n m) i j = 0.
Proof.
  unfold tget, zeros.
  destruct (decide (i < n));
    [|by rewrite lookup_ge_None_2 by (rewrite length_replicate; lia)].
  rewrite lookup_replicate_2 by done. simpl.
  destruct (decide (j < m));
    [|by rewrite lookup_ge_None_2 by (rewrite length_replicate; lia)].
  by rewrite lookup_replicate_2.
Qed.

Lemma dims_row n m t i row : dims n m t → t !! i = Some row → length row = m.
Proof.
  intros [_ Hrows] Hi. by apply (Forall_lookup_1 _ _ _ _ Hrows Hi).
Qed.

Lemma table_alter_Ok f i j t n m :
  dims n m t → i < n → j < m →
  ∃ t', table_alter f i j t = Ok t' ∧ dims n m t' ∧
    ∀ i' j', tget t' i' j'
             = if decide (i' = i ∧ j' = j) then f (tget t i j) else tget t i' j'.
Proof.
  intros Hd Hi Hj. unfold table_alter.
  destruct (lookup_lt_is_Some_2 t i) as [row Hrow]; [by rewrite (proj1 Hd)|].
  rewrite Hrow. pose proof (dims_row _ _ _ _ _ Hd Hrow) as Hlen.
  destruct (lookup_lt_is_Some_2 row j) as [x Hx]; [by rewrite Hlen|].
  rewrite Hx. eexists; split; [done|]. split.
  - destruct Hd as [Hl Hrows]. split; [by rewrite length_insert|].
    apply Forall_insert; [done|]. by rewrite length_insert.
  - intros i' j'. unfold tget. destruct (decide (i' = i)) as [->|Hne].
    + rewrite list_lookup_insert_eq by (by rewrite (proj1 Hd)).
      rewrite Hrow. simpl. destruct (decide (j' = j)) as [->|Hne].
      * rewrite list_lookup_insert_eq by (by rewrite Hlen).
        rewrite Hx. simpl. by rewrite decide_True.
      * rewrite list_lookup_insert_ne by done. rewrite decide_False by tauto. done.
    + rewrite list_lookup_insert_ne by done. rewrite decide_False by tauto. done.
Qed.

Lemma table_alter_Raise_row f i j t n m :
  dims n m t → n ≤ i → table_alter f i j t = Raise IndexError.
Proof.
  intros [Hl _] Hi. unfold table_alter.
  by rewrite lookup_ge_None_2 by (by rewrite Hl).
Qed.

Lemma table_sum_sum2 n m t : dims n m t → table_sum t = sum2 n m (tget t).
Proof.
  intros Hd. unfold table_sum, sum2, range. rewrite <-(proj1 Hd).
  apply sum_list_with_seq. intros i row Hrow.
  rewrite <-(dims_row _ _ _ _ _ Hd Hrow). symmetry.
  apply sum_list_with_seq. intros j x Hx. unfold tget. by rewrite Hrow; simpl; rewrite Hx.
Qed.

Lemma length_filter_sum {A} (P : A → Prop) `{!∀ x, Decision (P x)} (l : list A) :
  length (filter P l) = sum_list_with (λ x, indicator (bool_decide (P x))) l.
Proof.
  induction l as [|x l IH]; [done|]. rewrite filter_cons. simpl.
  destruct (decide (P x)).
  - rewrite bool_decide_eq_true_2 by done. simpl. by rewrite IH.
  - rewrite bool_decide_eq_false_2 by done. simpl. by rewrite IH.
Qed.

Lemma table_positive_sum2 n m t :
  dims n m t →
  table_positive t = sum2 n m (λ i j, indicator (bool_decide (1 ≤ tget t i j))).
Proof.
  intros Hd. unfold table_positive, sum2, range. rewrite <-(proj1 Hd).
  apply sum_list_with_seq. intros i row Hrow.
  rewrite <-(dims_row _ _ _ _ _ Hd Hrow), length_filter_sum. symmetry.
  apply sum_list_with_seq. intros j x Hx. unfold tget. rewrite Hrow; simpl; rewrite Hx.
  simpl. apply f_equal, bool_decide_ext. lia.
Qed.

Lemma for_in_prefix {A S} (I : list A → S → Prop) (l : list A)
    (body : A → S → outcome S) pre s :
  I pre s →
  (∀ p x s, x ∈ l → I p s → ∃ s', body x s = Ok s' ∧ I (p ++ [x]) s') →
  ∃ s', for_in l body s = Ok s' ∧ I (pre ++ l) s'.
Proof.
  revert pre s; induction l as [|x l IH]; intros pre s Hs Hb; simpl.
  - rewrite app_nil_r. eauto.
  - destruct (Hb pre x s) as (s' & -> & Hs'); [left|done|]. simpl.
    rewrite (cons_middle x pre l), (assoc_L (++)).
    apply IH; [done|]. intros; apply Hb; [by right|done].
Qed.

Lemma get_cost_loop_flat self a :
  get_cost_loop self a
  = for_in (indices a) (λ i, get_cost_cell self a i.1.1 i.1.2 i.2)
      (mk_cost_acc 0 (zeros (length self.(instructors)) self.(day))
         (zeros self.(class_id) self.(day))).
Proof.
  unfold get_cost_loop, indices. rewrite for_in_bind.
  apply for_in_ext; intros c s _. rewrite for_in_bind.
  apply for_in_ext; intros d s' _. rewrite for_in_bind.
  apply for_in_ext; intros ts s'' _. by rewrite for_in_singleton.
Qed.

Lemma cell_lessons a i l : cell a i = Some l → l ∈ lessons a.
Proof.
  unfold cell, lessons. destruct (in_bounds a i); [|done].
  destruct (data a !! ravel a i) as [[l'|]|] eqn:Hl; simpl; intros; simplify_eq.
  apply list_elem_of_omap. exists (Some l). split; [|done].
  by apply list_elem_of_lookup_2 in Hl.
Qed.

Lemma np_index_valid n i :
  (0 ≤ i < Z.of_nat n)%Z → np_index n i = Some (Z.to_nat i).
Proof. intros. unfold np_index. by rewrite decide_True. Qed.
Lemma cells_in_snoc a p i :
  cells_in a (p ++ [i])
  = cells_in a p ++ match cell a i with Some l => [(i, l)] | None => [] end.
Proof.
  unfold cells_in. rewrite omap_app. f_equal. simpl. by destruct (cell a i).
Qed.

Lemma get_cost_cell_step self a p c d ts acc :
  grid_of self a → (c, d, ts) ∈ indices a → cost_inv self a p acc →
  ∃ acc', get_cost_cell self a c d ts acc = Ok acc'
          ∧ cost_inv self a (p ++ [(c, d, ts)]) acc'.
Proof.
  intros Hg Hi Hinv. apply elem_of_indices in Hi as (Hc & Hd & Hts).
  unfold get_cost_cell. rewrite getitem_cell;
    [|apply Hg|by apply in_bounds_spec]. simpl.
  destruct (cell a (c, d, ts)) as [lesson|] eqn:Hcell.
  2: { exists acc. split; [done|]. destruct Hinv.
       split; try done; rewrite ?cells_in_snoc, ?Hcell, ?app_nil_r; try done;
       intros; rewrite cells_in_snoc, Hcell, app_nil_r; auto. }
  assert (valid_id self lesson) as Hid.
  { eapply Forall_forall; [apply Hg|]. by eapply cell_lessons. }
  rewrite np_index_valid by done.
  destruct Hinv as [Hhd Hcd Hps Hh Hcl].
  pose proof (grid_classrooms _ _ Hg). pose proof (grid_days _ _ Hg).
  destruct (table_alter_Ok S (Z.to_nat (Instructor.id (Lesson.instructor lesson)))
              d _ _ _ Hhd) as (t1 & -> & Hd1 & Ht1); [unfold valid_id in Hid; lia|lia|].
  simpl.
  destruct (table_alter_Ok (λ _, 1) c d _ _ _ Hcd) as (t2 & -> & Hd2 & Ht2);
    [lia|lia|].
  simpl. eexists; split; [done|].
  split; simpl; try done.
  - rewrite cells_in_snoc, Hcell, sum_list_with_app, Hps. simpl. lia.
  - intros i d'. rewrite Ht1, cells_in_snoc, Hcell, filter_app, length_app, !Hh.
    rewrite filter_cons, filter_nil. simpl. unfold valid_id in Hid.
    repeat case_decide; simpl; destruct_and?; subst; try lia.
    all: rewrite ?Nat.add_0_r, ?Nat.add_1_r; done.
  - intros c' d'. rewrite Ht2, cells_in_snoc, Hcell.
    case_decide as Heq.
    + destruct Heq as [-> ->]. rewrite bool_decide_eq_true_2; [done|].
      apply Exists_app. right. by left.
    + rewrite Hcl. f_equal. apply bool_decide_ext. rewrite Exists_app.
      split; [tauto|]. intros [?|Hex]; [done|].
      apply Exists_cons in Hex as [[Hc' Hd']|Hex']; [simpl in *; naive_solver|].
      by apply Exists_nil in Hex'.
Qed.

Lemma cost_inv_init self a :
  cost_inv self a []
    (mk_cost_acc 0 (zeros (length self.(instructors)) self.(day))
       (zeros self.(class_id) self.(day))).
Proof.
  split; simpl; try apply dims_zeros; try done.
  - intros. by rewrite tget_zeros.
  - intros. by rewrite tget_zeros.
Qed.

Lemma get_cost_loop_Ok self a :
  grid_of self a →
  ∃ acc, get_cost_loop self a = Ok acc ∧ cost_inv self a (indices a) acc.
Proof.
  intros Hg. rewrite get_cost_loop_flat.
  apply (for_in_prefix (cost_inv self a) (indices a) _ []);
    [apply cost_inv_init|].
  intros p [[c d] ts] s Hx Hs. by apply get_cost_cell_step.
Qed.

Lemma get_cost_final_score self a :
  grid_of self a → get_cost self a = Ok (final_score self a).
Proof.
  intros Hg. unfold get_cost.
  destruct (get_cost_loop_Ok self a Hg) as (acc & -> & [Hhd Hcd Hps Hh Hcl]).
  simpl. f_equal. unfold final_score.
  rewrite (table_sum_sum2 _ _ _ Hhd), (table_positive_sum2 _ _ _ Hhd),
    (table_sum_sum2 _ _ _ Hcd), Hps.
  unfold participants_total, instructor_hours, instructor_presence_days,
    classroom_days, cells.
  rewrite (sum2_ext _ _ (tget (instructors_hours acc)) (lessons_on a))
    by (intros; apply Hh).
  rewrite (sum2_ext _ _ (λ i j, indicator (bool_decide (1 ≤ tget (instructors_hours acc) i j)))
             (λ i d, indicator (bool_decide (1 ≤ lessons_on a i d))))
    by (intros; by rewrite Hh).
  rewrite (sum2_ext _ _ (tget (class_per_day acc)) (λ c d, indicator (rented a c d)))
    by (intros; apply Hcl).
  done.
Qed.

Lemma for_in_fails_only {A S} e (l : list A) (body : A → S → outcome S) s :
  (∀ x s, fails_only e (body x s)) → fails_only e (for_in l body s).
Proof.
  intros Hb. revert s; induction l as [|x l IH]; intros s; simpl; [done|].
  specialize (Hb x s). destruct (body x s); simpl; [apply IH|done..].
Qed.

Lemma for_in_raise_at {A S} e (pre post : list A) x
    (body : A → S → outcome S) s :
  (∀ y s, fails_only e (body y s)) → (∀ s, body x s = Raise e) →
  for_in (pre ++ x :: post) body s = Raise e.
Proof.
  intros Hb Hx. rewrite for_in_app.
  pose proof (for_in_fails_only e pre body s Hb) as Hpre.
  destruct (for_in pre body s) as [s'| |]; simpl in *; [|by subst|done].
  by rewrite Hx.
Qed.

Lemma table_alter_fails_only f i j t : fails_only IndexError (table_alter f i j t).
Proof. unfold table_alter. by repeat case_match. Qed.

Lemma getitem_fails_only a i : fails_only IndexError (getitem a i).
Proof. unfold getitem. by repeat case_match. Qed.

Lemma get_cost_cell_fails_only self a c d ts acc :
  fails_only IndexError (get_cost_cell self a c d ts acc).
Proof.
  unfold get_cost_cell.
  pose proof (getitem_fails_only a (c, d, ts)) as H1.
  destruct (getitem a (c, d, ts)) as [[lesson|]| |]; simpl in *; try done.
  destruct (np_index _ _); [|done].
  pose proof (table_alter_fails_only S n d (instructors_hours acc)) as H2.
  destruct (table_alter S n d _); simpl in *; try done.
  pose proof (table_alter_fails_only (λ _, 1) c d (class_per_day acc)) as H3.
  by destruct (table_alter (λ _, 1) c d _).
Qed.

Lemma cell_in_bounds a i l : cell a i = Some l → in_bounds a i = true.
Proof. unfold cell. by destruct (in_bounds a i). Qed.

Lemma np_index_ge n i : (Z.of_nat n ≤ i)%Z → np_index n i = None.
Proof.
  intros. unfold np_index. rewrite decide_False by lia. by rewrite decide_False by lia.
Qed.

Lemma get_cost_IndexError self a i lesson :
  wf_ndarray a → cell a i = Some lesson →
  (Z.of_nat (length self.(instructors))
     ≤ lesson.(Lesson.instructor).(Instructor.id))%Z →
  get_cost self a = Raise IndexError.
Proof.
  intros Hwf Hcell Hid. unfold get_cost. rewrite get_cost_loop_flat.
  pose proof (cell_in_bounds _ _ _ Hcell) as Hb.
  assert (i ∈ indices a) as (pre & post & ->)%list_elem_of_split.
  { destruct i as [[c d] ts]. by apply elem_of_indices, in_bounds_spec. }
  rewrite (for_in_raise_at IndexError); [done| |].
  - intros [[c d] ts] acc. apply get_cost_cell_fails_only.
  - intros acc. destruct i as [[c d] ts]. simpl. unfold get_cost_cell.
    rewrite getitem_cell, Hcell by done. simpl. by rewrite np_index_ge.
Qed.

Lemma get_cost_at_eq r st :
  get_cost_at r st
  = match get_cost st.(self) (st.(heap) r) with
    | Ok v => Ok (v, st)
    | Raise e => Raise e
    | OutOfFuel => OutOfFuel
    end.
Proof. done. Qed.

Lemma grid_of_week : grid_of studio week.
Proof.
  split; [reflexivity|compute; lia|compute; lia|].
  repeat constructor; unfold valid_id; simpl; lia.
Defined.



(** C9.  When a cell of the grid holds a lesson whose instructor id is at
    least the number of loaded instructors, the lookup in the hours table is
    out of bounds and [get_cost] raises [IndexError] instead of returning a
    score. *)
Theorem get_cost_instructor_out_of_bounds self a i lesson :
  wf_ndarray a → cell a i = Some lesson →
  (Z.of_nat (length self.(instructors))
     ≤ lesson.(Lesson.instructor).(Instructor.id))%Z →
  get_cost self a = Raise IndexError.
Proof. apply get_cost_IndexError. Qed.

Lemma get_cost_instructor_out_of_bounds_witness :
  get_cost studio guest_week = Raise IndexError.
Proof.
  apply (get_cost_instructor_out_of_bounds studio guest_week (0, 1, 0) guest_lesson);
    [reflexivity|reflexivity|simpl; lia].
Defined.

Example get_cost_week : get_cost studio week = Ok (-440)%Z.
Proof. reflexivity. Qed.

(** numpy counts a negative row from the end: the lesson of an instructor
    with id [-1] is booked on the last loaded instructor. *)
Example get_cost_negative_id :
  get_cost studio
    (mk_ndarray (1, 2, 2)
       [Some (Lesson.mk (Instructor.mk (-1) []) YOGA [client0]); None; None; None])
  = Ok (-260)%Z.
Proof. reflexivity. Qed.
(** ** The buffer and the coordinates *)

Lemma bind_seq_block (n m : nat) :
  (x ← seq 0 n; (λ t, x * m + t) <$> seq 0 m) = seq 0 (n * m).
Proof.
  induction n as [|n IH]; [done|].
  rewrite seq_S, bind_app, IH. simpl. rewrite app_nil_r.
  replace (m + n * m) with (n * m + m) by lia. rewrite seq_app. f_equal.
  etrans; [apply (fmap_add_seq (n * m) 0 m)|f_equal; lia].
Qed.

Lemma fmap_bind_list {A B C} (f : B → C) (g : A → list B) (l : list A) :
  f <$> (l ≫= g) = l ≫= (λ x, f <$> g x).
Proof.
  induction l as [|x l IH]; [done|]. by rewrite !bind_cons, fmap_app, IH.
Qed.

Lemma bind_bind_list {A B C} (f : B → list C) (g : A → list B) (l : list A) :
  (l ≫= g) ≫= f = l ≫= (λ x, g x ≫= f).
Proof.
  induction l as [|x l IH]; [done|]. by rewrite !bind_cons, bind_app, IH.
Qed.

Lemma bind_fmap_list {A B C} (f : B → list C) (g : A → B) (l : list A) :
  (g <$> l) ≫= f = l ≫= (λ x, f (g x)).
Proof. induction l as [|x l IH]; [done|]. by rewrite fmap_cons, !bind_cons, IH. Qed.

Lemma bind_ext_list {A B} (f g : A → list B) (l : list A) :
  (∀ x, f x = g x) → l ≫= f = l ≫= g.
Proof. intros Hfg. induction l as [|x l IH]; [done|]. by rewrite !bind_cons, Hfg, IH. Qed.

Lemma ravel_indices a : ravel a <$> indices a = seq 0 (size a).
Proof.
  unfold indices, size, range. rewrite fmap_bind_list.
  rewrite <-(bind_seq_block (shape0 a * shape1 a) (shape2 a)).
  rewrite <-(bind_seq_block (shape0 a) (shape1 a)), bind_bind_list.
  apply bind_ext_list; intros c.
  rewrite fmap_bind_list, bind_fmap_list.
  apply bind_ext_list; intros d.
  rewrite fmap_bind_list.
  induction (seq 0 (shape2 a)) as [|ts l IH]; [done|].
  rewrite bind_cons, fmap_cons, IH. done.
Qed.

Lemma cell_indices a : wf_ndarray a → cell a <$> indices a = a.(data).
Proof.
  intros Hwf.
  assert (cell a <$> indices a
          = (λ k, mjoin (a.(data) !! k)) <$> (ravel a <$> indices a)) as ->.
  { rewrite <-list_fmap_compose. apply list_fmap_ext. intros _ [[c d] ts] Hi%list_elem_of_lookup_2.
    apply elem_of_indices, in_bounds_spec in Hi. unfold cell. by rewrite Hi. }
  rewrite ravel_indices, <-Hwf. apply list_eq. intros k.
  rewrite list_lookup_fmap. destruct (decide (k < length a.(data))) as [Hk|Hk].
  - rewrite lookup_seq_lt by done. simpl.
    destruct (lookup_lt_is_Some_2 _ _ Hk) as [x ->]. done.
  - rewrite lookup_seq_ge by lia. by rewrite lookup_ge_None_2 by lia.
Qed.

Lemma lessons_cells a : wf_ndarray a → lessons a = (cells a).*2.
Proof.
  intros Hwf. unfold lessons, cells, cells_in. rewrite <-(cell_indices a Hwf).
  induction (indices a) as [|i l IH]; [done|]. csimpl.
  destruct (cell a i); csimpl; by rewrite IH.
Qed.

Lemma length_argwhere_not_None a :
  wf_ndarray a → length (argwhere_not_None a) = occupied a.
Proof.
  intros Hwf. unfold argwhere_not_None, occupied, lessons.
  rewrite <-(cell_indices a Hwf).
  induction (indices a) as [|i l IH]; [done|]. rewrite filter_cons. csimpl.
  destruct (cell a i) eqn:Hc; csimpl; first [done | by rewrite IH].
Qed.

Lemma length_argwhere_None a :
  wf_ndarray a → length (argwhere_None a) + occupied a = size a.
Proof.
  intros Hwf. rewrite <-Hwf. unfold argwhere_None, occupied, lessons.
  rewrite <-(cell_indices a Hwf).
  induction (indices a) as [|i l IH]; [done|]. rewrite filter_cons. csimpl.
  rewrite length_fmap in IH.
  destruct (cell a i) eqn:Hc; csimpl; rewrite ?length_fmap; lia.
Qed.

(** ** Writing a cell *)

Lemma lessons_insert_Some (d : list (option Lesson.t)) k l :
  d !! k = Some None → omap id (<[k := Some l]> d) ≡ₚ l :: omap id d.
Proof.
  intros Hk. rewrite insert_take_drop by (by eapply lookup_lt_Some).
  rewrite <-(take_drop_middle d k None Hk) at 3.
  rewrite !omap_app. csimpl. by rewrite Permutation_middle.
Qed.

Lemma lessons_insert_None (d : list (option Lesson.t)) k l :
  d !! k = Some (Some l) → l :: omap id (<[k := None]> d) ≡ₚ omap id d.
Proof.
  intros Hk. rewrite insert_take_drop by (by eapply lookup_lt_Some).
  rewrite <-(take_drop_middle d k (Some l) Hk) at 3.
  rewrite !omap_app. csimpl. by rewrite Permutation_middle.
Qed.

Lemma lessons_insert_same (d : list (option Lesson.t)) k :
  d !! k = Some None → <[k := None]> d = d.
Proof. apply list_insert_id. Qed.

Lemma setitem_Ok a j x :
  wf_ndarray a → in_bounds a j = true →
  ∃ a', setitem a j x = Ok a'
        ∧ a' = mk_ndarray a.(shape) (<[ravel a j := x]> a.(data))
        ∧ wf_ndarray a' ∧ a'.(shape) = a.(shape)
        ∧ ∀ i, cell a' i = if decide (i = j) then x else cell a i.
Proof.
  intros Hwf Hj. unfold setitem. rewrite Hj. simpl.
  assert (ravel a j < length a.(data)) as Hlt.
  { rewrite Hwf. destruct j as [[c d] ts]. apply in_bounds_spec in Hj as (?&?&?). by apply ravel_lt. }
  rewrite bool_decide_eq_true_2 by done.
  eexists; split; [done|]. split; [done|]. split; [|split; [done|]].
  - unfold wf_ndarray, size, shape0, shape1, shape2. simpl.
    rewrite length_insert. apply Hwf.
  - intros i. unfold cell, in_bounds, ravel, shape0, shape1, shape2. simpl.
    fold (shape0 a) (shape1 a) (shape2 a). fold (ravel a i) (ravel a j).
    fold (in_bounds a i). destruct (in_bounds a i) eqn:Hi.
    + destruct (decide (i = j)) as [->|Hne].
      * by rewrite list_lookup_insert_eq.
      * rewrite list_lookup_insert_ne; [done|].
        intros Heq. apply Hne. symmetry. by eapply ravel_inj.
    + case_decide; [congruence|done].
Qed.

(** Moving the content of [src] to the empty cell [dst], as [get_neighbor]
    and [improve_results] do: [a[dst] = a[src]; a[src] = None]. *)
Lemma relocate_Ok a src dst :
  wf_ndarray a → in_bounds a src = true → in_bounds a dst = true →
  cell a dst = None → src ≠ dst →
  ∃ a1 a2, setitem a dst (cell a src) = Ok a1 ∧ setitem a1 src None = Ok a2
    ∧ wf_ndarray a2 ∧ a2.(shape) = a.(shape)
    ∧ (∀ i, cell a2 i = if decide (i = src) then None
                         else if decide (i = dst) then cell a src
                         else cell a i)
    ∧ lessons a2 ≡ₚ lessons a.
Proof.
  intros Hwf Hsrc Hdst Hnone Hne.
  destruct (setitem_Ok a dst (cell a src) Hwf Hdst)
    as (a1 & H1 & Ha1 & Hwf1 & Hsh1 & Hc1).
  assert (in_bounds a1 src = true) as Hsrc1.
  { unfold in_bounds, shape0, shape1, shape2 in *. by rewrite Hsh1. }
  destruct (setitem_Ok a1 src None Hwf1 Hsrc1)
    as (a2 & H2 & Ha2 & Hwf2 & Hsh2 & Hc2).
  exists a1, a2. split; [done|]. split; [done|]. split; [done|].
  split; [congruence|]. split.
  { intros i. rewrite Hc2, Hc1. done. }
  assert (ravel a1 src = ravel a src) as Hr1.
  { unfold ravel, shape1, shape2. by rewrite Hsh1. }
  assert (ravel a src ≠ ravel a dst) as Hrne.
  { intros Heq. apply Hne. by apply (ravel_inj a). }
  assert (a.(data) !! ravel a dst = Some None) as Hd.
  { unfold cell in Hnone. rewrite Hdst in Hnone.
    destruct (lookup_lt_is_Some_2 a.(data) (ravel a dst)) as [x Hx].
    - rewrite Hwf. destruct dst as [[c d] ts]. apply in_bounds_spec in Hdst as (?&?&?). by apply ravel_lt.
    - rewrite Hx in Hnone. simpl in Hnone. by subst. }
  unfold lessons. rewrite Ha2. simpl. rewrite Hr1, Ha1. simpl.
  destruct (lookup_lt_is_Some_2 a.(data) (ravel a src)) as [x Hx].
  { rewrite Hwf. destruct src as [[c d] ts]. apply in_bounds_spec in Hsrc as (?&?&?). by apply ravel_lt. }
  unfold cell. rewrite Hsrc, Hx. simpl. destruct x as [l|].
  - apply (inj (cons l)). rewrite lessons_insert_None
      by (by rewrite list_lookup_insert_ne).
    by rewrite lessons_insert_Some.
  - rewrite (list_insert_id _ (ravel a dst)) by done.
    by rewrite list_insert_id.
Qed.

(** ** The store monad *)

Lemma bind_M_Ok {A B} (m : M A) (f : A → M B) st b st2 :
  (x ← m; f x) st = Ok (b, st2) →
  ∃ a st1, m st = Ok (a, st1) ∧ f a st1 = Ok (b, st2).
Proof.
  unfold mbind, M_bind. destruct (m st) as [[a st1]| |]; [|done..]. eauto.
Qed.

Lemma bind_M_eq {A B} (m : M A) (f : A → M B) st a st1 :
  m st = Ok (a, st1) → (x ← m; f x) st = f a st1.
Proof. unfold mbind, M_bind. by intros ->. Qed.

Lemma lift_Ok {A} (m : outcome A) st a st1 :
  lift m st = Ok (a, st1) → m = Ok a ∧ st1 = st.
Proof. unfold lift. destruct m; naive_solver. Qed.

Lemma choice_Ok {A} (l : list A) st :
  l ≠ [] → ∃ x, x ∈ l ∧ choice l st = Ok (x, tick st).
Proof.
  destruct l as [|y l]; [done|]. intros _.
  exists (nth (tape st 0 mod length (y :: l)) (y :: l) y). split; [|done].
  apply list_elem_of_In, nth_In, Nat.mod_upper_bound. simpl. lia.
Qed.

Lemma choice_inv {A} (l : list A) st x st1 :
  choice l st = Ok (x, st1) → x ∈ l ∧ st1 = tick st.
Proof.
  destruct l as [|y l]; [done|]. intros H.
  destruct (choice_Ok (y :: l) st) as (x' & Hx' & Heq); [done|].
  rewrite Heq in H. by simplify_eq.
Qed.

(** Two stores that differ at most in the array at [r] and in the position
    on the random tape ([n] draws later). *)
Lemma get_neighbor_inv r st r' st' :
  get_neighbor r st = Ok (r', st') →
  ∃ src dst a1 a2,
    r' = r ∧ st' = update r a2 (update r a1 (tick (tick st)))
    ∧ src ∈ argwhere_not_None (st.(heap) r)
    ∧ dst ∈ argwhere_None (st.(heap) r)
    ∧ setitem (st.(heap) r) dst (cell (st.(heap) r) src) = Ok a1
    ∧ setitem a1 src None = Ok a2.
Proof.
  unfold get_neighbor. intros H.
  apply bind_M_Ok in H as (a & st1 & [= <- <-] & H).
  apply bind_M_Ok in H as (src & st2 & [Hsrc ->]%choice_inv & H).
  apply bind_M_Ok in H as (dst & st3 & [Hdst ->]%choice_inv & H).
  apply bind_M_Ok in H as (x & st4 & Hx & H).
  unfold getitem_at in Hx.
  apply bind_M_Ok in Hx as (a' & st5 & [= <- <-] & [Hx ->]%lift_Ok).
  apply bind_M_Ok in H as ([] & st6 & H1 & H).
  unfold setitem_at in H1.
  apply bind_M_Ok in H1 as (a' & st7 & [= <- <-] & H1).
  apply bind_M_Ok in H1 as (a1 & st8 & [Ha1 ->]%lift_Ok & [= <-]).
  apply bind_M_Ok in H as ([] & st9 & H2 & [= <- <-]).
  unfold setitem_at in H2.
  apply bind_M_Ok in H2 as (a' & st10 & [= <- <-] & H2).
  apply bind_M_Ok in H2 as (a2 & st11 & [Ha2 ->]%lift_Ok & [= <-]).
  simpl in *. rewrite fn_lookup_insert in Ha2.
  exists src, dst, a1, a2. repeat split; try done.
  assert (x = cell (heap st r) src) as <-; [|done].
  unfold getitem in Hx. unfold cell.
  destruct (in_bounds (heap st r) src); [|done].
  destruct (data (heap st r) !! _); by simplify_eq.
Qed.

(** ** [get_neighbor] *)

Lemma elem_of_argwhere_not_None a i :
  i ∈ argwhere_not_None a → in_bounds a i = true ∧ is_Some (cell a i).
Proof.
  unfold argwhere_not_None. rewrite list_elem_of_filter. intros [Hs Hi].
  split; [|done]. destruct i as [[c d] ts].
  by apply in_bounds_spec, elem_of_indices.
Qed.

Lemma elem_of_argwhere_None a i :
  i ∈ argwhere_None a → in_bounds a i = true ∧ cell a i = None.
Proof.
  unfold argwhere_None. rewrite list_elem_of_filter. intros [Hs Hi].
  split; [|done]. destruct i as [[c d] ts].
  by apply in_bounds_spec, elem_of_indices.
Qed.

Lemma get_neighbor_Ok r st :
  wf_ndarray (st.(heap) r) →
  0 < occupied (st.(heap) r) → occupied (st.(heap) r) < size (st.(heap) r) →
  ∃ src dst a1 a2,
    get_neighbor r st = Ok (r, update r a2 (update r a1 (tick (tick st))))
    ∧ src ∈ argwhere_not_None (st.(heap) r)
    ∧ dst ∈ argwhere_None (st.(heap) r)
    ∧ setitem (st.(heap) r) dst (cell (st.(heap) r) src) = Ok a1
    ∧ setitem a1 src None = Ok a2.
Proof.
  intros Hwf Hocc Hfree. set (a := heap st r) in *.
  destruct (choice_Ok (argwhere_not_None a) st) as (src & Hsrc & Hc1).
  { intros Hnil. pose proof (length_argwhere_not_None a Hwf) as Hl.
    rewrite Hnil in Hl. simpl in Hl. lia. }
  destruct (choice_Ok (argwhere_None a) (tick st)) as (dst & Hdst & Hc2).
  { intros Hnil. pose proof (length_argwhere_None a Hwf) as Hl.
    rewrite Hnil in Hl. simpl in Hl. lia. }
  destruct (elem_of_argwhere_not_None _ _ Hsrc) as [Hbs [l Hl]].
  destruct (elem_of_argwhere_None _ _ Hdst) as [Hbd Hnone].
  destruct (relocate_Ok a src dst) as (a1 & a2 & H1 & H2 & _); try done.
  { intros ->. congruence. }
  exists src, dst, a1, a2. split; [|done].
  unfold get_neighbor. rewrite (bind_M_eq _ _ st a st) by done. fold a.
  rewrite (bind_M_eq _ _ _ _ _ Hc1), (bind_M_eq _ _ _ _ _ Hc2).
  unfold getitem_at, setitem_at.
  rewrite (bind_M_eq _ _ _ (cell a src) (tick (tick st))).
  2: { rewrite (bind_M_eq _ _ _ a (tick (tick st))) by done.
       unfold lift. by rewrite getitem_cell. }
  rewrite (bind_M_eq _ _ _ () (update r a1 (tick (tick st)))).
  2: { rewrite (bind_M_eq _ _ _ a (tick (tick st))) by done.
       rewrite (bind_M_eq _ _ _ a1 (tick (tick st))); [done|].
       unfold lift. by rewrite H1. }
  rewrite (bind_M_eq _ _ _ () (update r a2 (update r a1 (tick (tick st))))).
  2: { rewrite (bind_M_eq _ _ _ a1 (update r a1 (tick (tick st)))).
       2: { unfold deref. simpl. by rewrite fn_lookup_insert. }
       rewrite (bind_M_eq _ _ _ a2 (update r a1 (tick (tick st)))); [done|].
       unfold lift. by rewrite H2. }
  done.
Qed.

(** What a successful call of [get_neighbor] did to the array. *)
Lemma get_neighbor_moved r st src dst a1 a2 :
  wf_ndarray (st.(heap) r) →
  src ∈ argwhere_not_None (st.(heap) r) →
  dst ∈ argwhere_None (st.(heap) r) →
  setitem (st.(heap) r) dst (cell (st.(heap) r) src) = Ok a1 →
  setitem a1 src None = Ok a2 →
  wf_ndarray a2 ∧ a2.(shape) = (st.(heap) r).(shape)
  ∧ cell a2 src = None ∧ cell a2 dst = cell (st.(heap) r) src
  ∧ (∀ i, i ≠ src → i ≠ dst → cell a2 i = cell (st.(heap) r) i)
  ∧ lessons a2 ≡ₚ lessons (st.(heap) r).
Proof.
  intros Hwf Hsrc Hdst H1 H2. set (a := heap st r) in *.
  destruct (elem_of_argwhere_not_None _ _ Hsrc) as [Hbs [l Hl]].
  destruct (elem_of_argwhere_None _ _ Hdst) as [Hbd Hnone].
  assert (src ≠ dst) as Hne by (intros ->; congruence).
  destruct (relocate_Ok a src dst) as (a1' & a2' & H1' & H2' & Hwf2 & Hsh & Hc & Hp);
    try done.
  rewrite H1 in H1'. simplify_eq. rewrite H2 in H2'. simplify_eq.
  split; [done|]. split; [done|]. split; [|split; [|split; [|done]]].
  - rewrite Hc. by rewrite decide_True.
  - rewrite Hc. rewrite decide_False by done. by rewrite decide_True.
  - intros i ??. rewrite Hc. by rewrite !decide_False.
Qed.

(** C4.  On a grid with an occupied and an empty cell, [get_neighbor]
    returns; the grid it leaves has as many occupied cells as before: the
    chosen occupied cell is now empty, the chosen empty cell holds the lesson
    that was moved, every other cell is unchanged, and the lessons of the
    grid are the same ones. *)
Theorem get_neighbor_relocates (st : state) (r : loc) :
  wf_ndarray (st.(heap) r) →
  0 < occupied (st.(heap) r) → occupied (st.(heap) r) < size (st.(heap) r) →
  ∃ src dst lesson st',
    get_neighbor r st = Ok (r, st')
    ∧ cell (st.(heap) r) src = Some lesson
    ∧ cell (st.(heap) r) dst = None
    ∧ cell (st'.(heap) r) src = None
    ∧ cell (st'.(heap) r) dst = Some lesson
    ∧ (∀ i, i ≠ src → i ≠ dst → cell (st'.(heap) r) i = cell (st.(heap) r) i)
    ∧ occupied (st'.(heap) r) = occupied (st.(heap) r)
    ∧ lessons (st'.(heap) r) ≡ₚ lessons (st.(heap) r)
    ∧ (st'.(heap) r).(shape) = (st.(heap) r).(shape).
Proof.
  intros Hwf Hocc Hfree.
  destruct (get_neighbor_Ok r st Hwf Hocc Hfree)
    as (src & dst & a1 & a2 & Hn & Hsrc & Hdst & H1 & H2).
  destruct (get_neighbor_moved r st src dst a1 a2 Hwf Hsrc Hdst H1 H2)
    as (Hwf2 & Hsh & Hcs & Hcd & Hother & Hperm).
  destruct (elem_of_argwhere_not_None _ _ Hsrc) as [_ [lesson Hl]].
  destruct (elem_of_argwhere_None _ _ Hdst) as [_ Hnone].
  exists src, dst, lesson, (update r a2 (update r a1 (tick (tick st)))).
  simpl. rewrite fn_lookup_insert.
  repeat split; try done; try congruence.
  unfold occupied. by rewrite Hperm.
Qed.

Lemma get_neighbor_relocates_witness :
  ∃ src dst lesson st',
    get_neighbor 0 studio_state = Ok (0, st')
    ∧ cell week src = Some lesson
    ∧ cell week dst = None
    ∧ cell (st'.(heap) 0) src = None
    ∧ cell (st'.(heap) 0) dst = Some lesson
    ∧ (∀ i, i ≠ src → i ≠ dst → cell (st'.(heap) 0) i = cell week i)
    ∧ occupied (st'.(heap) 0) = occupied week
    ∧ lessons (st'.(heap) 0) ≡ₚ lessons week
    ∧ (st'.(heap) 0).(shape) = week.(shape).
Proof.
  apply (get_neighbor_relocates studio_state 0);
    [reflexivity|compute; lia|compute; lia].
Defined.

(** ** One proposal of the annealing loop *)

Section Annealing_facts.

Variable metropolis : nat → Z → Q → bool.

(** The four ways through the body of the inner loop. *)
Lemma sa_iteration_inv s st s' st' :
  sa_iteration metropolis s st = Ok (s', st') →
  ∃ st1 nc,
    get_neighbor s.(current_solution) st = Ok (s.(current_solution), st1)
    ∧ get_cost st1.(self) (st1.(heap) s.(current_solution)) = Ok nc
    ∧ ((nc - s.(current_cost) >= 0 ∧ nc > s.(best_cost))%Z
        ∧ s' = mk_sa_state s.(current_solution) st1.(next) s.(current_temp)
                 nc nc s.(counter) (S s.(total_counter))
        ∧ st' = allocate (st1.(heap) s.(current_solution)) st1
       ∨ (nc - s.(current_cost) >= 0 ∧ nc <= s.(best_cost))%Z
        ∧ s' = mk_sa_state s.(current_solution) s.(best_solution)
                 s.(current_temp) nc s.(best_cost) s.(counter)
                 (S s.(total_counter))
        ∧ st' = st1
       ∨ (nc - s.(current_cost) < 0)%Z
        ∧ metropolis (st1.(tape) 0) (nc - s.(current_cost)) s.(current_temp)
          = true
        ∧ s' = mk_sa_state s.(current_solution) s.(best_solution)
                 s.(current_temp) nc s.(best_cost) s.(counter)
                 (S s.(total_counter))
        ∧ st' = tick st1
       ∨ (nc - s.(current_cost) < 0)%Z
        ∧ metropolis (st1.(tape) 0) (nc - s.(current_cost)) s.(current_temp)
          = false
        ∧ s' = mk_sa_state s.(current_solution) s.(best_solution)
                 s.(current_temp) s.(current_cost) s.(best_cost) s.(counter)
                 (S s.(total_counter))
        ∧ st' = tick st1).
Proof.
  unfold sa_iteration. intros H.
  apply bind_M_Ok in H as (r & st1 & Hn & H).
  pose proof (get_neighbor_inv _ _ _ _ Hn) as (_ & _ & _ & _ & -> & _).
  apply bind_M_Ok in H as (nc & st2 & Hc & H).
  rewrite get_cost_at_eq in Hc.
  destruct (get_cost _ _) as [v| |] eqn:Hcost; simplify_eq.
  exists st2, nc. split; [done|]. split; [done|].
  destruct (nc - current_cost s >=? 0)%Z eqn:Hdelta.
  - apply Z.geb_le in Hdelta.
    destruct (nc >? best_cost s)%Z eqn:Hbest.
    + apply Z.gtb_lt in Hbest.
      apply bind_M_Ok in H as (b & st3 & [= <- <-] & [= <- <-]).
      left. split; [lia|done].
    + rewrite Z.gtb_ltb, Z.ltb_ge in Hbest. injection H as <- <-.
      right; left. split; [lia|done].
  - rewrite Z.geb_leb, Z.leb_gt in Hdelta.
    apply bind_M_Ok in H as (u & st3 & [= <- <-] & H).
    destruct (metropolis _ _ _) eqn:Hm; injection H as <- <-.
    + right; right; left. done.
    + right; right; right. done.
Qed.


Lemma get_neighbor_frame r st r' st1 :
  get_neighbor r st = Ok (r', st1) →
  r' = r ∧ st1.(self) = st.(self) ∧ st1.(next) = st.(next)
  ∧ ∀ b, b ≠ r → st1.(heap) b = st.(heap) b.
Proof.
  intros (src & dst & a1 & a2 & -> & -> & _)%get_neighbor_inv.
  repeat split; try done. intros b Hb. simpl.
  by rewrite !fn_lookup_insert_ne.
Qed.

Lemma sa_iteration_facts s st s' st' :
  sa_iteration metropolis s st = Ok (s', st') →
  (s.(best_cost) ≤ s'.(best_cost))%Z
  ∧ s'.(total_counter) = S s.(total_counter)
  ∧ s'.(current_solution) = s.(current_solution)
  ∧ s'.(current_temp) = s.(current_temp)
  ∧ s'.(counter) = s.(counter)
  ∧ st'.(self) = st.(self).
Proof.
  intros (st1 & nc & Hn & Hc & Hcases)%sa_iteration_inv.
  apply get_neighbor_frame in Hn as (_ & Hself & _).
  destruct Hcases as [(? & -> & ->)|[(? & -> & ->)|[(? & ? & -> & ->)|(? & ? & -> & ->)]]];
    simpl; repeat split; try done; lia.
Qed.

Lemma sa_iteration_sa_inv s st s' st' :
  sa_iteration metropolis s st = Ok (s', st') → sa_inv st s → sa_inv st' s'.
Proof.
  intros (st1 & nc & Hn & Hc & Hcases)%sa_iteration_inv [Hd Hca Hba Hbc Hle].
  apply get_neighbor_frame in Hn as (_ & Hself & Hnext & Hheap).
  destruct Hcases as [(? & -> & ->)|[(? & -> & ->)|[(? & ? & -> & ->)|(? & ? & -> & ->)]]];
    split; simpl; rewrite ?Hnext, ?(Hheap _ Hd); try done; try lia;
    try (by rewrite Hself).
  by rewrite fn_lookup_insert.
Qed.

(** A property of the loop variables and the store that every turn keeps
    holds when the loop is left. *)
Lemma for_inM_invariant {A S} (I : S → state → Prop) (l : list A)
    (body : A → S → M S) s st s' st' :
  (∀ x s st s' st', body x s st = Ok (s', st') → I s st → I s' st') →
  for_inM l body s st = Ok (s', st') → I s st → I s' st'.
Proof.
  intros Hb. revert s st; induction l as [|x l IH]; intros s st H Hs; simpl in H.
  - by injection H as <- <-.
  - apply bind_M_Ok in H as (s1 & st1 & H1 & H). eauto.
Qed.

Lemma sa_iterations_total l s st s' st' :
  for_inM l (λ _ : nat, sa_iteration metropolis) s st = Ok (s', st') →
  s'.(total_counter) = s.(total_counter) + length l.
Proof.
  revert s st; induction l as [|x l IH]; intros s st H; simpl in H.
  - injection H as <- <-. simpl. lia.
  - apply bind_M_Ok in H as (s1 & st1 & H1 & H).
    apply sa_iteration_facts in H1 as (_ & Ht & _). apply IH in H.
    simpl. lia.
Qed.

Lemma sa_epoch_facts alpha epsilon n s st s' st' :
  sa_epoch metropolis alpha epsilon n s st = Ok (s', st') →
  (sa_inv st s → sa_inv st' s')
  ∧ (s.(best_cost) ≤ s'.(best_cost))%Z
  ∧ s'.(total_counter) = s.(total_counter) + Z.to_nat n
  ∧ s'.(current_solution) = s.(current_solution)
  ∧ st'.(self) = st.(self).
Proof.
  unfold sa_epoch. intros H.
  apply bind_M_Ok in H as (s1 & st1 & H1 & [= <- <-]). simpl.
  split; [|split; [|split; [|split]]].
  - intros Hinv.
    pose proof (for_inM_invariant (λ s st, sa_inv st s) _ _ _ _ _ _
      (λ _ s st s' st', sa_iteration_sa_inv s st s' st') H1 Hinv) as [].
    by split.
  - apply (for_inM_invariant (λ s' _, (best_cost s ≤ best_cost s')%Z)
             _ _ _ _ _ _) in H1; [done| |done].
    intros _ s2 st2 s3 st3 (Hle & _)%sa_iteration_facts. lia.
  - apply sa_iterations_total in H1. unfold range in H1.
    by rewrite length_seq in H1.
  - apply (for_inM_invariant
             (λ s' _, current_solution s' = current_solution s)
             _ _ _ _ _ _) in H1; [done| |done].
    intros _ s2 st2 s3 st3 (_ & _ & Heq & _)%sa_iteration_facts. congruence.
  - apply (for_inM_invariant (λ _ st', self st' = self st)
             _ _ _ _ _ _) in H1; [done| |done].
    intros _ s2 st2 s3 st3 (_ & _ & _ & _ & _ & Heq)%sa_iteration_facts.
    congruence.
Qed.

Lemma sa_while_facts fuel alpha min_temp epsilon n m s st s' st' :
  sa_while metropolis fuel alpha min_temp epsilon n m s st = Ok (s', st') →
  (sa_inv st s → sa_inv st' s')
  ∧ (s.(best_cost) ≤ s'.(best_cost))%Z
  ∧ (∃ epochs, epochs ≤ fuel
       ∧ s'.(total_counter) = s.(total_counter) + epochs * Z.to_nat n)
  ∧ st'.(self) = st.(self).
Proof.
  revert s st; induction fuel as [|fuel IH]; intros s st H; simpl in H.
  - destruct (sa_continue min_temp m s); [done|]. injection H as <- <-.
    split; [done|]. split; [done|]. split; [|done]. exists 0. split; lia.
  - destruct (sa_continue min_temp m s).
    + apply bind_M_Ok in H as (s1 & st1 & H1 & H).
      apply sa_epoch_facts in H1 as (Hi1 & Hb1 & Ht1 & _ & Hs1).
      apply IH in H as (Hi2 & Hb2 & (k & Hk & Ht2) & Hs2).
      split; [auto|]. split; [lia|]. split; [|congruence].
      exists (S k). split; [lia|]. rewrite Ht2, Ht1. simpl. lia.
    + injection H as <- <-.
      split; [done|]. split; [done|]. split; [|done]. exists 0. split; lia.
Qed.

Lemma get_cost_set_schedule self r a :
  get_cost (set_schedule self r) a = get_cost self a.
Proof. done. Qed.

Lemma sa_init_facts initial_temp st s st1 :
  sa_init initial_temp st = Ok (s, st1) →
  sa_inv st1 s ∧ st1.(self) = st.(self)
  ∧ s.(total_counter) = 0
  ∧ get_cost st.(self) (st.(heap) st.(self).(schedule)) = Ok s.(best_cost).
Proof.
  unfold sa_init. intros H.
  apply bind_M_Ok in H as (this & st0 & [= <- <-] & H).
  apply bind_M_Ok in H as (cur & st2 & [= <- <-] & H).
  apply bind_M_Ok in H as (best & st3 & [= <- <-] & H).
  apply bind_M_Ok in H as (cc & st4 & Hcc & H).
  apply bind_M_Ok in H as (bc & st5 & Hbc & [= <- <-]).
  rewrite get_cost_at_eq in Hcc.
  destruct (get_cost _ _) as [v| |] eqn:Hcost1 in Hcc; simplify_eq.
  rewrite get_cost_at_eq in Hbc.
  destruct (get_cost _ _) as [v| |] eqn:Hcost2 in Hbc; simplify_eq.
  simpl in *. rewrite fn_lookup_insert in Hcost2.
  rewrite fn_lookup_insert_ne in Hcost1 by lia.
  rewrite fn_lookup_insert in Hcost1, Hcost2.
  assert (cc = bc) as -> by congruence.
  split; [|done]. split; simpl; try lia.
  by rewrite fn_lookup_insert, fn_lookup_insert.
Qed.

Lemma simulated_annealing_inv fuel alpha initial_temp n min_temp epsilon m
    initial_solution st x st' :
  simulated_annealing metropolis fuel alpha initial_temp n min_temp epsilon m
    initial_solution st = Ok (x, st') →
  ∃ st0 s0 st1 s1 st2,
    (if initial_solution then st0 = st
     else generate_random_schedule false st = Ok ((), st0))
    ∧ sa_init initial_temp st0 = Ok (s0, st1)
    ∧ sa_while metropolis fuel alpha min_temp epsilon n m s0 st1 = Ok (s1, st2)
    ∧ x = (s1.(best_cost), s1.(total_counter))
    ∧ st' = mk_state (set_schedule st2.(self) s1.(best_solution))
              st2.(heap) st2.(next) st2.(tape).
Proof.
  unfold simulated_annealing. intros H.
  apply bind_M_Ok in H as ([] & st0 & H0 & H).
  apply bind_M_Ok in H as (s0 & st1 & Hinit & H).
  apply bind_M_Ok in H as (s1 & st2 & Hwhile & H).
  apply bind_M_Ok in H as (this & st3 & [= <- <-] & H).
  apply bind_M_Ok in H as ([] & st4 & [= <-] & [= <- <-]).
  exists st0, s0, st1, s1, st2. split; [|done].
  destruct initial_solution; [by injection H0|done].
Qed.

(** C3.  [best_cost] never decreases from one turn of the inner loop to the
    next, and the [best_cost] a run returns is at least the cost of the grid
    the run started from (the grid of the schedule, after the random
    generation when [initial_solution] is false). *)
Theorem best_cost_never_decreases :
  (∀ s st s' st',
     sa_iteration metropolis s st = Ok (s', st') →
     (s.(best_cost) ≤ s'.(best_cost))%Z)
  ∧ (∀ fuel alpha initial_temp n min_temp epsilon m initial_solution st
       best total st',
       simulated_annealing metropolis fuel alpha initial_temp n min_temp
         epsilon m initial_solution st = Ok ((best, total), st') →
       ∃ st0 initial_cost,
         (if initial_solution then st0 = st
          else generate_random_schedule false st = Ok ((), st0))
         ∧ get_cost st0.(self) (st0.(heap) st0.(self).(schedule))
           = Ok initial_cost
         ∧ (initial_cost ≤ best)%Z).
Proof.
  split.
  - intros s st s' st' H. by apply sa_iteration_facts in H as (? & _).
  - intros fuel alpha initial_temp n min_temp epsilon m initial_solution st
      best total st' H.
    apply simulated_annealing_inv
      in H as (st0 & s0 & st1 & s1 & st2 & H0 & Hinit & Hwhile & [= -> ->] & _).
    apply sa_init_facts in Hinit as (_ & _ & _ & Hcost).
    apply sa_while_facts in Hwhile as (_ & Hle & _).
    exists st0, (best_cost s0). done.
Qed.

(** C7.  [get_neighbor] returns the reference it was given, and the array
    behind it has been changed in place.  In the inner loop of
    [simulated_annealing] a rejected proposal therefore leaves the working
    grid as the proposal made it, while [current_cost] keeps its value;
    [current_cost] changes only in an accepting branch, where it becomes the
    cost of the proposal. *)
Theorem rejected_proposal_stays s st s' st' :
  wf_ndarray (st.(heap) s.(current_solution)) →
  sa_iteration metropolis s st = Ok (s', st') →
  ∃ st1 neighbor_cost,
    get_neighbor s.(current_solution) st = Ok (s.(current_solution), st1)
    ∧ st1.(heap) s.(current_solution) ≠ st.(heap) s.(current_solution)
    ∧ get_cost st1.(self) (st1.(heap) s.(current_solution)) = Ok neighbor_cost
    ∧ ((neighbor_cost - s.(current_cost) < 0)%Z →
       metropolis (st1.(tape) 0) (neighbor_cost - s.(current_cost))
         s.(current_temp) = false →
       s'.(current_solution) = s.(current_solution)
       ∧ st'.(heap) s'.(current_solution) = st1.(heap) s.(current_solution)
       ∧ s'.(current_cost) = s.(current_cost))
    ∧ (s'.(current_cost) ≠ s.(current_cost) →
       ((neighbor_cost - s.(current_cost) >= 0)%Z
        ∨ metropolis (st1.(tape) 0) (neighbor_cost - s.(current_cost))
            s.(current_temp) = true)
       ∧ s'.(current_cost) = neighbor_cost).
Proof.
  intros Hwf (st1 & nc & Hn & Hc & Hcases)%sa_iteration_inv.
  exists st1, nc. split; [done|]. split; [|split; [done|]].
  - pose proof (get_neighbor_inv _ _ _ _ Hn)
      as (src & dst & a1 & a2 & _ & -> & Hsrc & Hdst & H1 & H2).
    pose proof (get_neighbor_moved _ _ _ _ _ _ Hwf Hsrc Hdst H1 H2)
      as (_ & _ & Hcs & _).
    destruct (elem_of_argwhere_not_None _ _ Hsrc) as [_ [l Hl]].
    simpl. rewrite fn_lookup_insert. intros Heq. rewrite Heq in Hcs.
    congruence.
  - destruct Hcases as [(? & -> & ->)|[(? & -> & ->)|[(? & Hm & -> & ->)|(? & Hm & -> & ->)]]];
      simpl.
    + split; [intros; lia|]. intros _. split; [left; lia|done].
    + split; [intros; lia|]. intros _. split; [left; lia|done].
    + split; [intros; congruence|]. intros _. split; [by right|done].
    + split; [done|]. intros Hne. done.
Qed.

(** C10.  When [simulated_annealing] returns, the grid of the schedule is
    the best solution on record and the [best_cost] returned is its cost.
    Every turn of the inner loop keeps the record sound: the best solution is
    an array of its own, which the move on the working array leaves as it
    was; at an improvement it is a fresh copy of the working array; and the
    cost of the working array after the turn never exceeds [best_cost]. *)
Theorem best_solution_is_recorded :
  (∀ fuel alpha initial_temp n min_temp epsilon m initial_solution st
     best total st',
     simulated_annealing metropolis fuel alpha initial_temp n min_temp
       epsilon m initial_solution st = Ok ((best, total), st') →
     get_cost st'.(self) (st'.(heap) st'.(self).(schedule)) = Ok best)
  ∧ (∀ s st s' st',
       sa_inv st s → sa_iteration metropolis s st = Ok (s', st') →
       sa_inv st' s'
       ∧ (s'.(best_cost) = s.(best_cost) →
          s'.(best_solution) = s.(best_solution)
          ∧ st'.(heap) s'.(best_solution) = st.(heap) s.(best_solution))
       ∧ (s'.(best_cost) ≠ s.(best_cost) →
          s'.(best_solution) = st.(next)
          ∧ st'.(heap) s'.(best_solution) = st'.(heap) s'.(current_solution))
       ∧ ∃ cost,
           get_cost st'.(self) (st'.(heap) s'.(current_solution)) = Ok cost
           ∧ (cost ≤ s'.(best_cost))%Z).
Proof.
  split.
  - intros fuel alpha initial_temp n min_temp epsilon m initial_solution st
      best total st' H.
    apply simulated_annealing_inv
      in H as (st0 & s0 & st1 & s1 & st2 & H0 & Hinit & Hwhile & [= -> ->] & ->).
    apply sa_init_facts in Hinit as (Hinv & _).
    apply sa_while_facts in Hwhile as (Hkeep & _).
    destruct (Hkeep Hinv) as [_ _ _ Hcost _]. done.
  - intros s st s' st' Hinv H. split; [by eapply sa_iteration_sa_inv|].
    apply sa_iteration_inv in H as (st1 & nc & Hn & Hc & Hcases).
    destruct Hinv as [Hd Hca Hba Hbc Hle].
    apply get_neighbor_frame in Hn as (_ & Hself & Hnext & Hheap).
    destruct Hcases as [(? & -> & ->)|[(? & -> & ->)|[(? & ? & -> & ->)|(? & ? & -> & ->)]]];
      simpl.
    + split; [intros; lia|]. split.
      * intros _. split; [done|]. rewrite fn_lookup_insert.
        by rewrite fn_lookup_insert_ne by lia.
      * exists nc. rewrite fn_lookup_insert_ne by lia. split; [done|lia].
    + split; [intros _; split; [done|by apply Hheap]|].
      split; [done|]. exists nc. split; [done|lia].
    + split; [intros _; split; [done|by apply Hheap]|].
      split; [done|]. exists nc. split; [done|lia].
    + split; [intros _; split; [done|by apply Hheap]|].
      split; [done|]. exists nc. split; [done|lia].
Qed.

End Annealing_facts.
Lemma best_cost_never_decreases_witness :
  (sa_demo.(best_cost)
   ≤ (result_of (sa_iteration never sa_demo studio_state)
        (sa_demo, studio_state)).1.(best_cost))%Z
  ∧ ∃ st0 initial_cost,
      st0 = studio_state
      ∧ get_cost st0.(self) (st0.(heap) st0.(self).(schedule)) = Ok initial_cost
      ∧ (initial_cost ≤ -190)%Z.
Proof.
  split.
  - apply (proj1 (best_cost_never_decreases never) sa_demo studio_state _
             (result_of (sa_iteration never sa_demo studio_state)
                (sa_demo, studio_state)).2).
    vm_compute. reflexivity.
  - apply (proj2 (best_cost_never_decreases coin) 10 (1 # 2)%Q (4 # 1)%Q 2%Z
             (1 # 1)%Q (1 # 100)%Q 5%Z true studio_state (-190)%Z 4
             (result_of (simulated_annealing coin 10 (1 # 2) (4 # 1) 2 (1 # 1)
                           (1 # 100) 5 true studio_state)
                ((0%Z, 0), studio_state)).2).
    vm_compute. reflexivity.
Defined.

Lemma rejected_proposal_stays_witness :
  ∃ st1 neighbor_cost,
    get_neighbor 0 studio_state = Ok (0, st1)
    ∧ st1.(heap) 0 ≠ week
    ∧ get_cost st1.(self) (st1.(heap) 0) = Ok neighbor_cost
    ∧ ((neighbor_cost - 0 < 0)%Z →
       never (st1.(tape) 0) (neighbor_cost - 0) (4 # 1) = false →
       0 = 0
       ∧ (result_of (sa_iteration never sa_demo studio_state)
            (sa_demo, studio_state)).2.(heap) 0 = st1.(heap) 0
       ∧ 0%Z = 0%Z)
    ∧ (0%Z ≠ 0%Z →
       ((neighbor_cost - 0 >= 0)%Z
        ∨ never (st1.(tape) 0) (neighbor_cost - 0) (4 # 1) = true)
       ∧ 0%Z = neighbor_cost).
Proof.
  apply (rejected_proposal_stays never sa_demo studio_state
           (result_of (sa_iteration never sa_demo studio_state)
              (sa_demo, studio_state)).1
           (result_of (sa_iteration never sa_demo studio_state)
              (sa_demo, studio_state)).2).
  - reflexivity.
  - vm_compute. reflexivity.
Defined.

(** The rejected proposal of the example: the working grid has changed, the
    cost on record has not. *)
Example rejected_proposal_example :
  let x := result_of (sa_iteration never sa_demo studio_state)
             (sa_demo, studio_state) in
  x.2.(heap) 0 = mk_ndarray (1, 2, 2) [None; None; Some yoga0; Some zumba0]
  ∧ get_cost studio (x.2.(heap) 0) = Ok (-190)%Z
  ∧ x.1.(current_cost) = sa_demo.(current_cost).
Proof. vm_compute. done. Qed.

Lemma sa_inv_demo :
  sa_inv (allocate week (allocate week studio_state))
    (mk_sa_state 1 2 (4 # 1) (-440) (-440) 0 0).
Proof. split; simpl; [lia|lia|lia|reflexivity|lia]. Defined.

Lemma best_solution_is_recorded_witness :
  (let st' := (result_of (simulated_annealing coin 10 (1 # 2) (4 # 1) 2 (1 # 1)
                            (1 # 100) 5 true studio_state)
                 ((0%Z, 0), studio_state)).2 in
   get_cost st'.(self) (st'.(heap) st'.(self).(schedule)) = Ok (-190)%Z)
  ∧ (let st := allocate week (allocate week studio_state) in
     let s := mk_sa_state 1 2 (4 # 1) (-440) (-440) 0 0 in
     let x := result_of (sa_iteration coin s st) (s, st) in
     sa_inv x.2 x.1
     ∧ x.2.(heap) x.1.(best_solution) = x.2.(heap) x.1.(current_solution)).
Proof.
  split.
  - apply (proj1 (best_solution_is_recorded coin) 10 (1 # 2)%Q (4 # 1)%Q 2%Z
             (1 # 1)%Q (1 # 100)%Q 5%Z true studio_state (-190)%Z 4).
    vm_compute. reflexivity.
  - pose (st := allocate week (allocate week studio_state)).
    pose (s := mk_sa_state 1 2 (4 # 1) (-440) (-440) 0 0).
    destruct (proj2 (best_solution_is_recorded coin) s st
                (result_of (sa_iteration coin s st) (s, st)).1
                (result_of (sa_iteration coin s st) (s, st)).2)
      as (Hinv & _ & Hnew & _); [exact sa_inv_demo|vm_compute; reflexivity|].
    split; [exact Hinv|]. apply Hnew. vm_compute. discriminate.
Defined.

(** ** [generate_random_schedule] *)

(** The exclusion loop removes nobody: it returns the list it was given, or
    it raises at the first occupied position. *)
Lemma exclude_busy_inv a positions l l' :
  exclude_busy a positions l = Ok l' →
  l' = l ∧ Forall (λ ts, row_not_None a ts = false) positions.
Proof.
  unfold exclude_busy. revert l; induction positions as [|ts p IH]; intros l H;
    simpl in H.
  - by injection H as <-.
  - destruct (row_not_None a ts) eqn:Hrow; [done|]. simpl in H.
    apply IH in H as [-> Hp]. split; [done|]. by constructor.
Qed.

Lemma exclude_busy_raise a positions l ts :
  ts ∈ positions → row_not_None a ts = true →
  exclude_busy a positions l = Raise AttributeError.
Proof.
  unfold exclude_busy. intros (pre & post & ->)%list_elem_of_split Hrow.
  apply for_in_raise_at.
  - intros y s. by destruct (row_not_None a y).
  - intros s. by rewrite Hrow.
Qed.

(** C6.  With two classrooms the second lesson group meets an occupied
    position that shares its weekly slot: the generator raises
    [AttributeError] instead of excluding the instructor and placing the
    lesson, whatever the first draw and in both placement modes. *)
Theorem generate_random_schedule_conflict :
  generate_random_schedule false (duo_state (λ k, k)) = Raise AttributeError
  ∧ generate_random_schedule false (duo_state (λ k, S k)) = Raise AttributeError
  ∧ generate_random_schedule true (duo_state (λ k, k)) = Raise AttributeError.
Proof. repeat split; vm_compute; reflexivity. Qed.

(** With one classroom no other position shares a weekly slot, and the
    generator places every group. *)
Example generate_random_schedule_studio :
  (result_of (generate_random_schedule false studio_empty)
     ((), studio_empty)).2.(heap) 0
  = mk_ndarray (1, 2, 2)
      [Some zumba0; None; None;
       Some (Lesson.mk instructor1 YOGA [client1; client2])].
Proof. vm_compute. reflexivity. Qed.

(** ** The parameter forms *)

(** C8.  Both [on_text] handlers store the integer the text parses to, and
    store 0 when the text does not parse as an integer; nothing is
    rejected. *)
Theorem on_text_stores_int_or_zero (int : string → option Z)
    (d : gmap string value) (parameter input_parameter : string) :
  Optimize_on_text int d parameter input_parameter
  = <[parameter := VInt (default 0%Z (int input_parameter))]> d
  ∧ (ScheduleParameters_on_text int d parameter input_parameter).1
    = <[parameter := VInt (default 0%Z (int input_parameter))]> d
  ∧ Optimize_on_text int d parameter input_parameter !! parameter
    = Some (VInt match int input_parameter with Some n => n | None => 0%Z end).
Proof.
  unfold Optimize_on_text, ScheduleParameters_on_text, store_int. simpl.
  destruct (int input_parameter); simpl; by rewrite lookup_insert_eq.
Qed.

Example on_text_number :
  Optimize_on_text int_ascii Optimize_parameters "n_iter_one_temp" " 75 "
    !! "n_iter_one_temp"%string = Some (VInt 75).
Proof. vm_compute. reflexivity. Qed.

Example on_text_not_a_number :
  (ScheduleParameters_on_text int_ascii schedule_parameters "ticket_cost" "forty").1
    !! "ticket_cost"%string = Some (VInt 0)
  ∧ (ScheduleParameters_on_text int_ascii schedule_parameters "ticket_cost" "forty").2
    = Ok (VInt 0).
Proof. vm_compute. done. Qed.
(** ** [improve_results]: scanning *)

Lemma for_in_split {A S} (I : list A → S → Prop) (l : list A)
    (body : A → S → outcome S) s :
  I [] s →
  (∀ p x q s, l = p ++ x :: q → I p s →
     ∃ s', body x s = Ok s' ∧ I (p ++ [x]) s') →
  ∃ s', for_in l body s = Ok s' ∧ I l s'.
Proof.
  intros Hs Hb.
  enough (∀ q p s, l = p ++ q → I p s → ∃ s', for_in q body s = Ok s' ∧ I l s')
    as H by (by apply (H l [] s)).
  clear s Hs. induction q as [|x q IH]; intros p s Hl Hs; simpl.
  - rewrite app_nil_r in Hl. subst. eauto.
  - destruct (Hb p x q s Hl Hs) as (s' & -> & Hs'). simpl.
    apply (IH (p ++ [x])); [|done]. by rewrite <-(assoc_L (++)).
Qed.

Lemma scan_day_Ok g instructor c d :
  wf_ndarray g → c < shape0 g → d < shape1 g →
  ∃ timeslots free_ts,
    scan_day g instructor c d = Ok (timeslots, free_ts)
    ∧ timeslots ++ free_ts ⊆+ range (shape2 g)
    ∧ Forall (λ ts, cell g (c, d, ts) = None) free_ts.
Proof.
  intros Hwf Hc Hd. unfold scan_day.
  destruct (for_in_split
    (λ p (x : list nat * list nat), x.1 ++ x.2 ⊆+ p
       ∧ Forall (λ ts, cell g (c, d, ts) = None) x.2)
    (range (shape2 g))
    (λ ts '(timeslots, free_ts),
       x ← getitem g (c, d, ts);
       match x with
       | Some lesson =>
           if decide (lesson.(Lesson.instructor).(Instructor.id)
                      = instructor.(Instructor.id))
           then Ok (timeslots ++ [ts], free_ts)
           else Ok (timeslots, free_ts)
       | None => Ok (timeslots, free_ts ++ [ts])
       end) ([], [])) as ([ts fr] & H & Hsub & Hfree).
  - simpl. split; [done|constructor].
  - intros p x q [ts fr] Hl [Hsub Hfree]. simpl in *.
    assert (x ∈ range (shape2 g)) as Hx%elem_of_seq.
    { rewrite Hl. apply elem_of_app. right. left. }
    rewrite getitem_cell by (done || apply in_bounds_spec; lia). simpl.
    destruct (cell g (c, d, x)) as [lesson|] eqn:Hcell.
    + case_decide; eexists; (split; [done|]); simpl; (split; [|done]).
      * assert ((ts ++ [x]) ++ fr ≡ₚ (ts ++ fr) ++ [x]) as ->.
        { rewrite <-!(assoc_L (++)). f_equiv. apply Permutation_app_comm. }
        by apply submseteq_app.
      * by apply submseteq_inserts_r.
    + eexists; split; [done|]. simpl. split.
      * rewrite (assoc_L (++)). by apply submseteq_app.
      * apply Forall_app. split; [done|]. by constructor.
  - exists ts, fr. done.
Qed.

Lemma submseteq_NoDup {A} (k l : list A) : k ⊆+ l → NoDup l → NoDup k.
Proof.
  intros (k' & Hp)%submseteq_Permutation Hl. rewrite Hp in Hl.
  by apply NoDup_app in Hl as (? & _).
Qed.

Lemma submseteq_range_lt (k : list nat) n : k ⊆+ range n → Forall (λ x, x < n) k.
Proof.
  intros Hk. apply Forall_forall. intros x Hx.
  apply (elem_of_submseteq _ _ _ Hx) in Hk. apply elem_of_seq in Hk. lia.
Qed.

Lemma scan_days_Ok g instructor c :
  wf_ndarray g → c < shape0 g →
  ∃ tr, for_in (range (shape1 g)) (scan_append g instructor c) [] = Ok tr
        ∧ trainings_ok g c tr.
Proof.
  intros Hwf Hc.
  destruct (for_in_split
    (λ p tr, Forall (item_ok g c) tr ∧ item0 <$> tr ⊆+ p)
    (range (shape1 g)) (scan_append g instructor c) []) as (tr & H & Hok & Hsub).
  - split; [constructor|done].
  - intros p d q tr Hl [Hok Hsub].
    assert (d ∈ range (shape1 g)) as Hd%elem_of_seq.
    { rewrite Hl. apply elem_of_app. right. left. }
    unfold scan_append.
    destruct (scan_day_Ok g instructor c d) as (ts & fr & -> & Hts & Hfree);
      [done|done|lia|]. simpl.
    eexists; split; [done|]. case_bool_decide.
    + split.
      * apply Forall_app. split; [done|]. constructor; [|constructor].
        split; simpl; [lia| | |done].
        -- eapply submseteq_NoDup; [done|apply NoDup_seq].
        -- by apply submseteq_range_lt.
      * rewrite fmap_app. simpl. by apply submseteq_app.
    + split; [done|]. by apply submseteq_inserts_r.
  - exists tr. split; [done|]. split; [done|].
    eapply submseteq_NoDup; [done|apply NoDup_seq].
Qed.

(** ** [improve_results]: sorting *)

Lemma insert_by_Permutation k p l : insert_by k p l ≡ₚ p :: l.
Proof.
  induction l as [|q l IH]; simpl; [done|]. case_decide; [done|].
  rewrite IH. apply perm_swap.
Qed.

Lemma sorted_Permutation tr : sorted tr ≡ₚ seq 0 (length tr).
Proof.
  unfold sorted. induction (seq 0 (length tr)) as [|p l IH]; simpl; [done|].
  by rewrite insert_by_Permutation, IH.
Qed.

(** ** [improve_results]: moving the lessons of a day *)

Lemma seq_split_length n (p q : list nat) x :
  seq 0 n = p ++ x :: q → x = length p ∧ length p < n.
Proof.
  intros H. assert (seq 0 n !! length p = Some x) as Hx.
  { rewrite H. by rewrite lookup_app_r, Nat.sub_diag. }
  apply lookup_seq in Hx. lia.
Qed.

Lemma list_get_Ok {A} (l : list A) k x : l !! k = Some x → list_get l k = Ok x.
Proof. unfold list_get. by intros ->. Qed.

Lemma in_bounds_shape a b i :
  a.(shape) = b.(shape) → in_bounds a i = in_bounds b i.
Proof. intros H. unfold in_bounds, shape0, shape1, shape2. by rewrite H. Qed.

Lemma trainings_ok_days g c tr p q r r' :
  trainings_ok g c tr → tr !! p = Some r → tr !! q = Some r' → p ≠ q →
  r.(item0) ≠ r'.(item0).
Proof.
  intros [_ Hnd] Hp Hq Hne Heq. apply Hne.
  apply (NoDup_lookup _ _ _ (item0 r) Hnd).
  - by rewrite list_lookup_fmap, Hp.
  - by rewrite list_lookup_fmap, Hq, Heq.
Qed.

Lemma trainings_ok_item g c tr p r :
  trainings_ok g c tr → tr !! p = Some r → item_ok g c r.
Proof. intros [Hok _] Hp. by eapply Forall_lookup_1. Qed.

Lemma move_lesson_step g0 c n s src dst r_src r_dst k st :
  repack_inv g0 c n s → c < shape0 g0 →
  s.(trainings) !! src = Some r_src → s.(trainings) !! dst = Some r_dst →
  src ≠ dst →
  k < length r_src.(item1) → length r_src.(item1) ≤ length r_dst.(item2) →
  drain_inv g0 c n s src dst r_src r_dst k st →
  ∃ st', move_lesson c src dst k st = Ok st'
         ∧ drain_inv g0 c n s src dst r_src r_dst (S k) st'.
Proof.
  intros Hinv Hc Hsrc Hdst Hne Hk Hlen
    [Hwf Hsh Hperm Hptr Hl Hs Hd Hoth Htaken Hdays Hvac Hfree
     Hch Hmoved Hsrest Hdrest].
  destruct st as [s1 taken]. simpl in *.
  pose proof (trainings_ok_item _ _ _ _ _ (repack_records _ _ _ _ Hinv) Hsrc)
    as [Hds Hnds Hslots _].
  pose proof (trainings_ok_item _ _ _ _ _ (repack_records _ _ _ _ Hinv) Hdst)
    as [Hdd Hndd Hslotd _].
  pose proof (trainings_ok_days _ _ _ _ _ _ _ (repack_records _ _ _ _ Hinv)
    Hsrc Hdst Hne) as Hday.
  pose proof (repack_shape _ _ _ _ Hinv) as Hsh0.
  destruct (lookup_lt_is_Some_2 r_src.(item1) k Hk) as [from Hfrom].
  destruct (lookup_lt_is_Some_2 r_dst.(item2) k) as [to Hto]; [lia|].
  assert (shape0 s1.(grid) = shape0 g0 ∧ shape1 s1.(grid) = shape1 g0
          ∧ shape2 s1.(grid) = shape2 g0) as (Hs0 & Hs1 & Hs2).
  { unfold shape0, shape1, shape2. by rewrite Hsh. }
  assert (shape1 s.(grid) = shape1 g0 ∧ shape2 s.(grid) = shape2 g0)
    as (Hg1 & Hg2).
  { unfold shape1, shape2. by rewrite Hsh0. }
  assert (from < shape2 g0) as Hfrom_lt.
  { rewrite <-Hg2. apply (proj1 (Forall_forall _ _) Hslots).
    apply elem_of_app. left. by eapply list_elem_of_lookup_2. }
  assert (to < shape2 g0) as Hto_lt.
  { rewrite <-Hg2. apply (proj1 (Forall_forall _ _) Hslotd).
    apply elem_of_app. right. by eapply list_elem_of_lookup_2. }
  assert (in_bounds s1.(grid) (c, r_src.(item0), from) = true) as Hbs.
  { apply in_bounds_spec. lia. }
  assert (in_bounds s1.(grid) (c, r_dst.(item0), to) = true) as Hbd.
  { apply in_bounds_spec. lia. }
  assert (cell s1.(grid) (c, r_dst.(item0), to) = None) as Hnone.
  { apply Hfree. apply list_elem_of_lookup. exists 0.
    by rewrite lookup_drop, Nat.add_0_r. }
  destruct (relocate_Ok s1.(grid) (c, r_src.(item0), from) (c, r_dst.(item0), to))
    as (a1 & a2 & H1 & H2 & Hwf2 & Hsh2 & Hcell & Hperm2); try done.
  { intros [=]. done. }
  unfold move_lesson.
  rewrite (list_get_Ok _ _ _ Hs), (list_get_Ok _ _ _ Hd). simpl.
  rewrite (list_get_Ok _ _ _ Hfrom), (list_get_Ok _ _ _ Hto). simpl.
  rewrite getitem_cell by done. simpl. rewrite H1. simpl. rewrite H2. simpl.
  eexists; split; [done|]. split; simpl.
  - done.
  - congruence.
  - by rewrite Hperm2.
  - done.
  - by rewrite !length_alter.
  - rewrite list_lookup_alter_eq, list_lookup_alter_ne, Hs by done. simpl.
    unfold push2. simpl. by rewrite (take_S_r _ _ _ Hfrom), (assoc_L (++)).
  - rewrite list_lookup_alter_ne, list_lookup_alter_eq, Hd by done. simpl.
    unfold push1. simpl. by rewrite (take_S_r _ _ _ Hto), (assoc_L (++)).
  - intros p ??. rewrite !list_lookup_alter_ne by done. by apply Hoth.
  - by rewrite Htaken, (take_S_r _ _ _ Hto).
  - intros d ts ??. rewrite Hcell.
    rewrite !decide_False by (intros [=]; done). by apply Hdays.
  - intros ts Hts. rewrite Hcell. case_decide; [done|].
    rewrite decide_False by (intros [=]; done). apply Hvac.
    rewrite (take_S_r _ _ _ Hfrom), (assoc_L (++)) in Hts.
    apply elem_of_app in Hts as [Hts|Hts%list_elem_of_singleton]; [done|].
    by subst.
  - intros ts Hts. rewrite Hcell.
    rewrite decide_False by (intros [=]; done).
    rewrite decide_False.
    + apply Hfree. rewrite (drop_S _ _ _ Hto). by right.
    + intros [= ->]. apply NoDup_app in Hndd as (_ & _ & Hnd).
      rewrite <-(take_drop k r_dst.(item2)), (drop_S _ _ _ Hto) in Hnd.
      apply NoDup_app in Hnd as (_ & _ & Hnd). by apply NoDup_cons in Hnd as [? _].
  - done.
  - intros j from' to' Hj Hfrom' Hto'. rewrite Hcell.
    rewrite decide_False by (intros [=]; done).
    destruct (decide (j = k)) as [->|Hjk].
    + simplify_eq. rewrite decide_True by done. apply Hsrest.
      intros (j' & Hj' & Hlt)%elem_of_take.
      apply NoDup_app in Hnds as (Hnd & _).
      pose proof (NoDup_lookup _ _ _ _ Hnd Hj' Hfrom). lia.
    + rewrite decide_False.
      * apply Hmoved with j; [lia|done..].
      * intros [= ->]. apply NoDup_app in Hndd as (_ & _ & Hnd).
        pose proof (NoDup_lookup _ _ _ _ Hnd Hto' Hto). lia.
  - intros ts Hts. rewrite Hcell.
    rewrite (take_S_r _ _ _ Hfrom) in Hts.
    rewrite decide_False.
    + rewrite decide_False by (intros [=]; done). apply Hsrest.
      intros ?. apply Hts, elem_of_app. by left.
    + intros [= ->]. apply Hts, elem_of_app. right. by left.
  - intros ts Hts. rewrite Hcell.
    rewrite (take_S_r _ _ _ Hto) in Hts.
    rewrite decide_False by (intros [=]; done).
    rewrite decide_False.
    + apply Hdrest. intros ?. apply Hts, elem_of_app. by left.
    + intros [= ->]. apply Hts, elem_of_app. right. by left.
Qed.

Lemma forget_taken_head dst x F tr r :
  tr !! dst = Some r → r.(item2) = x :: F →
  forget_taken dst x tr = Ok (<[dst := set2 F r]> tr).
Proof.
  intros Hr HF. unfold forget_taken. rewrite (list_get_Ok _ _ _ Hr). simpl.
  rewrite HF. simpl. by rewrite decide_True.
Qed.

Lemma forget_taken_loop dst m :
  ∀ (F : list nat) (tr : list item) (r : item),
    tr !! dst = Some r → r.(item2) = F → m ≤ length F →
    for_in (take m F) (forget_taken dst) tr
    = Ok (<[dst := set2 (drop m F) r]> tr).
Proof.
  induction m as [|m IH]; intros F tr r Hr HF Hm.
  - simpl. rewrite drop_0, <-HF. destruct r; simpl.
    by rewrite list_insert_id.
  - destruct F as [|x F]; [simpl in Hm; lia|].
    change (take (S m) (x :: F)) with (x :: take m F). cbn [for_in].
    rewrite (forget_taken_head _ _ _ _ _ Hr HF).
    cbn [mbind outcome_mbind outcome_bind drop].
    rewrite (IH F _ (set2 F r)); [| |done|simpl in Hm; lia].
    + by rewrite list_insert_insert_eq.
    + apply list_lookup_insert_eq. by eapply lookup_lt_Some.
Qed.

Lemma drain_inv_init g0 c n s src dst r_src r_dst :
  repack_inv g0 c n s →
  s.(trainings) !! src = Some r_src → s.(trainings) !! dst = Some r_dst →
  drain_inv g0 c n s src dst r_src r_dst 0 (s, []).
Proof.
  intros [Hwf Hsh Hperm Hrec Hlen Hptr] Hsrc Hdst.
  pose proof (trainings_ok_item _ _ _ _ _ Hrec Hsrc) as [_ _ _ Hfs].
  pose proof (trainings_ok_item _ _ _ _ _ Hrec Hdst) as [_ _ _ Hfd].
  split; simpl; try done.
  - rewrite app_nil_r. by destruct r_src.
  - rewrite app_nil_r. by destruct r_dst.
  - intros ts Hts. rewrite app_nil_r in Hts.
    by apply (proj1 (Forall_forall _ _) Hfs).
  - intros ts Hts. by apply (proj1 (Forall_forall _ _) Hfd).
  - intros j from to Hj. lia.
Qed.

Lemma drain_Ok g0 c n s src dst r_src r_dst :
  repack_inv g0 c n s → c < shape0 g0 →
  s.(trainings) !! src = Some r_src → s.(trainings) !! dst = Some r_dst →
  src ≠ dst → length r_src.(item1) ≤ length r_dst.(item2) →
  ∃ s', drain c src dst s = Ok s' ∧ repack_inv g0 c n s'
        ∧ drained c s src dst r_src r_dst s'.
Proof.
  intros Hinv Hc Hsrc Hdst Hne Hlen. unfold drain.
  rewrite (list_get_Ok _ _ _ Hsrc). simpl.
  destruct (for_in_split
    (λ p st, drain_inv g0 c n s src dst r_src r_dst (length p) st)
    (range (length r_src.(item1))) (move_lesson c src dst) (s, []))
    as ([s1 taken] & -> & Hmid).
  { by apply drain_inv_init. }
  { intros p x q st Hl Hst. apply seq_split_length in Hl as [-> Hlt].
    rewrite length_app. simpl. rewrite Nat.add_1_r.
    by eapply move_lesson_step. }
  unfold range in Hmid. rewrite length_seq in Hmid.
  destruct Hmid as [Hwf Hsh Hperm Hptr Hl Hs Hd Hoth Htaken Hdays Hvac Hfree
                      Hch Hmoved Hsrest Hdrest].
  simpl in *. rewrite firstn_all in Hs, Hvac, Hsrest.
  rewrite Htaken, (forget_taken_loop dst _ _ _ _ Hd); [|done|done]. simpl.
  set (m := length r_src.(item1)) in *.
  set (tr2 := <[dst := _]> (trainings s1)).
  pose proof (repack_records _ _ _ _ Hinv) as Hrec.
  pose proof (trainings_ok_item _ _ _ _ _ Hrec Hsrc) as [Hds Hnds Hslots _].
  pose proof (trainings_ok_item _ _ _ _ _ Hrec Hdst) as [Hdd Hndd Hslotd _].
  pose proof (repack_shape _ _ _ _ Hinv) as Hsh0.
  assert (shape1 s1.(grid) = shape1 s.(grid)
          ∧ shape2 s1.(grid) = shape2 s.(grid)) as (Hs1 & Hs2).
  { unfold shape1, shape2. by rewrite Hsh, Hsh0. }
  assert (dst < length (trainings s1)) as Hdlt by (by eapply lookup_lt_Some).
  assert (alter (set1 []) src tr2 !! src
          = Some (mk_item r_src.(item0) [] (r_src.(item2) ++ r_src.(item1))))
    as Hfs.
  { rewrite list_lookup_alter_eq. unfold tr2.
    rewrite list_lookup_insert_ne, Hs by done. done. }
  assert (alter (set1 []) src tr2 !! dst
          = Some (mk_item r_dst.(item0) (r_dst.(item1) ++ take m r_dst.(item2))
                    (drop m r_dst.(item2)))) as Hfd.
  { rewrite list_lookup_alter_ne by done. unfold tr2.
    by rewrite list_lookup_insert_eq. }
  assert (∀ p, p ≠ src → p ≠ dst →
            alter (set1 []) src tr2 !! p = s.(trainings) !! p) as Hfo.
  { intros p ??. rewrite list_lookup_alter_ne by done. unfold tr2.
    rewrite list_lookup_insert_ne by done. by apply Hoth. }
  eexists; split; [done|]. split.
  2: { split; simpl; try done.
       - rewrite Hch. by destruct (item1 r_src).
       - intros ts Hts. apply Hvac, elem_of_app. by right.
       - intros j from to Hfrom Hto. apply Hmoved with j; [|done..].
         by eapply lookup_lt_Some. }
  split; simpl; try done.
  2: { unfold tr2. by rewrite length_alter, length_insert. }
  2: { by rewrite Hptr, (repack_pointers _ _ _ _ Hinv). }
  split.
  - apply Forall_lookup. intros p r Hp.
    destruct (decide (p = src)) as [->|Hps];
      [|destruct (decide (p = dst)) as [->|Hpd]].
    + rewrite Hfs in Hp. injection Hp as <-. split; simpl.
      * by rewrite Hs1.
      * by rewrite Permutation_app_comm in Hnds.
      * rewrite Hs2. by rewrite Permutation_app_comm in Hslots.
      * by apply Forall_forall.
    + rewrite Hfd in Hp. injection Hp as <-. split; simpl.
      * by rewrite Hs1.
      * by rewrite <-(assoc_L (++)), take_drop.
      * rewrite Hs2. by rewrite <-(assoc_L (++)), take_drop.
      * by apply Forall_forall.
    + rewrite Hfo in Hp by done.
      pose proof (trainings_ok_item _ _ _ _ _ Hrec Hp) as [H1 H2 H3 H4].
      split; rewrite ?Hs1, ?Hs2; try done.
      apply Forall_forall. intros ts Hts. rewrite Hdays.
      * by apply (proj1 (Forall_forall _ _) H4).
      * by apply (trainings_ok_days _ _ _ _ _ _ _ Hrec Hp Hsrc).
      * by apply (trainings_ok_days _ _ _ _ _ _ _ Hrec Hp Hdst).
  - assert (item0 <$> alter (set1 []) src tr2 = item0 <$> s.(trainings)) as ->;
      [|apply Hrec].
    apply list_eq. intros p. rewrite !list_lookup_fmap.
    destruct (decide (p = src)) as [->|Hps];
      [|destruct (decide (p = dst)) as [->|Hpd]].
    + by rewrite Hfs, Hsrc.
    + by rewrite Hfd, Hdst.
    + by rewrite Hfo.
Qed.

(** ** [improve_results]: what the records say *)

Lemma taught_in_bounds X g i : taught X (cell g i) = true → in_bounds g i = true.
Proof. unfold cell. by destruct (in_bounds g i). Qed.

Lemma present_spec g c X d :
  present g c X d = true ↔ ∃ ts, taught X (cell g (c, d, ts)) = true.
Proof.
  unfold present. rewrite bool_decide_eq_true, Exists_exists. split.
  - intros (ts & _ & H). eauto.
  - intros (ts & H). exists ts. split; [|done].
    apply taught_in_bounds, in_bounds_spec in H. apply elem_of_seq. lia.
Qed.

Lemma scan_day_taught g instructor c d timeslots free_ts :
  wf_ndarray g → c < shape0 g → d < shape1 g →
  scan_day g instructor c d = Ok (timeslots, free_ts) →
  ∀ ts, ts ∈ timeslots
        ↔ taught instructor.(Instructor.id) (cell g (c, d, ts)) = true.
Proof.
  intros Hwf Hc Hd. unfold scan_day.
  destruct (for_in_split
    (λ p (x : list nat * list nat),
       ∀ ts, ts ∈ x.1
             ↔ ts ∈ p ∧ taught instructor.(Instructor.id) (cell g (c, d, ts))
                        = true)
    (range (shape2 g))
    (λ ts '(timeslots, free_ts),
       x ← getitem g (c, d, ts);
       match x with
       | Some lesson =>
           if decide (lesson.(Lesson.instructor).(Instructor.id)
                      = instructor.(Instructor.id))
           then Ok (timeslots ++ [ts], free_ts)
           else Ok (timeslots, free_ts)
       | None => Ok (timeslots, free_ts ++ [ts])
       end) ([], [])) as ([ts' fr'] & -> & Hacc).
  - simpl. intros ts. split; [by intros ?%elem_of_nil|by intros [?%elem_of_nil _]].
  - intros p x q [ts fr] Hl Hacc. simpl in *.
    assert (x ∈ range (shape2 g)) as Hx%elem_of_seq.
    { rewrite Hl. apply elem_of_app. right. left. }
    rewrite getitem_cell by (done || apply in_bounds_spec; lia). simpl.
    destruct (cell g (c, d, x)) as [lesson|] eqn:Hcell.
    + case_decide as Hid; eexists; (split; [done|]); simpl; intros y;
        rewrite ?elem_of_app, ?list_elem_of_singleton, Hacc.
      * assert (taught (Instructor.id instructor) (cell g (c, d, x)) = true)
          as Htx by (rewrite Hcell; simpl; by apply bool_decide_eq_true).
        intuition (subst; done).
      * assert (taught (Instructor.id instructor) (cell g (c, d, x)) ≠ true)
          as Htx by (rewrite Hcell; simpl; by rewrite bool_decide_eq_true).
        intuition (subst; done).
    + eexists; split; [done|]. simpl. intros y.
      rewrite elem_of_app, list_elem_of_singleton, Hacc.
      assert (taught (Instructor.id instructor) (cell g (c, d, x)) ≠ true)
        as Htx by (by rewrite Hcell).
      intuition (subst; done).
  - intros [= <- <-] ts. simpl in Hacc. rewrite Hacc. split; [by intros [_ ?]|].
    intros Ht. split; [|done].
    apply taught_in_bounds, in_bounds_spec in Ht. apply elem_of_seq. lia.
Qed.

Lemma scan_days_accurate g instructor c tr :
  wf_ndarray g → c < shape0 g →
  for_in (range (shape1 g)) (scan_append g instructor c) [] = Ok tr →
  accurate instructor.(Instructor.id) c g tr.
Proof.
  intros Hwf Hc. set (X := Instructor.id instructor).
  destruct (for_in_split
    (λ p tr,
       Forall (λ r, ∀ ts, ts ∈ r.(item1)
                          ↔ taught X (cell g (c, r.(item0), ts)) = true) tr
       ∧ ∀ d, d ∈ p → present g c X d = true → d ∈ item0 <$> tr)
    (range (shape1 g)) (scan_append g instructor c) [])
    as (tr' & -> & Hslots & Hdays).
  - split; [constructor|]. by intros d ?%elem_of_nil.
  - intros p d q tr0 Hl [Hslots Hdays].
    assert (d ∈ range (shape1 g)) as Hd%elem_of_seq.
    { rewrite Hl. apply elem_of_app. right. left. }
    unfold scan_append.
    destruct (scan_day_Ok g instructor c d) as (ts & fr & Hscan & _);
      [done|done|lia|].
    pose proof (scan_day_taught g instructor c d ts fr Hwf Hc
                  ltac:(lia) Hscan) as Hts.
    rewrite Hscan. simpl. eexists; split; [done|]. case_bool_decide as Hlen.
    + split.
      * apply Forall_app. split; [done|]. by constructor.
      * intros d' Hd' Hp. rewrite fmap_app. apply elem_of_app.
        apply elem_of_app in Hd' as [Hd'|Hd'%list_elem_of_singleton].
        -- left. by apply Hdays.
        -- right. subst. by left.
    + split; [done|]. intros d' Hd' Hp.
      apply elem_of_app in Hd' as [Hd'|Hd'%list_elem_of_singleton];
        [by apply Hdays|]. subst d'.
      apply present_spec in Hp as (y & Hy). apply Hts in Hy.
      destruct ts; [by apply elem_of_nil in Hy|simpl in Hlen; lia].
  - intros [= <-]. split.
    + intros p r ts Hr. by apply (proj1 (Forall_lookup _ _) Hslots p r).
    + intros d Hp. apply Hdays; [|done].
      apply present_spec in Hp as (y & Hy).
      apply taught_in_bounds, in_bounds_spec in Hy. apply elem_of_seq. lia.
Qed.

(** ** [improve_results]: the order of [trainings2] *)

Lemma insert_by_ordered (k : nat → nat) p l :
  StronglySorted (λ a b, k a ≤ k b) l →
  StronglySorted (λ a b, k a ≤ k b) (insert_by k p l).
Proof.
  induction 1 as [|q l Hl IH Hq]; simpl.
  - repeat constructor.
  - case_decide as Hpq.
    + constructor; [by constructor|]. constructor; [done|].
      eapply Forall_impl; [done|]. simpl. lia.
    + constructor; [done|].
      rewrite insert_by_Permutation. constructor; [lia|done].
Qed.

Lemma sorted_ordered tr : ordered tr (sorted tr).
Proof.
  assert (StronglySorted (λ a b, key tr a ≤ key tr b) (sorted tr)) as Hs.
  { unfold sorted. induction (seq 0 (length tr)) as [|p l IH]; simpl.
    - constructor.
    - by apply insert_by_ordered. }
  intros i j pi pj Hij Hi Hj. revert i j Hij Hi Hj.
  induction Hs as [|q l Hl IH Hq]; intros i j Hij Hi Hj; [done|].
  destruct i as [|i], j as [|j]; try lia; simpl in *.
  - simplify_eq. apply (proj1 (Forall_forall _ _) Hq).
    by eapply list_elem_of_lookup_2.
  - apply (IH i j); [lia|done..].
Qed.

(** ** [improve_results]: the days of presence go down *)

Lemma present_ext g g' c X d :
  shape2 g' = shape2 g →
  (∀ ts, taught X (cell g' (c, d, ts)) = taught X (cell g (c, d, ts))) →
  present g' c X d = present g c X d.
Proof.
  intros Hsh Hcells. apply eq_true_iff_eq. rewrite !present_spec.
  by setoid_rewrite Hcells.
Qed.

Lemma days_present_le g g' c X :
  shape1 g' = shape1 g →
  (∀ d, present g' c X d = true → present g c X d = true) →
  days_present g' c X ≤ days_present g c X.
Proof.
  intros Hsh Himp. unfold days_present. rewrite Hsh.
  induction (range (shape1 g)) as [|d l IH]; [done|].
  rewrite !filter_cons. specialize (Himp d).
  repeat case_decide; simpl; try lia. tauto.
Qed.

Lemma days_present_lt g g' c X d0 :
  shape1 g' = shape1 g → d0 < shape1 g →
  (∀ d, present g' c X d = true → present g c X d = true) →
  present g c X d0 = true → present g' c X d0 = false →
  days_present g' c X < days_present g c X.
Proof.
  intros Hsh Hd0 Himp Hin Hout. unfold days_present. rewrite Hsh.
  assert (d0 ∈ range (shape1 g)) as Hel by (apply elem_of_seq; lia).
  induction (range (shape1 g)) as [|d l IH]; [by apply elem_of_nil in Hel|].
  rewrite !filter_cons. apply elem_of_cons in Hel as [<-|Hel].
  - rewrite decide_False by congruence. rewrite decide_True by done. simpl.
    assert (length (filter (λ d, present g' c X d = true) l)
            ≤ length (filter (λ d, present g c X d = true) l)); [|lia].
    clear IH. induction l as [|d l IH]; [done|].
    rewrite !filter_cons. specialize (Himp d).
    repeat case_decide; simpl; try lia. tauto.
  - specialize (IH Hel). specialize (Himp d).
    repeat case_decide; simpl; try lia. tauto.
Qed.

Lemma presence_le instructors g g' :
  (∀ Y, days_present g' 0 Y ≤ days_present g 0 Y) →
  presence instructors g' ≤ presence instructors g.
Proof.
  intros Hle. unfold presence.
  induction instructors as [|i l IH]; simpl; [done|]. specialize (Hle (Instructor.id i)). lia.
Qed.

Lemma presence_lt instructors instructor g g' :
  instructor ∈ instructors →
  (∀ Y, days_present g' 0 Y ≤ days_present g 0 Y) →
  days_present g' 0 instructor.(Instructor.id)
  < days_present g 0 instructor.(Instructor.id) →
  presence instructors g' < presence instructors g.
Proof.
  intros Hin Hle Hlt. unfold presence.
  induction instructors as [|i l IH]; [by apply elem_of_nil in Hin|]. simpl.
  pose proof (presence_le l g g' Hle) as Hl. unfold presence in Hl.
  apply elem_of_cons in Hin as [<-|Hin]; [lia|].
  specialize (IH Hin). specialize (Hle (Instructor.id i)). lia.
Qed.

Lemma taught_other X Y o :
  taught X o = true → taught Y o = bool_decide (Y = X).
Proof.
  destruct o as [l|]; simpl; [|done]. intros ->%bool_decide_eq_true.
  apply bool_decide_ext. split; congruence.
Qed.

Lemma drain_measure X c g0 n s src dst r_src r_dst s' :
  repack_inv g0 c n s → repack_inv g0 c n s' →
  accurate X c s.(grid) s.(trainings) →
  s.(trainings) !! src = Some r_src → s.(trainings) !! dst = Some r_dst →
  src ≠ dst → length r_src.(item1) ≤ length r_dst.(item2) →
  (r_src.(item1) ≠ [] → r_dst.(item1) ≠ []) →
  drained c s src dst r_src r_dst s' →
  accurate X c s'.(grid) s'.(trainings)
  ∧ (∀ Y, days_present s'.(grid) c Y ≤ days_present s.(grid) c Y)
  ∧ (r_src.(item1) ≠ [] →
     days_present s'.(grid) c X < days_present s.(grid) c X)
  ∧ (r_src.(item1) = [] →
     ∀ p, key s'.(trainings) p = key s.(trainings) p).
Proof.
  intros Hinv Hinv' [Hslots Hdays] Hsrc Hdst Hne Hlen Hfull
    [Hptr Hch Hs Hd Hoth Hodays Hvac Hsrest Hmoved Hdrest].
  pose proof (repack_records _ _ _ _ Hinv) as Hrec.
  pose proof (trainings_ok_item _ _ _ _ _ Hrec Hsrc) as [Hds Hnds _ _].
  pose proof (trainings_ok_item _ _ _ _ _ Hrec Hdst) as [Hdd Hndd _ Hfd].
  pose proof (trainings_ok_days _ _ _ _ _ _ _ Hrec Hsrc Hdst Hne) as Hday.
  assert (shape s'.(grid) = shape s.(grid)) as Hsh
    by (by rewrite (repack_shape _ _ _ _ Hinv), (repack_shape _ _ _ _ Hinv')).
  assert (shape1 s'.(grid) = shape1 s.(grid)
          ∧ shape2 s'.(grid) = shape2 s.(grid)) as [Hsh1 Hsh2]
    by (unfold shape1, shape2; by rewrite Hsh).
  set (m := length r_src.(item1)) in *.
  (* the cells of the two days, seen by any instructor *)
  assert (∀ Y ts, taught Y (cell s'.(grid) (c, r_src.(item0), ts))
                  = if decide (ts ∈ r_src.(item1)) then false
                    else taught Y (cell s.(grid) (c, r_src.(item0), ts)))
    as Hts.
  { intros Y ts. case_decide; [by rewrite Hvac|by rewrite Hsrest]. }
  assert (∀ Y ts, taught Y (cell s'.(grid) (c, r_dst.(item0), ts))
                  = if decide (ts ∈ take m r_dst.(item2))
                    then bool_decide (Y = X)
                    else taught Y (cell s.(grid) (c, r_dst.(item0), ts)))
    as Htd.
  { intros Y ts. case_decide as Hin; [|by rewrite Hdrest].
    apply elem_of_take in Hin as (j & Hj & Hjm).
    destruct (lookup_lt_is_Some_2 r_src.(item1) j Hjm) as [from Hfrom].
    rewrite (Hmoved j from ts Hfrom Hj). apply taught_other.
    apply (Hslots src r_src from Hsrc). by eapply list_elem_of_lookup_2. }
  assert (∀ ts, ts ∈ r_dst.(item2) →
            ∀ Y, taught Y (cell s.(grid) (c, r_dst.(item0), ts)) = false)
    as Hfree.
  { intros ts Hin Y. by rewrite (proj1 (Forall_forall _ _) Hfd ts Hin). }
  assert (∀ Y d, d ≠ r_src.(item0) → d ≠ r_dst.(item0) →
            present s'.(grid) c Y d = present s.(grid) c Y d) as Hpo.
  { intros Y d ??. apply present_ext; [done|]. intros ts. by rewrite Hodays. }
  assert (∀ Y, present s'.(grid) c Y r_src.(item0) = true →
               present s.(grid) c Y r_src.(item0) = true) as Hps.
  { intros Y (ts & Ht)%present_spec. apply present_spec. exists ts.
    rewrite Hts in Ht. by case_decide. }
  assert (∀ Y, present s'.(grid) c Y r_dst.(item0) = true →
               present s.(grid) c Y r_dst.(item0) = true) as Hpd.
  { intros Y (ts & Ht)%present_spec. apply present_spec.
    rewrite Htd in Ht. case_decide as Hin; [|by exists ts].
    apply bool_decide_eq_true in Ht as ->.
    assert (r_src.(item1) ≠ []) as Hnonempty.
    { intros Hnil. unfold m in Hin. rewrite Hnil in Hin. simpl in Hin.
      by apply elem_of_nil in Hin. }
    destruct r_dst.(item1) as [|ts' O_d] eqn:HOd; [by apply Hfull in Hnonempty|].
    exists ts'. apply (Hslots dst r_dst ts' Hdst). rewrite HOd. by left. }
  assert (∀ Y d, present s'.(grid) c Y d = true →
                 present s.(grid) c Y d = true) as Hmono.
  { intros Y d Hp.
    destruct (decide (d = r_src.(item0))) as [->|?]; [by apply Hps|].
    destruct (decide (d = r_dst.(item0))) as [->|?]; [by apply Hpd|].
    by rewrite <-Hpo. }
  split; [|split; [|split]].
  - assert (item0 <$> s'.(trainings) = item0 <$> s.(trainings)) as Hitems.
    { apply list_eq. intros p. rewrite !list_lookup_fmap.
      destruct (decide (p = src)) as [->|?];
        [|destruct (decide (p = dst)) as [->|?]].
      - by rewrite Hs, Hsrc.
      - by rewrite Hd, Hdst.
      - by rewrite Hoth. }
    split.
    + intros p r ts Hr.
      destruct (decide (p = src)) as [->|Hps'];
        [|destruct (decide (p = dst)) as [->|Hpd']].
      * rewrite Hs in Hr. injection Hr as <-. simpl. rewrite Hts.
        split; [by intros ?%elem_of_nil|]. case_decide as Hin; [done|].
        intros Ht. by apply (Hslots src r_src ts Hsrc) in Ht.
      * rewrite Hd in Hr. injection Hr as <-. simpl. rewrite Htd.
        rewrite elem_of_app. case_decide as Hin.
        -- split; [intros _; by apply bool_decide_eq_true|by right].
        -- rewrite <-(Hslots dst r_dst ts Hdst). tauto.
      * rewrite Hoth in Hr by done.
        rewrite (Hslots p r ts Hr), Hodays; [done|..].
        -- by apply (trainings_ok_days _ _ _ _ _ _ _ Hrec Hr Hsrc).
        -- by apply (trainings_ok_days _ _ _ _ _ _ _ Hrec Hr Hdst).
    + intros d Hp. rewrite Hitems. by apply Hdays, Hmono.
  - intros Y. apply days_present_le; [done|]. intros d. apply Hmono.
  - intros Hnonempty. apply (days_present_lt _ _ _ _ r_src.(item0));
      [done|done|intros d; apply Hmono| |].
    + apply present_spec. destruct r_src.(item1) as [|ts O] eqn:HO; [done|].
      exists ts. apply (Hslots src r_src ts Hsrc). rewrite HO. by left.
    + apply not_true_is_false. intros (ts & Ht)%present_spec.
      rewrite Hts in Ht. case_decide as Hin; [done|].
      by apply (Hslots src r_src ts Hsrc) in Ht.
  - intros Hnil p. unfold key.
    destruct (decide (p = src)) as [->|?];
      [|destruct (decide (p = dst)) as [->|?]].
    + rewrite Hs, Hsrc. simpl. by rewrite Hnil.
    + rewrite Hd, Hdst. simpl. unfold m. rewrite Hnil. simpl.
      by rewrite app_nil_r.
    + by rewrite Hoth.
Qed.

(** ** [improve_results]: the repacking loops *)

Lemma repack_inv_changed g0 c n s b :
  repack_inv g0 c n s →
  repack_inv g0 c n (mk_repack s.(grid) s.(trainings) s.(trainings2) b).
Proof. by intros []. Qed.

(** One pair of records: the step returns, keeps the lessons, and either
    changes nothing that the order of [trainings2] depends on, or takes the
    instructor off one day. *)
Lemma pair_step_Ok instructors instructor Φ g0 n s i j :
  repack_inv g0 0 n s → 0 < shape0 g0 → i < j → j < n →
  instructor ∈ instructors →
  progress instructors instructor.(Instructor.id) Φ s →
  ∃ s', pair_step 0 i j s = Ok s' ∧ repack_inv g0 0 n s'
        ∧ accurate instructor.(Instructor.id) 0 s'.(grid) s'.(trainings)
        ∧ presence instructors s'.(grid) ≤ Φ
        ∧ (if s'.(changed) then presence instructors s'.(grid) < Φ
           else ordered s'.(trainings) s'.(trainings2)).
Proof.
  intros Hinv Hc Hij Hj Hin [Hacc Hord Hle _].
  pose proof (repack_pointers _ _ _ _ Hinv) as Hptr.
  pose proof (repack_length _ _ _ _ Hinv) as Hlen.
  assert (length s.(trainings2) = n) as Hl2 by (by rewrite Hptr, length_seq).
  destruct (lookup_lt_is_Some_2 s.(trainings2) i) as [pi Hpi]; [lia|].
  destruct (lookup_lt_is_Some_2 s.(trainings2) j) as [pj Hpj]; [lia|].
  assert (pi ≠ pj) as Hne.
  { intros ->. assert (i = j); [|lia].
    eapply NoDup_lookup; [|exact Hpi|exact Hpj]. rewrite Hptr. apply NoDup_seq. }
  assert (pi < n ∧ pj < n) as [Hpin Hpjn].
  { apply list_elem_of_lookup_2 in Hpi, Hpj. rewrite Hptr in Hpi, Hpj.
    apply elem_of_seq in Hpi, Hpj. lia. }
  destruct (lookup_lt_is_Some_2 s.(trainings) pi) as [ri Hri]; [lia|].
  destruct (lookup_lt_is_Some_2 s.(trainings) pj) as [rj Hrj]; [lia|].
  assert (length ri.(item1) ≤ length rj.(item1)) as Hkey.
  { pose proof (Hord i j pi pj Hij Hpi Hpj) as Hk. unfold key in Hk.
    by rewrite Hri, Hrj in Hk. }
  unfold pair_step. simpl.
  rewrite (list_get_Ok _ _ _ Hpi), (list_get_Ok _ _ _ Hpj). simpl.
  rewrite (list_get_Ok _ _ _ Hri), (list_get_Ok _ _ _ Hrj). simpl.
  pose proof (repack_inv_changed _ _ _ _ false Hinv) as Hinv'.
  set (s0 := mk_repack s.(grid) s.(trainings) s.(trainings2) false) in *.
  assert (∀ src dst r_src r_dst,
            s.(trainings) !! src = Some r_src →
            s.(trainings) !! dst = Some r_dst → src ≠ dst →
            length r_src.(item1) ≤ length r_dst.(item2) →
            (r_src.(item1) ≠ [] → r_dst.(item1) ≠ []) →
            ∃ s', drain 0 src dst s0 = Ok s' ∧ repack_inv g0 0 n s'
              ∧ accurate instructor.(Instructor.id) 0 s'.(grid) s'.(trainings)
              ∧ presence instructors s'.(grid) ≤ Φ
              ∧ (if s'.(changed) then presence instructors s'.(grid) < Φ
                 else ordered s'.(trainings) s'.(trainings2))) as Hdrain.
  { intros src dst r_src r_dst Hsrc Hdst Hsd Hfit Hfull.
    destruct (drain_Ok g0 0 n s0 src dst r_src r_dst Hinv')
      as (s' & Hs' & Hinv1 & Hdr); [done..|].
    destruct (drain_measure instructor.(Instructor.id) 0 g0 n s0 src dst
                r_src r_dst s' Hinv' Hinv1)
      as (Hacc' & Hmono & Hlt & Hkeys); [done..|].
    exists s'. split; [done|]. split; [done|]. split; [done|].
    assert (presence instructors s'.(grid) ≤ presence instructors s.(grid))
      as Hle' by (by apply presence_le).
    split; [lia|].
    rewrite (drained_changed _ _ _ _ _ _ _ Hdr). simpl.
    destruct (item1 r_src) as [|ts O] eqn:HO.
    - intros a b pa pb Hab Ha Hb. rewrite !Hkeys by done.
      rewrite (drained_pointers _ _ _ _ _ _ _ Hdr) in Ha, Hb.
      by apply (Hord a b).
    - eapply Nat.lt_le_trans; [|exact Hle].
      apply presence_lt with instructor; [done|done|]. by apply Hlt. }
  repeat case_bool_decide.
  - apply (Hdrain pi pj ri rj); [done..|].
    intros Hnil Hnil'. rewrite Hnil' in Hkey. simpl in Hkey.
    destruct (item1 ri); [done|simpl in Hkey; lia].
  - apply (Hdrain pj pi rj ri); [done|done|done|lia|].
    intros _ Hnil. rewrite Hnil in *. simpl in *. lia.
  - exists s0. done.
Qed.

Lemma pair_loop_Ok instructors instructor Φ g0 n i js :
  ∀ s, repack_inv g0 0 n s → 0 < shape0 g0 →
    Forall (λ j, i < j ∧ j < n) js → instructor ∈ instructors →
    progress instructors instructor.(Instructor.id) Φ s →
    ∃ s', pair_loop 0 i js s = Ok s' ∧ repack_inv g0 0 n s'
          ∧ progress instructors instructor.(Instructor.id) Φ s'.
Proof.
  induction js as [|j js IH]; intros s Hinv Hc Hjs Hin Hpr; simpl; [eauto|].
  apply Forall_cons in Hjs as [[Hij Hj] Hjs].
  destruct (pair_step_Ok instructors instructor Φ g0 n s i j)
    as (s1 & -> & Hinv1 & Hacc1 & Hle1 & Hch1); try done. simpl.
  destruct (changed s1) eqn:Hch.
  - eexists; split; [done|]. destruct Hinv1 as [? ? ? ? Hlen1 ?].
    split; [split; simpl; try done; by rewrite sorted_Permutation, Hlen1|].
    split; simpl; [done|apply sorted_ordered|done|done].
  - apply IH; try done. split; [done|done|done|]. by rewrite Hch.
Qed.

Lemma repack_from_Ok instructors instructor Φ g0 n i s :
  repack_inv g0 0 n s → 0 < shape0 g0 → instructor ∈ instructors →
  progress instructors instructor.(Instructor.id) Φ s →
  ∃ s', repack_from 0 i s = Ok s' ∧ repack_inv g0 0 n s'
        ∧ progress instructors instructor.(Instructor.id) Φ s'.
Proof.
  intros Hinv Hc Hin Hpr. unfold repack_from.
  apply pair_loop_Ok; [done|done| |done|done].
  assert (length s.(trainings2) = n) as ->
    by (by rewrite (repack_pointers _ _ _ _ Hinv), length_seq).
  apply Forall_forall. intros j Hj%elem_of_seq. lia.
Qed.

(** What a pass keeps true of the grid [g] and the flag [changed], for a
    bound [Φ] on the days of presence. *)
Lemma improve_classroom_Ok instructors instructor Φ g ch :
  wf_ndarray g → 0 < shape0 g → instructor ∈ instructors →
  presence instructors g ≤ Φ → (ch = true → presence instructors g < Φ) →
  ∃ g' tr' ch',
    improve_classroom instructor 0 (g, [], ch) = Ok (g', tr', ch')
    ∧ wf_ndarray g' ∧ g'.(shape) = g.(shape) ∧ lessons g' ≡ₚ lessons g
    ∧ presence instructors g' ≤ Φ
    ∧ (ch' = true → presence instructors g' < Φ).
Proof.
  intros Hwf Hc Hin Hle Hlt. unfold improve_classroom.
  destruct (scan_days_Ok g instructor 0 Hwf Hc) as (tr & Htr & Hok).
  pose proof (scan_days_accurate g instructor 0 tr Hwf Hc Htr) as Hacc.
  rewrite Htr. simpl.
  destruct (for_in_invariant
              (λ s, repack_inv g 0 (length tr) s
                    ∧ progress instructors instructor.(Instructor.id) Φ s)
              (range (length (sorted tr) - 1)) (repack_from 0)
              (mk_repack g tr (sorted tr) ch)) as (s' & -> & Hinv & Hpr).
  - split; [split; simpl; try done; apply sorted_Permutation|].
    split; simpl; [done|apply sorted_ordered|done|done].
  - intros i s _ [Hs Hpr]. by apply repack_from_Ok.
  - simpl. destruct Hinv, Hpr. eauto 10.
Qed.

Lemma improve_instructor_Ok instructors instructor Φ g ch :
  wf_ndarray g → shape0 g = 1 → instructor ∈ instructors →
  presence instructors g ≤ Φ → (ch = true → presence instructors g < Φ) →
  ∃ g' ch',
    improve_instructor instructor (g, ch) = Ok (g', ch')
    ∧ wf_ndarray g' ∧ g'.(shape) = g.(shape) ∧ lessons g' ≡ₚ lessons g
    ∧ presence instructors g' ≤ Φ
    ∧ (ch' = true → presence instructors g' < Φ).
Proof.
  intros Hwf Hone Hin Hle Hlt. unfold improve_instructor, range. rewrite Hone.
  cbn [seq for_in].
  destruct (improve_classroom_Ok instructors instructor Φ g ch Hwf)
    as (g' & tr' & ch' & -> & ?); [lia|done..|]. simpl. eauto.
Qed.

(** One turn of [while changed]: the days of presence do not go up, and they
    go down when the turn ends with [changed] set. *)
Lemma improve_pass_Ok instructors g :
  wf_ndarray g → shape0 g = 1 →
  ∃ g' ch',
    improve_pass instructors g = Ok (g', ch')
    ∧ wf_ndarray g' ∧ g'.(shape) = g.(shape) ∧ lessons g' ≡ₚ lessons g
    ∧ presence instructors g' ≤ presence instructors g
    ∧ (ch' = true → presence instructors g' < presence instructors g).
Proof.
  intros Hwf Hone. unfold improve_pass.
  destruct (for_in_invariant
    (λ x : ndarray * bool,
       wf_ndarray x.1 ∧ x.1.(shape) = g.(shape) ∧ lessons x.1 ≡ₚ lessons g
       ∧ presence instructors x.1 ≤ presence instructors g
       ∧ (x.2 = true → presence instructors x.1 < presence instructors g))
    instructors improve_instructor (g, false)) as ([g' ch'] & -> & H).
  - done.
  - intros instructor [g1 ch1] Hin (Hwf1 & Hsh1 & Hp1 & Hle1 & Hlt1).
    simpl in Hwf1, Hsh1, Hp1, Hle1, Hlt1.
    destruct (improve_instructor_Ok instructors instructor
                (presence instructors g) g1 ch1 Hwf1)
      as (g2 & ch2 & -> & Hwf2 & Hsh2 & Hp2 & Hle2 & Hlt2); [|done..|].
    { unfold shape0 in *. by rewrite Hsh1. }
    exists (g2, ch2). simpl. split; [done|]. split; [done|].
    split; [congruence|]. split; [by rewrite Hp2|done].
  - eauto.
Qed.

Lemma improve_while_outcome fuel instructors :
  ∀ ch g, wf_ndarray g → shape0 g = 1 →
    match improve_while fuel instructors ch g with
    | Ok g' => wf_ndarray g' ∧ g'.(shape) = g.(shape) ∧ lessons g' ≡ₚ lessons g
    | Raise _ => False
    | OutOfFuel => True
    end.
Proof.
  induction fuel as [|fuel IH]; intros ch g Hwf Hone; simpl.
  - by destruct ch.
  - destruct ch; [|done].
    destruct (improve_pass_Ok instructors g Hwf Hone)
      as (g1 & ch1 & -> & Hwf1 & Hsh1 & Hp1 & _). simpl.
    assert (shape0 g1 = 1) as Hone1 by (unfold shape0 in *; by rewrite Hsh1).
    specialize (IH ch1 g1 Hwf1 Hone1).
    destruct (improve_while fuel instructors ch1 g1); [|done..].
    destruct IH as (? & ? & Hp). split; [done|]. split; [congruence|].
    by rewrite Hp.
Qed.

(** The loop [while changed] ends: a turn that sets [changed] has taken an
    instructor off a day, so there are no more such turns than days of
    presence. *)
Lemma improve_while_Ok fuel instructors :
  ∀ ch g, wf_ndarray g → shape0 g = 1 →
    (ch = true → presence instructors g < fuel) →
    ∃ g', improve_while fuel instructors ch g = Ok g'.
Proof.
  induction fuel as [|fuel IH]; intros ch g Hwf Hone Hfuel; simpl.
  - destruct ch; [|eauto]. specialize (Hfuel eq_refl). lia.
  - destruct ch; [|eauto].
    destruct (improve_pass_Ok instructors g Hwf Hone)
      as (g1 & ch1 & -> & Hwf1 & Hsh1 & _ & Hle1 & Hlt1). simpl.
    apply IH; [done| |].
    + unfold shape0 in *. by rewrite Hsh1.
    + intros Hch. specialize (Hfuel eq_refl). specialize (Hlt1 Hch). lia.
Qed.

(** ** The score and the lessons of a grid *)

Lemma participants_total_lessons a :
  wf_ndarray a →
  participants_total a
  = sum_list_with (λ l, length l.(Lesson.participants)) (lessons a).
Proof.
  intros Hwf. rewrite (lessons_cells a Hwf). unfold participants_total.
  induction (cells a) as [|x K IH]; [done|]. simpl. by rewrite IH.
Qed.

Lemma sum2_add n m f g :
  sum2 n m (λ i j, f i j + g i j) = sum2 n m f + sum2 n m g.
Proof.
  unfold sum2.
  assert (∀ (l : list nat) (f g : nat → nat),
            sum_list_with (λ i, f i + g i) l
            = sum_list_with f l + sum_list_with g l) as Hadd.
  { intros l f' g'. induction l as [|x l IH]; [done|]. simpl. rewrite IH. lia. }
  rewrite <-Hadd. apply sum_list_with_ext_in. intros i _. apply Hadd.
Qed.

Lemma sum_indicator_eq (l : list nat) (b : nat) :
  NoDup l →
  sum_list_with (λ j, indicator (bool_decide (j = b))) l
  = indicator (bool_decide (b ∈ l)).
Proof.
  induction 1 as [|x l Hx Hnd IH]; [done|]. simpl. rewrite IH.
  destruct (decide (x = b)) as [->|Hne].
  - rewrite bool_decide_eq_true_2 by done.
    rewrite (bool_decide_eq_false_2 (b ∈ l)) by done.
    by rewrite bool_decide_eq_true_2 by left.
  - rewrite bool_decide_eq_false_2 by done. simpl.
    apply f_equal, bool_decide_ext. rewrite elem_of_cons.
    split; [by right|]. by intros [->|?].
Qed.

Lemma sum_zero {A} (l : list A) : sum_list_with (λ _, 0) l = 0.
Proof. by induction l. Qed.

Lemma sum2_indicator n m (P : nat → Prop) (Q : nat → Prop)
    `{!∀ i, Decision (P i)} `{!∀ j, Decision (Q j)} a b :
  a < n → b < m → (∀ i, P i ↔ i = a) → (∀ j, Q j ↔ j = b) →
  sum2 n m (λ i j, indicator (bool_decide (P i ∧ Q j))) = 1.
Proof.
  intros Ha Hb HP HQ. unfold sum2, range.
  rewrite (sum_list_with_ext_in _ (λ i, indicator (bool_decide (i = a)))).
  - rewrite sum_indicator_eq by apply NoDup_seq.
    rewrite bool_decide_eq_true_2; [done|]. apply elem_of_seq. lia.
  - intros i _. destruct (decide (i = a)) as [->|Hne].
    + rewrite bool_decide_eq_true_2 by done.
      rewrite (sum_list_with_ext_in _ (λ j, indicator (bool_decide (j = b)))).
      * rewrite sum_indicator_eq by apply NoDup_seq.
        rewrite bool_decide_eq_true_2; [done|]. apply elem_of_seq. lia.
      * intros j _. apply f_equal, bool_decide_ext. rewrite HP, HQ. tauto.
    + rewrite bool_decide_eq_false_2 by done.
      rewrite (sum_list_with_ext_in _ (λ _, 0)); [apply sum_zero|].
      intros j _. rewrite bool_decide_eq_false_2; [done|]. rewrite HP. tauto.
Qed.

Lemma elem_of_cells_in a p x :
  x ∈ cells_in a p → x.1 ∈ p ∧ cell a x.1 = Some x.2.
Proof.
  unfold cells_in. intros (i & Hi & Hx)%list_elem_of_omap.
  destruct (cell a i) as [l|] eqn:Hc; simplify_eq/=. done.
Qed.

(** Counted per (instructor, day), the lessons of a grid of the schedule
    are its occupied cells. *)
Lemma instructor_hours_occupied self a :
  grid_of self a → instructor_hours self a = occupied a.
Proof.
  intros Hg. unfold instructor_hours, occupied.
  rewrite (lessons_cells a (grid_wf _ _ Hg)), length_fmap.
  assert (Forall (λ x, valid_id self x.2 ∧ x.1.1.2 < self.(day)) (cells a))
    as Hkeys.
  { apply Forall_forall. intros [[[c d] ts] l] [Hi Hc]%elem_of_cells_in.
    simpl in *. split.
    - apply (proj1 (Forall_forall _ _) (grid_ids _ _ Hg)).
      by eapply cell_lessons.
    - apply elem_of_indices in Hi. pose proof (grid_days _ _ Hg). lia. }
  unfold lessons_on. induction Hkeys as [|x K [Hid Hd] _ IH]; simpl.
  - unfold sum2. rewrite (sum_list_with_ext_in _ (λ _, 0)); [apply sum_zero|].
    intros i _. apply sum_zero.
  - rewrite <-IH.
    rewrite (sum2_ext _ _ _
      (λ i d, indicator (bool_decide
                (Instructor.id (Lesson.instructor x.2) = Z.of_nat i
                 ∧ x.1.1.2 = d))
              + length (filter
                  (λ y, Instructor.id (Lesson.instructor y.2) = Z.of_nat i
                        ∧ y.1.1.2 = d) K))).
    + rewrite sum2_add.
      rewrite (sum2_indicator _ _
                 (λ i, Instructor.id (Lesson.instructor x.2) = Z.of_nat i)
                 (λ j, x.1.1.2 = j)
                 (Z.to_nat (Instructor.id (Lesson.instructor x.2))) x.1.1.2).
      * done.
      * unfold valid_id in Hid. lia.
      * done.
      * intros i. unfold valid_id in Hid. lia.
      * intros j. done.
    + intros i d _ _. rewrite filter_cons. case_decide.
      * by rewrite bool_decide_eq_true_2.
      * by rewrite bool_decide_eq_false_2.
Qed.

Lemma grid_of_Permutation self a a' :
  grid_of self a → wf_ndarray a' → a'.(shape) = a.(shape) →
  lessons a' ≡ₚ lessons a → grid_of self a'.
Proof.
  intros [Hwf Hc Hd Hids] Hwf' Hsh Hp. split; [done| | |].
  - unfold shape0 in *. by rewrite Hsh.
  - unfold shape1 in *. by rewrite Hsh.
  - by rewrite Hp.
Qed.

(** Two grids of the schedule with the same lessons differ in score by the
    presence and the rent terms only. *)
Lemma final_score_Permutation self a a' :
  grid_of self a → grid_of self a' → lessons a' ≡ₚ lessons a →
  (final_score self a' - final_score self a
   = self.(pay_for_presence)
       * (Z.of_nat (instructor_presence_days self a)
          - Z.of_nat (instructor_presence_days self a'))
     + self.(class_renting_cost)
       * (Z.of_nat (classroom_days self a) - Z.of_nat (classroom_days self a')))%Z.
Proof.
  intros Hg Hg' Hp. unfold final_score.
  rewrite !participants_total_lessons by apply Hg || apply Hg'.
  rewrite !instructor_hours_occupied by done.
  unfold occupied. rewrite Hp. lia.
Qed.

(** ** [improve_results] *)

Lemma improve_results_inv fuel st st' :
  improve_results fuel st = Ok ((), st') →
  ∃ g', improve_grid fuel st.(self).(instructors)
          (st.(heap) st.(self).(schedule)) = Ok g'
        ∧ st' = update st.(self).(schedule) g' st.
Proof.
  unfold improve_results. intros H.
  apply bind_M_Ok in H as (s & st1 & [= <- <-] & H).
  apply bind_M_Ok in H as (g & st2 & [= <- <-] & H).
  apply bind_M_Ok in H as (g' & st3 & [Hg ->]%lift_Ok & [= <-]).
  eauto.
Qed.




(** ** The annealing run comes to an end *)

Section Annealing_ends.

Variable metropolis : nat → Z → Q → bool.

Lemma for_inM_Ok {A S} (I : S → state → Prop) (l : list A)
    (body : A → S → M S) s st :
  I s st →
  (∀ x s st, I s st → ∃ s' st', body x s st = Ok (s', st') ∧ I s' st') →
  ∃ s' st', for_inM l body s st = Ok (s', st') ∧ I s' st'.
Proof.
  intros Hs Hb. revert s st Hs; induction l as [|x l IH]; intros s st Hs; simpl.
  - by exists s, st.
  - destruct (Hb x s st Hs) as (s1 & st1 & H1 & Hs1).
    rewrite (bind_M_eq _ _ _ _ _ H1). by apply IH.
Qed.

Lemma sa_iteration_Ok s st :
  searchable st.(self) (st.(heap) s.(current_solution)) →
  ∃ s' st',
    sa_iteration metropolis s st = Ok (s', st')
    ∧ s'.(current_solution) = s.(current_solution)
    ∧ s'.(current_temp) = s.(current_temp)
    ∧ st'.(self) = st.(self)
    ∧ searchable st'.(self) (st'.(heap) s'.(current_solution)).
Proof.
  intros (Hg & Hocc & Hfree). set (r := current_solution s) in *.
  destruct (get_neighbor_Ok r st (grid_wf _ _ Hg) Hocc Hfree)
    as (src & dst & a1 & a2 & Hn & Hsrc & Hdst & H1 & H2).
  destruct (get_neighbor_moved r st src dst a1 a2 (grid_wf _ _ Hg) Hsrc Hdst H1 H2)
    as (Hwf2 & Hsh & _ & _ & _ & Hperm).
  set (st1 := update r a2 (update r a1 (tick (tick st)))) in *.
  assert (heap st1 r = a2) as Hr by (simpl; by rewrite fn_lookup_insert).
  assert (searchable st.(self) a2) as Hs2.
  { split; [by eapply grid_of_Permutation|].
    unfold occupied, size, shape0, shape1, shape2 in *.
    rewrite Hperm, Hsh. done. }
  assert (get_cost_at r st1 = Ok (final_score st.(self) a2, st1)) as Hc.
  { rewrite get_cost_at_eq, Hr. simpl.
    by rewrite (get_cost_final_score _ _ (proj1 Hs2)). }
  unfold sa_iteration. fold r.
  rewrite (bind_M_eq _ _ _ _ _ Hn), (bind_M_eq _ _ _ _ _ Hc).
  destruct (_ >=? 0)%Z.
  - destruct (_ >? _)%Z.
    + eexists _, _. split; [done|]. simpl.
      split; [done|]. split; [done|]. split; [done|].
      assert (<[next st := <[r := a2]> (<[r := a1]> (heap st)) r]>
                (<[r := a2]> (<[r := a1]> (heap st))) r = a2) as ->; [|done].
      destruct (decide (next st = r)) as [->|Hne].
      * by rewrite !fn_lookup_insert.
      * by rewrite fn_lookup_insert_ne, fn_lookup_insert by done.
    + eexists _, _. split; [done|]. simpl. rewrite fn_lookup_insert.
      split; [done|]. split; [done|]. split; done.
  - unfold draw at 1. unfold mbind at 1, M_bind at 1.
    destruct (metropolis _ _ _); eexists _, _; (split; [done|]); simpl;
      rewrite fn_lookup_insert; (split; [done|]); (split; [done|]);
      split; done.
Qed.

Lemma sa_epoch_Ok alpha epsilon n s st :
  searchable st.(self) (st.(heap) s.(current_solution)) →
  ∃ s' st',
    sa_epoch metropolis alpha epsilon n s st = Ok (s', st')
    ∧ s'.(current_temp) = (alpha * s.(current_temp))%Q
    ∧ searchable st'.(self) (st'.(heap) s'.(current_solution)).
Proof.
  intros Hs. unfold sa_epoch.
  destruct (for_inM_Ok
    (λ s' st', s'.(current_temp) = s.(current_temp)
               ∧ searchable st'.(self) (st'.(heap) s'.(current_solution)))
    (range (Z.to_nat n)) (λ _ : nat, sa_iteration metropolis) s st)
    as (s1 & st1 & H1 & Ht & Hs1).
  - done.
  - intros _ s0 st0 [Ht0 Hs0].
    destruct (sa_iteration_Ok s0 st0 Hs0) as (s' & st' & H & _ & Ht & _ & Hs').
    exists s', st'. split; [done|]. split; [congruence|done].
  - rewrite (bind_M_eq _ _ _ _ _ H1). eexists _, _. split; [done|].
    simpl. by rewrite Ht.
Qed.

Lemma Qltb_lt x y : Qltb x y = true ↔ (x < y)%Q.
Proof.
  unfold Qltb. rewrite negb_true_iff, <-not_true_iff_false, Qle_bool_iff.
  split; [apply Qnot_le_lt|apply Qlt_not_le].
Qed.

(** The loop is left once the temperature is no longer above [min_temp]. *)
Lemma sa_while_Ok alpha min_temp epsilon n m fuel :
  ∀ s st,
    searchable st.(self) (st.(heap) s.(current_solution)) →
    ¬ (min_temp < Nat.iter fuel (Qmult alpha) s.(current_temp))%Q →
    ∃ s' st',
      sa_while metropolis fuel alpha min_temp epsilon n m s st = Ok (s', st').
Proof.
  induction fuel as [|fuel IH]; intros s st Hs Hcold; simpl.
  - destruct (sa_continue min_temp m s) eqn:Hc; [|by eexists _, _].
    unfold sa_continue in Hc. apply andb_true_iff in Hc as [Hc%Qltb_lt _].
    done.
  - destruct (sa_continue min_temp m s); [|by eexists _, _].
    destruct (sa_epoch_Ok alpha epsilon n s st Hs) as (s1 & st1 & H1 & Ht & Hs1).
    rewrite (bind_M_eq _ _ _ _ _ H1). apply IH; [done|].
    rewrite Ht. by rewrite <-Nat.iter_succ_r.
Qed.

End Annealing_ends.

Lemma cooling_bound (alpha t : Q) (k : nat) :
  (0 <= alpha)%Q → (alpha <= 1)%Q → (0 <= t)%Q →
  (0 <= Nat.iter k (Qmult alpha) t)%Q
  ∧ (Nat.iter k (Qmult alpha) t <= t)%Q
  ∧ (Nat.iter k (Qmult alpha) t
     * (1 + inject_Z (Z.of_nat k) * (1 - alpha)) <= t)%Q.
Proof.
  intros Ha0 Ha1 Ht. induction k as [|k (IH0 & IH1 & IH2)].
  - change (inject_Z (Z.of_nat 0)) with 0%Q. simpl. repeat split; lra.
  - rewrite Nat2Z.inj_succ, <-Z.add_1_r, inject_Z_plus. simpl.
    set (u := Nat.iter k (Qmult alpha) t) in *.
    set (K := inject_Z (Z.of_nat k)) in *.
    assert (0 <= K)%Q as HK.
    { unfold K. change 0%Q with (inject_Z 0). rewrite <-Zle_Qle. lia. }
    change (inject_Z 1) with 1%Q.
    assert (0 <= alpha * u)%Q as H3 by (apply Qmult_le_0_compat; lra).
    assert (0 <= (1 - alpha) * u)%Q as H4 by (apply Qmult_le_0_compat; lra).
    assert (0 <= alpha * (t - u * (1 + K * (1 - alpha))))%Q as H5
      by (apply Qmult_le_0_compat; lra).
    assert (0 <= (1 - alpha) * (t - alpha * u))%Q as H6
      by (apply Qmult_le_0_compat; lra).
    repeat split; lra.
Qed.

(** A temperature that is multiplied by [alpha < 1] at every level falls to
    [min_temp > 0]. *)
Lemma cooling_ends (alpha t min_temp : Q) :
  (0 <= alpha)%Q → (alpha < 1)%Q → (0 < min_temp)%Q →
  ∃ k, ¬ (min_temp < Nat.iter k (Qmult alpha) t)%Q.
Proof.
  intros Ha0 Ha1 Hm.
  destruct (Qlt_le_dec 0 t) as [Ht|Ht].
  2: { exists 0. simpl. lra. }
  set (c := (1 - alpha)%Q).
  set (k := Z.to_nat (Qceiling (t / (min_temp * c)))).
  exists k.
  destruct (cooling_bound alpha t k) as (H0 & H1 & H2); [lra..|].
  fold c in H2.
  assert (0 < c)%Q as Hc by (unfold c; lra).
  assert (0 < min_temp * c)%Q as Hmc by (by apply Qmult_lt_0_compat).
  assert (t / (min_temp * c) <= inject_Z (Z.of_nat k))%Q as Hk.
  { unfold k. rewrite Z2Nat.id.
    - apply Qle_ceiling.
    - change 0%Z with (Qceiling 0). apply Qceiling_resp_le.
      apply Qle_shift_div_l; [done|lra]. }
  assert (t <= inject_Z (Z.of_nat k) * (min_temp * c))%Q as Hk'.
  { apply (Qmult_le_compat_r _ _ (min_temp * c)) in Hk; [|lra].
    assert (t / (min_temp * c) * (min_temp * c) == t)%Q as E
      by (field; lra).
    by rewrite E in Hk. }
  set (K := inject_Z (Z.of_nat k)) in *.
  assert (0 <= K)%Q as HK.
  { unfold K. change 0%Q with (inject_Z 0). rewrite <-Zle_Qle. lia. }
  set (u := Nat.iter k (Qmult alpha) t) in *.
  intros Hlt. nra.
Qed.
Section Annealing_returns.

Variable metropolis : nat → Z → Q → bool.

Lemma sa_init_Ok initial_temp st :
  searchable st.(self) (st.(heap) st.(self).(schedule)) →
  ∃ s st1,
    sa_init initial_temp st = Ok (s, st1)
    ∧ s.(current_temp) = initial_temp
    ∧ searchable st1.(self) (st1.(heap) s.(current_solution)).
Proof.
  intros Hs. set (g := heap st (schedule (self st))) in *.
  pose proof (get_cost_final_score _ _ (proj1 Hs)) as Hcost.
  unfold sa_init.
  unfold mbind at 1, M_bind at 1, get_self at 1.
  unfold mbind at 1, M_bind at 1, deepcopy at 1.
  unfold mbind at 1, M_bind at 1, deepcopy at 1.
  fold g. set (st1 := allocate _ (allocate g st)).
  assert (heap st1 (next st) = g) as H1.
  { unfold st1. simpl. rewrite fn_lookup_insert_ne by lia.
    by rewrite fn_lookup_insert. }
  assert (heap st1 (S (next st)) = g) as H2.
  { unfold st1. simpl. by rewrite !fn_lookup_insert. }
  assert (∀ r, heap st1 r = g →
            get_cost_at r st1 = Ok (final_score st.(self) g, st1)) as Hc.
  { intros r Hr. rewrite get_cost_at_eq, Hr.
    change (self st1) with (self st). by rewrite Hcost. }
  simpl next.
  rewrite (bind_M_eq _ _ _ _ _ (Hc _ H1)), (bind_M_eq _ _ _ _ _ (Hc _ H2)).
  eexists _, _. split; [done|]. split; [done|].
  change (self st1) with (self st). cbn [current_solution]. by rewrite H1.
Qed.


End Annealing_returns.

Lemma searchable_week : searchable studio week.
Proof. split; [exact grid_of_week|compute; lia]. Defined.



(** ** [get_cost] on a grid without lessons *)

Lemma cell_None_of_lessons a i : lessons a = [] → cell a i = None.
Proof.
  intros Hl. destruct (cell a i) as [l|] eqn:Hc; [|done].
  apply cell_lessons in Hc. rewrite Hl in Hc. by apply elem_of_nil in Hc.
Qed.

Lemma table_sum_zeros n m : table_sum (zeros n m) = 0.
Proof.
  unfold table_sum, zeros. induction n as [|n IH]; simpl; [done|].
  rewrite IH. clear IH. induction m as [|m IH]; simpl; [done|]. lia.
Qed.

Lemma table_positive_zeros n m : table_positive (zeros n m) = 0.
Proof.
  unfold table_positive, zeros. induction n as [|n IH]; simpl; [done|].
  rewrite IH. clear IH. rewrite Nat.add_0_r.
  induction m as [|m IH]; simpl; [done|].
  rewrite filter_cons. by case_decide; [lia|].
Qed.

Lemma get_cost_lessons_nil self a :
  wf_ndarray a → occupied a = 0 → get_cost self a = Ok 0%Z.
Proof.
  intros Hwf Hocc. unfold occupied in Hocc.
  apply length_zero_iff_nil in Hocc. unfold get_cost.
  rewrite get_cost_loop_flat.
  destruct (for_in_invariant
    (λ acc, acc = mk_cost_acc 0 (zeros (length self.(instructors)) self.(day))
                    (zeros self.(class_id) self.(day)))
    (indices a) (λ i, get_cost_cell self a i.1.1 i.1.2 i.2)
    (mk_cost_acc 0 (zeros (length self.(instructors)) self.(day))
       (zeros self.(class_id) self.(day)))) as (acc & -> & ->); [done| |].
  - intros [[c d] ts] acc Hi ->. simpl. unfold get_cost_cell.
    rewrite getitem_cell; [|done|by apply in_bounds_spec, elem_of_indices].
    rewrite (cell_None_of_lessons _ _ Hocc). simpl. eauto.
  - simpl. rewrite !table_sum_zeros, table_positive_zeros. f_equal. lia.
Qed.


(** ** Who teaches when: the terms of the score, cell by cell *)

Lemma elem_of_cells a i l : (i, l) ∈ cells a ↔ cell a i = Some l.
Proof.
  split.
  - by intros [_ ?]%elem_of_cells_in.
  - intros Hc. unfold cells, cells_in. apply list_elem_of_omap.
    exists i. rewrite Hc. split; [|done]. destruct i as [[c d] ts].
    apply elem_of_indices, in_bounds_spec. by eapply cell_in_bounds.
Qed.

Lemma lessons_on_present a i d :
  1 ≤ lessons_on a i d ↔ ∃ c, present a c (Z.of_nat i) d = true.
Proof.
  unfold lessons_on. split.
  - intros Hlen.
    destruct (filter _ (cells a)) as [|[[[c d'] ts] l] K] eqn:HK;
      [simpl in Hlen; lia|].
    assert (((c, d', ts), l) ∈ filter
              (λ x, Instructor.id (Lesson.instructor x.2) = Z.of_nat i
                    ∧ x.1.1.2 = d) (cells a)) as Hin by (rewrite HK; left).
    apply list_elem_of_filter in Hin as [[Hid Hd] Hin]. simpl in *. subst d'.
    apply elem_of_cells in Hin. exists c. apply present_spec. exists ts.
    rewrite Hin. simpl. by apply bool_decide_eq_true.
  - intros (c & (ts & Ht)%present_spec).
    destruct (cell a (c, d, ts)) as [l|] eqn:Hc; [|done]. simpl in Ht.
    apply bool_decide_eq_true in Ht.
    assert (((c, d, ts), l) ∈ filter
              (λ x, Instructor.id (Lesson.instructor x.2) = Z.of_nat i
                    ∧ x.1.1.2 = d) (cells a)) as Hin.
    { apply list_elem_of_filter. split; [done|]. by apply elem_of_cells. }
    destruct (filter _ (cells a)); [by apply elem_of_nil in Hin|simpl; lia].
Qed.

Lemma rented_present a c d :
  rented a c d = true ↔ ∃ X, present a c X d = true.
Proof.
  unfold rented. rewrite bool_decide_eq_true, Exists_exists. split.
  - intros ([[[c' d'] ts] l] & Hin & Hc & Hd). simpl in *. subst.
    apply elem_of_cells in Hin.
    exists l.(Lesson.instructor).(Instructor.id). apply present_spec.
    exists ts. rewrite Hin. simpl. by apply bool_decide_eq_true.
  - intros (X & (ts & Ht)%present_spec).
    destruct (cell a (c, d, ts)) as [l|] eqn:Hc; [|done].
    exists ((c, d, ts), l). split; [by apply elem_of_cells|done].
Qed.

Lemma sum_list_with_le {A} (f g : A → nat) (l : list A) :
  (∀ x, x ∈ l → f x ≤ g x) → sum_list_with f l ≤ sum_list_with g l.
Proof.
  induction l as [|x l IH]; intros H; simpl; [done|].
  pose proof (H x ltac:(left)). pose proof (IH (λ y Hy, H y ltac:(by right))).
  lia.
Qed.

Lemma sum2_le n m f g :
  (∀ i j, i < n → j < m → f i j ≤ g i j) → sum2 n m f ≤ sum2 n m g.
Proof.
  intros H. unfold sum2, range.
  apply sum_list_with_le. intros i Hi%elem_of_seq.
  apply sum_list_with_le. intros j Hj%elem_of_seq. apply H; lia.
Qed.

Lemma indicator_le (b b' : bool) :
  (b = true → b' = true) → indicator b ≤ indicator b'.
Proof. destruct b, b'; simpl; intros H; (lia || by specialize (H eq_refl)). Qed.

(** No new day for anyone, no new day for any classroom: the two counts of
    the score do not go up. *)
Lemma instructor_presence_days_le self a a' :
  (∀ c X d, present a' c X d = true → ∃ c', present a c' X d = true) →
  instructor_presence_days self a' ≤ instructor_presence_days self a.
Proof.
  intros H. apply sum2_le. intros i d _ _. apply indicator_le.
  rewrite !bool_decide_eq_true, !lessons_on_present.
  intros (c & Hc). by apply H in Hc.
Qed.

Lemma classroom_days_le self a a' :
  (∀ c X d, present a' c X d = true → ∃ X', present a c X' d = true) →
  classroom_days self a' ≤ classroom_days self a.
Proof.
  intros H. apply sum2_le. intros c d _ _. apply indicator_le.
  rewrite !rented_present. intros (X & HX). by apply H in HX.
Qed.

(** ** [improve_results]: nobody gets a new day *)

Lemma drain_present X c g0 n s src dst r_src r_dst s' :
  repack_inv g0 c n s → repack_inv g0 c n s' →
  accurate X c s.(grid) s.(trainings) →
  s.(trainings) !! src = Some r_src → s.(trainings) !! dst = Some r_dst →
  src ≠ dst → (r_src.(item1) ≠ [] → r_dst.(item1) ≠ []) →
  drained c s src dst r_src r_dst s' →
  ∀ Y d, present s'.(grid) c Y d = true → present s.(grid) c Y d = true.
Proof.
  intros Hinv Hinv' [Hslots Hdays] Hsrc Hdst Hne Hfull
    [Hptr Hch Hs Hd Hoth Hodays Hvac Hsrest Hmoved Hdrest].
  assert (shape2 s'.(grid) = shape2 s.(grid)) as Hsh2.
  { unfold shape2.
    by rewrite (repack_shape _ _ _ _ Hinv), (repack_shape _ _ _ _ Hinv'). }
  set (m := length r_src.(item1)) in *.
  intros Y d Hp.
  destruct (decide (d = r_src.(item0))) as [->|Hds];
    [|destruct (decide (d = r_dst.(item0))) as [->|Hdd]].
  - apply present_spec in Hp as (ts & Ht). apply present_spec. exists ts.
    destruct (decide (ts ∈ r_src.(item1))) as [Hin|Hin].
    + by rewrite Hvac in Ht.
    + by rewrite Hsrest in Ht.
  - apply present_spec in Hp as (ts & Ht). apply present_spec.
    destruct (decide (ts ∈ take m r_dst.(item2))) as [Hin|Hin];
      [|exists ts; by rewrite Hdrest in Ht].
    apply elem_of_take in Hin as (j & Hj & Hjm).
    destruct (lookup_lt_is_Some_2 r_src.(item1) j Hjm) as [from Hfrom].
    rewrite (Hmoved j from ts Hfrom Hj) in Ht.
    assert (taught X (cell s.(grid) (c, r_src.(item0), from)) = true) as HX.
    { apply (Hslots src r_src from Hsrc). by eapply list_elem_of_lookup_2. }
    rewrite (taught_other _ _ _ HX) in Ht. apply bool_decide_eq_true in Ht as ->.
    assert (r_src.(item1) ≠ []) as Hnonempty.
    { intros Hnil. rewrite Hnil in Hfrom. done. }
    destruct r_dst.(item1) as [|ts' O_d] eqn:HOd; [by apply Hfull in Hnonempty|].
    exists ts'. apply (Hslots dst r_dst ts' Hdst). rewrite HOd. by left.
  - rewrite <-Hp. symmetry. apply present_ext; [done|].
    intros ts. by rewrite Hodays.
Qed.

Lemma no_new_day_refl g : no_new_day g g.
Proof. by intros X d. Qed.

Lemma no_new_day_trans g1 g2 g3 :
  no_new_day g1 g2 → no_new_day g2 g3 → no_new_day g1 g3.
Proof. intros H12 H23 X d H. by apply H12, H23. Qed.

Lemma pair_step_present instructors instructor Φ g0 n s i j s' :
  repack_inv g0 0 n s → 0 < shape0 g0 → i < j → j < n →
  progress instructors instructor.(Instructor.id) Φ s →
  pair_step 0 i j s = Ok s' → no_new_day s.(grid) s'.(grid).
Proof.
  intros Hinv Hc Hij Hj [Hacc Hord Hle _].
  pose proof (repack_pointers _ _ _ _ Hinv) as Hptr.
  pose proof (repack_length _ _ _ _ Hinv) as Hlen.
  assert (length s.(trainings2) = n) as Hl2 by (by rewrite Hptr, length_seq).
  destruct (lookup_lt_is_Some_2 s.(trainings2) i) as [pi Hpi]; [lia|].
  destruct (lookup_lt_is_Some_2 s.(trainings2) j) as [pj Hpj]; [lia|].
  assert (pi ≠ pj) as Hne.
  { intros ->. assert (i = j); [|lia].
    eapply NoDup_lookup; [|exact Hpi|exact Hpj]. rewrite Hptr. apply NoDup_seq. }
  assert (pi < n ∧ pj < n) as [Hpin Hpjn].
  { apply list_elem_of_lookup_2 in Hpi, Hpj. rewrite Hptr in Hpi, Hpj.
    apply elem_of_seq in Hpi, Hpj. lia. }
  destruct (lookup_lt_is_Some_2 s.(trainings) pi) as [ri Hri]; [lia|].
  destruct (lookup_lt_is_Some_2 s.(trainings) pj) as [rj Hrj]; [lia|].
  assert (length ri.(item1) ≤ length rj.(item1)) as Hkey.
  { pose proof (Hord i j pi pj Hij Hpi Hpj) as Hk. unfold key in Hk.
    by rewrite Hri, Hrj in Hk. }
  unfold pair_step. simpl.
  rewrite (list_get_Ok _ _ _ Hpi), (list_get_Ok _ _ _ Hpj). simpl.
  rewrite (list_get_Ok _ _ _ Hri), (list_get_Ok _ _ _ Hrj). simpl.
  pose proof (repack_inv_changed _ _ _ _ false Hinv) as Hinv'.
  set (s0 := mk_repack s.(grid) s.(trainings) s.(trainings2) false) in *.
  assert (∀ src dst r_src r_dst,
            s.(trainings) !! src = Some r_src →
            s.(trainings) !! dst = Some r_dst → src ≠ dst →
            length r_src.(item1) ≤ length r_dst.(item2) →
            (r_src.(item1) ≠ [] → r_dst.(item1) ≠ []) →
            drain 0 src dst s0 = Ok s' → no_new_day s.(grid) s'.(grid))
    as Hdrain.
  { intros src dst r_src r_dst Hsrc Hdst Hsd Hfit Hfull Hrun.
    destruct (drain_Ok g0 0 n s0 src dst r_src r_dst Hinv')
      as (s1 & Hs1 & Hinv1 & Hdr); [done..|].
    rewrite Hrun in Hs1. injection Hs1 as <-.
    intros Y d. by apply (drain_present instructor.(Instructor.id) 0 g0 n s0
                            src dst r_src r_dst s'). }
  repeat case_bool_decide.
  - apply (Hdrain pi pj ri rj); [done..|].
    intros Hnil Hnil'. rewrite Hnil' in Hkey. simpl in Hkey.
    destruct (item1 ri); [done|simpl in Hkey; lia].
  - apply (Hdrain pj pi rj ri); [done|done|done|lia|].
    intros _ Hnil. rewrite Hnil in *. simpl in *. lia.
  - intros [= <-]. apply no_new_day_refl.
Qed.

Lemma pair_loop_present instructors instructor Φ g0 n i js :
  ∀ s s', repack_inv g0 0 n s → 0 < shape0 g0 →
    Forall (λ j, i < j ∧ j < n) js → instructor ∈ instructors →
    progress instructors instructor.(Instructor.id) Φ s →
    pair_loop 0 i js s = Ok s' → no_new_day s.(grid) s'.(grid).
Proof.
  induction js as [|j js IH]; intros s s' Hinv Hc Hjs Hin Hpr; simpl.
  { intros [= <-]. apply no_new_day_refl. }
  apply Forall_cons in Hjs as [[Hij Hj] Hjs].
  destruct (pair_step_Ok instructors instructor Φ g0 n s i j)
    as (s1 & Hs1 & Hinv1 & Hacc1 & Hle1 & Hch1); try done.
  pose proof (pair_step_present instructors instructor Φ g0 n s i j s1
                Hinv Hc Hij Hj Hpr Hs1) as Hmono.
  rewrite Hs1. simpl. destruct (changed s1) eqn:Hch.
  - by intros [= <-].
  - intros Hrun. eapply no_new_day_trans; [exact Hmono|].
    apply (IH s1); try done. split; [done|done|done|]. by rewrite Hch.
Qed.

(** Every loop of the pass is a run of steps that give nobody a new day. *)
Lemma for_in_no_new_day {A S} (I : S → Prop) (get : S → ndarray) (l : list A)
    (body : A → S → outcome S) :
  (∀ x s, x ∈ l → I s →
     ∃ s', body x s = Ok s' ∧ I s' ∧ no_new_day (get s) (get s')) →
  ∀ s, I s →
    ∃ s', for_in l body s = Ok s' ∧ I s' ∧ no_new_day (get s) (get s').
Proof.
  induction l as [|x l IH]; intros Hb s Hs; simpl.
  - exists s. split; [done|]. split; [done|]. apply no_new_day_refl.
  - destruct (Hb x s) as (s1 & -> & Hs1 & H1); [left|done|]. simpl.
    destruct (IH (λ y t Hy, Hb y t ltac:(by right)) s1 Hs1)
      as (s' & -> & Hs' & H2).
    exists s'. split; [done|]. split; [done|]. by eapply no_new_day_trans.
Qed.

Lemma improve_classroom_present instructors instructor Φ g ch :
  wf_ndarray g → 0 < shape0 g → instructor ∈ instructors →
  presence instructors g ≤ Φ → (ch = true → presence instructors g < Φ) →
  ∃ g' tr' ch',
    improve_classroom instructor 0 (g, [], ch) = Ok (g', tr', ch')
    ∧ no_new_day g g'.
Proof.
  intros Hwf Hc Hin Hle Hlt. unfold improve_classroom.
  destruct (scan_days_Ok g instructor 0 Hwf Hc) as (tr & Htr & Hok).
  pose proof (scan_days_accurate g instructor 0 tr Hwf Hc Htr) as Hacc.
  rewrite Htr. simpl.
  destruct (for_in_no_new_day
              (λ s, repack_inv g 0 (length tr) s
                    ∧ progress instructors instructor.(Instructor.id) Φ s)
              grid (range (length (sorted tr) - 1)) (repack_from 0))
    with (s := mk_repack g tr (sorted tr) ch) as (s' & -> & _ & Hmono).
  - intros i s _ [Hs Hpr].
    destruct (repack_from_Ok instructors instructor Φ g (length tr) i s)
      as (s' & Hs' & Hinv' & Hpr'); [done..|].
    exists s'. split; [done|]. split; [done|].
    unfold repack_from in Hs'.
    apply (pair_loop_present instructors instructor Φ g (length tr) i
             (seq (i + 1) (length (trainings2 s) - (i + 1)))); try done.
    assert (length s.(trainings2) = length tr) as ->
      by (by rewrite (repack_pointers _ _ _ _ Hs), length_seq).
    apply Forall_forall. intros j Hj%elem_of_seq. lia.
  - split; [split; simpl; try done; apply sorted_Permutation|].
    split; simpl; [done|apply sorted_ordered|done|done].
  - simpl. eauto.
Qed.

Lemma improve_pass_present instructors g :
  wf_ndarray g → shape0 g = 1 →
  ∃ g' ch', improve_pass instructors g = Ok (g', ch') ∧ no_new_day g g'.
Proof.
  intros Hwf Hone. unfold improve_pass.
  destruct (for_in_no_new_day
    (λ x : ndarray * bool,
       wf_ndarray x.1 ∧ x.1.(shape) = g.(shape)
       ∧ presence instructors x.1 ≤ presence instructors g
       ∧ (x.2 = true → presence instructors x.1 < presence instructors g))
    fst instructors improve_instructor) with (s := (g, false))
    as ([g' ch'] & -> & _ & Hmono); [|done|by eauto].
  intros instructor [g1 ch1] Hin (Hwf1 & Hsh1 & Hle1 & Hlt1).
  simpl in Hwf1, Hsh1, Hle1, Hlt1.
  assert (shape0 g1 = 1) as Hone1 by (unfold shape0 in *; by rewrite Hsh1).
  destruct (improve_instructor_Ok instructors instructor
              (presence instructors g) g1 ch1 Hwf1 Hone1)
    as (g2 & ch2 & Hrun & Hwf2 & Hsh2 & _ & Hle2 & Hlt2); [done..|].
  exists (g2, ch2). simpl. split; [done|]. split.
  { split; [done|]. split; [congruence|done]. }
  unfold improve_instructor, range in Hrun. rewrite Hone1 in Hrun.
  cbn [seq for_in] in Hrun.
  destruct (improve_classroom_present instructors instructor
              (presence instructors g) g1 ch1 Hwf1)
    as (g3 & tr3 & ch3 & Hrun3 & Hmono); [lia|done..|].
  rewrite Hrun3 in Hrun. simpl in Hrun. by injection Hrun as <- <-.
Qed.

Lemma improve_while_present fuel instructors :
  ∀ ch g g', wf_ndarray g → shape0 g = 1 →
    improve_while fuel instructors ch g = Ok g' → no_new_day g g'.
Proof.
  induction fuel as [|fuel IH]; intros ch g g' Hwf Hone; simpl.
  - destruct ch; [done|]. intros [= <-]. apply no_new_day_refl.
  - destruct ch; [|intros [= <-]; apply no_new_day_refl].
    destruct (improve_pass_Ok instructors g Hwf Hone)
      as (g1 & ch1 & Hrun & Hwf1 & Hsh1 & _).
    destruct (improve_pass_present instructors g Hwf Hone)
      as (g2 & ch2 & Hrun2 & Hmono).
    rewrite Hrun in Hrun2. injection Hrun2 as <- <-.
    rewrite Hrun. simpl. intros H. eapply no_new_day_trans; [exact Hmono|].
    apply (IH ch1); [done| |done]. unfold shape0 in *. by rewrite Hsh1.
Qed.

Lemma present_classroom0 a c X d :
  shape0 a = 1 → present a c X d = true → c = 0.
Proof.
  intros Hone (ts & Ht)%present_spec.
  apply taught_in_bounds, in_bounds_spec in Ht. lia.
Qed.



(** ** [improve_results]: a schedule that is already packed *)

Lemma scan_days_days g instructor c tr :
  wf_ndarray g → c < shape0 g →
  for_in (range (shape1 g)) (scan_append g instructor c) [] = Ok tr →
  item0 <$> tr
  = filter (λ d, present g c instructor.(Instructor.id) d = true)
      (range (shape1 g)).
Proof.
  intros Hwf Hc. set (X := Instructor.id instructor).
  destruct (for_in_split
    (λ p tr, item0 <$> tr = filter (λ d, present g c X d = true) p)
    (range (shape1 g)) (scan_append g instructor c) [])
    as (tr' & -> & Hdays).
  - done.
  - intros p d q tr0 Hl Hdays.
    assert (d ∈ range (shape1 g)) as Hd%elem_of_seq.
    { rewrite Hl. apply elem_of_app. right. left. }
    unfold scan_append.
    destruct (scan_day_Ok g instructor c d) as (ts & fr & Hscan & _);
      [done|done|lia|].
    pose proof (scan_day_taught g instructor c d ts fr Hwf Hc
                  ltac:(lia) Hscan) as Hts.
    rewrite Hscan. simpl. eexists; split; [done|].
    rewrite filter_app, filter_cons, filter_nil.
    case_bool_decide as Hlen.
    + rewrite fmap_app, Hdays. simpl. rewrite decide_True; [done|].
      apply present_spec. destruct ts as [|y ts]; [simpl in Hlen; lia|].
      exists y. apply Hts. by left.
    + rewrite decide_False; [by rewrite app_nil_r|].
      intros (y & Hy%Hts)%present_spec.
      destruct ts; [by apply elem_of_nil in Hy|simpl in Hlen; lia].
  - by intros [= <-].
Qed.

Lemma improve_classroom_settled instructor g ch :
  wf_ndarray g → 0 < shape0 g →
  days_present g 0 instructor.(Instructor.id) ≤ 1 →
  ∃ tr, improve_classroom instructor 0 (g, [], ch) = Ok (g, tr, ch).
Proof.
  intros Hwf Hc Hdays. unfold improve_classroom.
  destruct (scan_days_Ok g instructor 0 Hwf Hc) as (tr & Htr & Hok).
  pose proof (scan_days_days g instructor 0 tr Hwf Hc Htr) as Hitems.
  rewrite Htr. simpl.
  assert (length (sorted tr) - 1 = 0) as ->.
  { rewrite sorted_Permutation, length_seq.
    rewrite <-(length_fmap item0), Hitems. unfold days_present in Hdays. lia. }
  simpl. eauto.
Qed.

(** X3.  When no instructor teaches on more than one day, [improve_results]
    has nothing to move: it returns after one turn of [while changed] and the
    grid is as it was. *)
Theorem improve_results_settled (fuel : nat) (st : state) :
  let r := st.(self).(schedule) in
  wf_ndarray (st.(heap) r) → shape0 (st.(heap) r) = 1 →
  Forall (λ instructor,
            days_present (st.(heap) r) 0 instructor.(Instructor.id) ≤ 1)
    st.(self).(instructors) →
  ∃ st', improve_results (S fuel) st = Ok ((), st')
         ∧ st'.(self) = st.(self) ∧ st'.(heap) r = st.(heap) r.
Proof.
  intros r Hwf Hone Hdays.
  assert (improve_pass st.(self).(instructors) (st.(heap) r)
          = Ok (st.(heap) r, false)) as Hpass.
  { unfold improve_pass.
    destruct (for_in_invariant (λ x, x = (st.(heap) r, false))
                st.(self).(instructors) improve_instructor
                (st.(heap) r, false)) as (x & -> & ->); [done| |done].
    intros instructor x Hin ->. unfold improve_instructor, range.
    rewrite Hone. cbn [seq for_in].
    destruct (improve_classroom_settled instructor (st.(heap) r) false Hwf)
      as (tr & ->); [lia| |by eauto].
    by apply (proj1 (Forall_forall _ _) Hdays). }
  exists (update r (st.(heap) r) st). split.
  - unfold improve_results, mbind, M_bind, get_self, deref, lift, assign.
    simpl. fold r. unfold improve_grid. simpl. rewrite Hpass. simpl.
    by destruct fuel.
  - split; [done|]. simpl. by rewrite fn_lookup_insert.
Qed.

Lemma improve_results_settled_witness :
  ∃ st', improve_results 1 (mk_state studio
                              (λ _, mk_ndarray (1, 2, 2)
                                      [None; None; Some yoga0; Some zumba0])
                              1 (λ k, k)) = Ok ((), st')
         ∧ st'.(self) = studio
         ∧ st'.(heap) 0 = mk_ndarray (1, 2, 2)
                            [None; None; Some yoga0; Some zumba0].
Proof.
  apply (improve_results_settled 0
           (mk_state studio
              (λ _, mk_ndarray (1, 2, 2) [None; None; Some yoga0; Some zumba0])
              1 (λ k, k))).
  - reflexivity.
  - reflexivity.
  - repeat constructor.
Defined.

(** ** [get_cost] and the slots of a day *)

Lemma elem_of_day_lessons a c d l :
  l ∈ day_lessons a c d ↔ ∃ ts, cell a (c, d, ts) = Some l.
Proof.
  unfold day_lessons. rewrite list_elem_of_omap. split.
  - intros (ts & _ & H). eauto.
  - intros (ts & H). exists ts. split; [|done].
    apply cell_in_bounds, in_bounds_spec in H. apply elem_of_seq. lia.
Qed.

Lemma present_day_lessons a c X d :
  present a c X d = true
  ↔ ∃ l, l ∈ day_lessons a c d ∧ l.(Lesson.instructor).(Instructor.id) = X.
Proof.
  rewrite present_spec. split.
  - intros (ts & Ht). destruct (cell a (c, d, ts)) as [l|] eqn:Hc; [|done].
    exists l. split; [apply elem_of_day_lessons; eauto|].
    simpl in Ht. by apply bool_decide_eq_true in Ht.
  - intros (l & (ts & Hc)%elem_of_day_lessons & Hid). exists ts.
    rewrite Hc. simpl. by apply bool_decide_eq_true.
Qed.

Lemma omap_bind_list {A B C} (f : B → option C) (g : A → list B) (l : list A) :
  omap f (l ≫= g) = l ≫= (λ x, omap f (g x)).
Proof.
  induction l as [|x l IH]; [done|]. csimpl. by rewrite omap_app, IH.
Qed.

Lemma omap_fmap_list {A B C} (f : B → option C) (g : A → B) (l : list A) :
  omap f (g <$> l) = omap (λ x, f (g x)) l.
Proof. induction l as [|x l IH]; [done|]. csimpl. by rewrite IH. Qed.

Lemma lessons_day_lessons a :
  wf_ndarray a →
  lessons a = c ← range (shape0 a); d ← range (shape1 a); day_lessons a c d.
Proof.
  intros Hwf. unfold lessons. rewrite <-(cell_indices a Hwf), omap_fmap_list.
  unfold indices. rewrite omap_bind_list. apply list_bind_ext; [|done].
  intros c. rewrite omap_bind_list. apply list_bind_ext; [|done].
  intros d. rewrite omap_bind_list. unfold day_lessons.
  induction (range (shape2 a)) as [|ts l IH]; [done|]. csimpl.
  rewrite <-IH. by destruct (cell a (c, d, ts)).
Qed.

Lemma bind_Permutation_ext {A B} (f g : A → list B) (l : list A) :
  (∀ x, x ∈ l → f x ≡ₚ g x) → l ≫= f ≡ₚ l ≫= g.
Proof.
  induction l as [|x l IH]; intros H; [done|]. csimpl.
  rewrite (H x) by left. apply Permutation_app_head, IH.
  intros y Hy. apply H. by right.
Qed.

(** X4.  The time slot of a lesson does not enter the score: two grids that
    hold, for every classroom and day, the same lessons cost the same. *)
Theorem get_cost_ignores_slots self a a' :
  grid_of self a → wf_ndarray a' →
  shape0 a' = shape0 a → shape1 a' = shape1 a →
  (∀ c d, c < shape0 a → d < shape1 a →
          day_lessons a' c d ≡ₚ day_lessons a c d) →
  get_cost self a' = get_cost self a.
Proof.
  intros Hgrid Hwf' Hsh0 Hsh1 Hdays.
  pose proof (grid_wf _ _ Hgrid) as Hwf.
  assert (lessons a' ≡ₚ lessons a) as Hp.
  { rewrite (lessons_day_lessons a Hwf), (lessons_day_lessons a' Hwf').
    rewrite Hsh0, Hsh1. apply bind_Permutation_ext. intros c Hc%elem_of_seq.
    apply bind_Permutation_ext. intros d Hd%elem_of_seq. apply Hdays; lia. }
  assert (grid_of self a') as Hgrid'.
  { destruct Hgrid as [_ H0 H1 Hids]. split; [done|lia|lia|by rewrite Hp]. }
  assert (∀ b b', shape0 b' = shape0 b → shape1 b' = shape1 b →
            (∀ c d, c < shape0 b → d < shape1 b →
                    day_lessons b' c d ≡ₚ day_lessons b c d) →
            ∀ c X d, present b' c X d = true → present b c X d = true)
    as Hpresent.
  { intros b b' H0 H1 Hb c X d Hpr.
    assert (c < shape0 b ∧ d < shape1 b) as [Hc Hd].
    { apply present_spec in Hpr as (ts & Ht).
      apply taught_in_bounds, in_bounds_spec in Ht. lia. }
    apply present_day_lessons in Hpr as (l & Hl & Hid).
    apply present_day_lessons. exists l. split; [|done].
    by rewrite <-(Hb c d Hc Hd). }
  pose proof (Hpresent a a' Hsh0 Hsh1 Hdays) as H1.
  assert (∀ c X d, present a c X d = true → present a' c X d = true) as H2.
  { apply Hpresent; [done|done|]. intros c d Hc Hd. symmetry.
    apply Hdays; lia. }
  rewrite !get_cost_final_score by done. f_equal.
  pose proof (final_score_Permutation _ _ _ Hgrid Hgrid' Hp) as Hdiff.
  assert (instructor_presence_days self a' = instructor_presence_days self a)
    as Hi.
  { apply Nat.le_antisymm; apply instructor_presence_days_le; eauto. }
  assert (classroom_days self a' = classroom_days self a) as Hr.
  { apply Nat.le_antisymm; apply classroom_days_le; eauto. }
  rewrite Hi, Hr in Hdiff. lia.
Qed.

Lemma get_cost_ignores_slots_witness :
  get_cost studio week_late = get_cost studio week.
Proof.
  apply get_cost_ignores_slots.
  - exact grid_of_week.
  - reflexivity.
  - reflexivity.
  - reflexivity.
  - intros c d Hc Hd. change (shape0 week) with 1 in Hc.
    change (shape1 week) with 2 in Hd.
    destruct c as [|c]; [|lia]. destruct d as [|[|d]]; [| |lia];
      vm_compute; reflexivity.
Defined.

(** ** [get_neighbor] and [simulated_annealing] on a grid with no move *)

Lemma get_neighbor_no_move (r : loc) (st : state) :
  wf_ndarray (st.(heap) r) →
  occupied (st.(heap) r) = 0 ∨ occupied (st.(heap) r) = size (st.(heap) r) →
  get_neighbor r st = Raise IndexError.
Proof.
  intros Hwf Hcase. pose proof (length_argwhere_not_None _ Hwf) as Hocc.
  pose proof (length_argwhere_None _ Hwf) as Hfree.
  unfold get_neighbor, mbind, M_bind, deref. simpl.
  destruct (argwhere_not_None (heap st r)) as [|src l] eqn:Hsrc; [done|].
  destruct Hcase as [H0|Hfull]; [simpl in Hocc; lia|].
  destruct (choice_Ok (src :: l) st) as (x & _ & ->); [done|].
  destruct (argwhere_None (heap st r)) as [|dst l'] eqn:Hdst; [done|].
  simpl in Hfree. lia.
Qed.

(** X5.  [get_neighbor] raises [IndexError], from [random.choice] on an empty
    sequence, exactly when the grid has no lesson or no empty cell. *)
Theorem get_neighbor_IndexError (r : loc) (st : state) :
  wf_ndarray (st.(heap) r) →
  get_neighbor r st = Raise IndexError
  ↔ occupied (st.(heap) r) = 0 ∨ occupied (st.(heap) r) = size (st.(heap) r).
Proof.
  intros Hwf. split; [|by apply get_neighbor_no_move].
  intros Hraise. pose proof (length_argwhere_None _ Hwf) as Hfree.
  destruct (decide (occupied (st.(heap) r) = 0)) as [?|Hne]; [by left|].
  right. destruct (decide (occupied (heap st r) = size (heap st r)))
    as [?|Hne']; [done|].
  destruct (get_neighbor_Ok r st Hwf) as (? & ? & ? & ? & Hok & _);
    [lia|lia|]. by rewrite Hok in Hraise.
Qed.

Lemma get_neighbor_IndexError_witness :
  get_neighbor 0 studio_empty = Raise IndexError
  ↔ occupied (empty_grid 1 2 2) = 0
    ∨ occupied (empty_grid 1 2 2) = size (empty_grid 1 2 2).
Proof. apply (get_neighbor_IndexError 0 studio_empty). reflexivity. Defined.

Section Annealing_frame.

Variable metropolis : nat → Z → Q → bool.

Lemma sa_init_eq initial_temp st v :
  let g := st.(heap) st.(self).(schedule) in
  get_cost st.(self) g = Ok v →
  sa_init initial_temp st
  = Ok (mk_sa_state st.(next) (S st.(next)) initial_temp v v 0 0,
        allocate g (allocate g st)).
Proof.
  intros g Hcost. unfold sa_init.
  unfold mbind at 1, M_bind at 1, get_self at 1.
  unfold mbind at 1, M_bind at 1, deepcopy at 1.
  unfold mbind at 1, M_bind at 1, deepcopy at 1.
  fold g. set (st1 := allocate _ (allocate g st)).
  assert (heap st1 (next st) = g) as H1.
  { unfold st1. simpl. rewrite fn_lookup_insert_ne by lia.
    by rewrite fn_lookup_insert. }
  assert (heap st1 (S (next st)) = g) as H2.
  { unfold st1. simpl. by rewrite !fn_lookup_insert. }
  assert (∀ r, heap st1 r = g → get_cost_at r st1 = Ok (v, st1)) as Hc.
  { intros r Hr. rewrite get_cost_at_eq, Hr.
    change (self st1) with (self st). by rewrite Hcost. }
  simpl next.
  rewrite (bind_M_eq _ _ _ _ _ (Hc _ H1)), (bind_M_eq _ _ _ _ _ (Hc _ H2)).
  unfold st1. simpl. by rewrite fn_lookup_insert.
Qed.

Lemma sa_frame_init initial_temp st v :
  let g := st.(heap) st.(self).(schedule) in
  wf_ndarray g →
  sa_frame st g (allocate g (allocate g st))
    (mk_sa_state st.(next) (S st.(next)) initial_temp v v 0 0).
Proof.
  intros g Hwf. split; simpl; rewrite ?fn_lookup_insert; try done; try lia.
  - by rewrite fn_lookup_insert_ne, fn_lookup_insert by lia.
  - by rewrite fn_lookup_insert_ne, fn_lookup_insert by lia.
  - by rewrite fn_lookup_insert_ne, fn_lookup_insert by lia.
  - intros r Hr. by rewrite !fn_lookup_insert_ne by lia.
Qed.

Lemma sa_iteration_frame st0 g s st s' st' :
  sa_iteration metropolis s st = Ok (s', st') →
  s.(best_solution) ≠ s.(current_solution) →
  sa_frame st0 g st s →
  sa_frame st0 g st' s' ∧ s'.(best_solution) ≠ s'.(current_solution).
Proof.
  intros (st1 & nc & Hn & Hc & Hcases)%sa_iteration_inv Hd
    [Hcur Hbest Hcw Hcs Hcl Hbw Hbs Hbl Hold Hself].
  pose proof (get_neighbor_inv _ _ _ _ Hn)
    as (src & dst & a1 & a2 & _ & Hst1 & Hsrc & Hdst & H1 & H2).
  pose proof (get_neighbor_moved _ _ _ _ _ _ Hcw Hsrc Hdst H1 H2)
    as (Hwf2 & Hsh2 & _ & _ & _ & Hp2).
  apply get_neighbor_frame in Hn as (_ & Hself1 & Hnext & Hheap).
  assert (heap st1 (current_solution s) = a2) as Ha2
    by (rewrite Hst1; simpl; by rewrite fn_lookup_insert).
  assert (sa_frame st0 g st1
            (mk_sa_state s.(current_solution) s.(best_solution)
               s.(current_temp) nc s.(best_cost) s.(counter)
               (S s.(total_counter)))) as Hframe.
  { split; simpl; rewrite ?Hnext, ?(Hheap _ Hd), ?Ha2; try done.
    - congruence.
    - by rewrite Hp2.
    - intros r Hr. rewrite Hheap by lia. by apply Hold.
    - congruence. }
  destruct Hcases as [(? & -> & ->)|[(? & -> & ->)|[(? & ? & -> & ->)|(? & ? & -> & ->)]]].
  - destruct Hframe as [? ? Hcw1 Hcs1 Hcl1 ? ? ? Hold1 ?]. simpl in *.
    split; [|lia]. split; simpl; rewrite ?fn_lookup_insert; try done; try lia;
      rewrite ?fn_lookup_insert_ne by lia; try done.
    intros r Hr. rewrite fn_lookup_insert_ne by lia. by apply Hold1.
  - done.
  - split; [|done]. by destruct Hframe.
  - split; [|done]. destruct Hframe. by split.
Qed.

Lemma sa_epoch_frame st0 g alpha epsilon n s st s' st' :
  sa_epoch metropolis alpha epsilon n s st = Ok (s', st') →
  s.(best_solution) ≠ s.(current_solution) ∧ sa_frame st0 g st s →
  s'.(best_solution) ≠ s'.(current_solution) ∧ sa_frame st0 g st' s'.
Proof.
  unfold sa_epoch. intros H Hs.
  apply bind_M_Ok in H as (s1 & st1 & H1 & [= <- <-]). simpl.
  pose proof (for_inM_invariant
    (λ s st, s.(best_solution) ≠ s.(current_solution) ∧ sa_frame st0 g st s)
    _ _ _ _ _ _
    (λ _ s st s' st' Hrun Hi,
       let '(conj Hd Hf) := Hi in
       let '(conj Hf' Hd') := sa_iteration_frame st0 g s st s' st' Hrun Hd Hf in
       conj Hd' Hf') H1 Hs) as [Hd []].
  split; [done|]. by split.
Qed.

Lemma sa_while_frame st0 g fuel alpha min_temp epsilon n m :
  ∀ s st s' st',
    sa_while metropolis fuel alpha min_temp epsilon n m s st = Ok (s', st') →
    s.(best_solution) ≠ s.(current_solution) ∧ sa_frame st0 g st s →
    s'.(best_solution) ≠ s'.(current_solution) ∧ sa_frame st0 g st' s'.
Proof.
  induction fuel as [|fuel IH]; intros s st s' st' H Hs; simpl in H.
  - destruct (sa_continue min_temp m s); [done|]. by injection H as <- <-.
  - destruct (sa_continue min_temp m s); [|by injection H as <- <-].
    apply bind_M_Ok in H as (s1 & st1 & H1 & H).
    eapply IH; [exact H|]. by eapply sa_epoch_frame.
Qed.

(** X6.  [simulated_annealing] works on copies.  When a run on the schedule's
    own grid returns, [self.schedule] is an array created by the run; it holds
    the lessons of the starting grid, each one as it was, in a grid of the
    same shape; and every array that existed before the run, the starting grid
    among them, is as it was. *)
Theorem simulated_annealing_keeps_lessons fuel alpha initial_temp n min_temp
    epsilon m st x st' :
  let g := st.(heap) st.(self).(schedule) in
  wf_ndarray g →
  simulated_annealing metropolis fuel alpha initial_temp n min_temp epsilon m
    true st = Ok (x, st') →
  st.(next) ≤ st'.(self).(schedule)
  ∧ (st'.(heap) st'.(self).(schedule)).(shape) = g.(shape)
  ∧ lessons (st'.(heap) st'.(self).(schedule)) ≡ₚ lessons g
  ∧ ∀ r, r < st.(next) → st'.(heap) r = st.(heap) r.
Proof.
  intros g Hwf H.
  apply simulated_annealing_inv
    in H as (st0 & s0 & st1 & s1 & st2 & -> & Hinit & Hwhile & _ & ->).
  pose proof (sa_init_facts _ _ _ _ Hinit) as (_ & _ & _ & Hcost).
  rewrite (sa_init_eq initial_temp st _ Hcost) in Hinit.
  injection Hinit as Hs0 <-. rewrite <-Hs0 in Hwhile.
  eapply sa_while_frame in Hwhile as (_ & [? Hbest _ _ _ _ Hbs Hbl Hold _]).
  2: { split; [simpl; lia|]. by apply sa_frame_init. }
  simpl. split; [lia|]. done.
Qed.

End Annealing_frame.

Lemma simulated_annealing_keeps_lessons_witness :
  let st' := (result_of (simulated_annealing coin 10 (1 # 2) (4 # 1) 2 (1 # 1)
                           (1 # 100) 5 true studio_state)
                ((0%Z, 0), studio_state)).2 in
  1 ≤ st'.(self).(schedule)
  ∧ (st'.(heap) st'.(self).(schedule)).(shape) = (1, 2, 2)
  ∧ lessons (st'.(heap) st'.(self).(schedule)) ≡ₚ [zumba0; yoga0]
  ∧ ∀ r, r < 1 → st'.(heap) r = week.
Proof.
  apply (simulated_annealing_keeps_lessons coin 10 (1 # 2)%Q (4 # 1)%Q 2%Z
           (1 # 1)%Q (1 # 100)%Q 5%Z studio_state ((-190)%Z, 4)).
  - reflexivity.
  - vm_compute. reflexivity.
Defined.

Section Annealing_edges.

Variable metropolis : nat → Z → Q → bool.



End Annealing_edges.


Lemma grid_of_empty_grid : grid_of studio (empty_grid 1 2 2).
Proof. split; [reflexivity|compute; lia|compute; lia|constructor]. Defined.



(** ** [generate_random_schedule]: one lesson *)

Lemma bind_M_Raise {A B} (m : M A) (f : A → M B) st e :
  m st = Raise e → (x ← m; f x) st = Raise e.
Proof. unfold mbind, M_bind. by intros ->. Qed.

Lemma range3_single start n : start < n → range3 start n n = [start].
Proof.
  intros Hlt. unfold range3.
  assert ((n - start + (n - 1)) / n = 1) as ->.
  { symmetry. apply (Nat.div_unique _ _ 1 (n - 1 - start)); lia. }
  simpl. f_equal. lia.
Qed.

Lemma lookup_delete_elem {A} (l : list A) k x :
  x ∈ delete k l → x ∈ l.
Proof.
  revert k. induction l as [|y l IH]; intros [|k]; simpl; try done.
  - by right.
  - intros [->|H]%elem_of_cons; [left|right; by eapply IH].
Qed.

(** The position of the next lesson: an empty cell, which the remaining
    positions no longer include. *)
Lemma pick_slot greedy (d : list (option Lesson.t)) acc k st :
  free_slots greedy d acc k → k < length d →
  ∃ lesson_id acc' st1,
    (if greedy
     then mret (acc.(gen_i), mk_gen_acc (S acc.(gen_i)) acc.(free_ts))
     else
       j ← randint0 (length acc.(free_ts));
       '(x, rest) ← lift (pop acc.(free_ts) j);
       mret (x, mk_gen_acc acc.(gen_i) rest)) st
    = Ok ((lesson_id, acc'), st1)
    ∧ (st1 = st ∨ st1 = tick st)
    ∧ d !! lesson_id = Some None
    ∧ (greedy = true → lesson_id = k)
    ∧ ∀ l, free_slots greedy (<[lesson_id := Some l]> d) acc' (S k).
Proof.
  intros Hfree Hk. destruct greedy; simpl in Hfree.
  - destruct Hfree as [Hi Hnone].
    exists acc.(gen_i), (mk_gen_acc (S acc.(gen_i)) acc.(free_ts)), st.
    split; [done|]. split; [by left|]. split; [apply Hnone; lia|].
    split; [done|]. intros l. simpl. split; [lia|]. intros j Hj.
    rewrite length_insert in Hj. rewrite list_lookup_insert_ne by lia.
    apply Hnone. lia.
  - destruct Hfree as (Hnd & Hnone & Hlen).
    destruct (length acc.(free_ts)) as [|b] eqn:Hb; [lia|].
    set (j := tape st 0 mod S b).
    assert (j < length acc.(free_ts)) as Hj.
    { rewrite Hb. apply Nat.mod_upper_bound. lia. }
    destruct (lookup_lt_is_Some_2 _ _ Hj) as [x Hx].
    exists x, (mk_gen_acc acc.(gen_i) (delete j acc.(free_ts))), (tick st).
    split.
    { change (randint0 (S b)) with (k0 ← draw; mret (k0 mod S b) : M nat).
      unfold mbind, M_bind, mret, M_ret, draw, lift, pop. fold j.
      by rewrite Hx. }
    split; [by right|].
    split; [apply Hnone; by eapply list_elem_of_lookup_2|].
    split; [done|]. intros l. simpl. split; [|split].
    + rewrite <-(take_drop_middle _ _ _ Hx) in Hnd.
      rewrite delete_take_drop. apply NoDup_app in Hnd as (H1 & H2 & H3).
      apply NoDup_cons in H3 as [H3 H4]. apply NoDup_app.
      split; [done|]. split; [|done]. intros y Hy Hy'. apply (H2 y Hy).
      by right.
    + intros y Hy.
      assert (y ≠ x) as Hne.
      { intros ->. rewrite <-(take_drop_middle _ _ _ Hx) in Hnd.
        rewrite delete_take_drop in Hy.
        apply NoDup_app in Hnd as (H1 & H2 & H3).
        apply NoDup_cons in H3 as [H3 H4].
        apply elem_of_app in Hy as [Hy|Hy]; [|done].
        apply (H2 x Hy). by left. }
      rewrite list_lookup_insert_ne by done. apply Hnone.
      by eapply lookup_delete_elem.
    + rewrite length_insert, length_delete by done. lia.
Qed.

Lemma range3_bounds start stop step :
  0 < step → Forall (λ ts, start ≤ ts < stop) (range3 start stop step).
Proof.
  intros Hstep. unfold range3. apply Forall_fmap, Forall_forall.
  intros j Hj%elem_of_seq. simpl.
  assert (j * step < stop - start); [|lia].
  assert (j < (stop - start + (step - 1)) / step) as Hlt by lia.
  pose proof (Nat.Div0.mul_div_le (stop - start + (step - 1)) step). nia.
Qed.

(** The positions that share the weekly slot of the new lesson are empty
    cells: in random mode there is no other position, in greedy mode they
    all lie ahead. *)
Lemma positions_free greedy (d : list (option Lesson.t)) acc k lesson_id
    interval :
  free_slots greedy d acc k → d !! lesson_id = Some None →
  (greedy = true → lesson_id = k) → lesson_id < interval →
  (greedy = false → interval = length d) →
  Forall (λ ts, d !! ts = Some None) (range3 lesson_id (length d) interval).
Proof.
  intros Hfree Hnone Hk Hid Hmode. destruct greedy; simpl in Hfree.
  - destruct Hfree as [_ Hfree]. rewrite <-(Hk eq_refl) in Hfree.
    eapply Forall_impl; [apply range3_bounds; lia|]. simpl.
    intros ts Hts. by apply Hfree.
  - rewrite <-(Hmode eq_refl), range3_single by done. by constructor.
Qed.

Lemma row_not_None_empty a ts :
  a.(data) !! ts = Some None → row_not_None a ts = false.
Proof.
  intros H. unfold row_not_None. by rewrite H.
Qed.

Lemma exclude_busy_free a positions l :
  Forall (λ ts, a.(data) !! ts = Some None) positions →
  exclude_busy a positions l = Ok l.
Proof.
  unfold exclude_busy. induction 1 as [|ts p Hts _ IH]; [done|].
  cbn [for_in]. rewrite (row_not_None_empty _ _ Hts). exact IH.
Qed.

Lemma lift_eq {A} (m : outcome A) a st : m = Ok a → lift m st = Ok (a, st).
Proof. by intros ->. Qed.

Lemma py_mod_small a b : a < b → py_mod a b = Ok a.
Proof.
  intros Hlt. destruct b as [|b]; [lia|]. unfold py_mod.
  by rewrite Nat.mod_small.
Qed.


(** ** [generate_random_schedule]: the groups *)

Lemma groups_nil s lesson_type :
  0 < s.(max_clients_per_training) →
  requests s lesson_type = [] → groups s lesson_type = [].
Proof.
  intros Hm Hnil. unfold groups. rewrite Hnil. simpl.
  rewrite Nat.div_small by lia. done.
Qed.

Lemma groups_length s lesson_type :
  0 < s.(max_clients_per_training) → requests s lesson_type ≠ [] →
  0 < length (groups s lesson_type).
Proof.
  intros Hm Hne. unfold groups, range. rewrite length_fmap, length_seq.
  destruct (requests s lesson_type) as [|x P]; [done|]. simpl.
  apply Nat.div_str_pos. lia.
Qed.

Lemma concat_chunks {A} (P : list A) m n :
  mjoin ((λ i, take m (drop (i * m) P)) <$> seq 0 n) = take (n * m) P.
Proof.
  induction n as [|n IH]; [reflexivity|].
  rewrite seq_S, fmap_app, join_app, IH. simpl. rewrite app_nil_r.
  rewrite take_take_drop. f_equal. lia.
Qed.

Lemma ceil_mul_ge a m : 0 < m → a ≤ (a + (m - 1)) / m * m.
Proof.
  intros Hm. pose proof (Nat.div_mod_eq (a + (m - 1)) m) as Hdm.
  pose proof (Nat.mod_upper_bound (a + (m - 1)) m ltac:(lia)). nia.
Qed.

Lemma ceil_pred_lt a m i : 0 < m → i < (a + (m - 1)) / m → i * m < a.
Proof.
  intros Hm Hi.
  pose proof (Nat.Div0.mul_div_le (a + (m - 1)) m) as Hle. nia.
Qed.

Lemma groups_participants s lesson_type :
  0 < s.(max_clients_per_training) →
  mjoin ((groups s lesson_type).*2) = requests s lesson_type.
Proof.
  intros Hm. unfold groups, range. rewrite <-list_fmap_compose.
  unfold compose, group. simpl. rewrite concat_chunks.
  apply take_ge. by apply ceil_mul_ge.
Qed.

Lemma groups_sizes s lesson_type :
  0 < s.(max_clients_per_training) →
  Forall (λ g, g.1 = lesson_type
               ∧ 1 ≤ length g.2 ≤ s.(max_clients_per_training))
    (groups s lesson_type).
Proof.
  intros Hm. unfold groups. apply Forall_fmap, Forall_forall.
  intros i Hi%elem_of_seq. simpl. split; [done|].
  rewrite length_take, length_drop.
  pose proof (ceil_pred_lt (length (requests s lesson_type))
                s.(max_clients_per_training) i Hm ltac:(lia)). lia.
Qed.

Lemma planned_filter s lesson_type lesson_types :
  0 < s.(max_clients_per_training) → NoDup lesson_types →
  filter (λ g, g.1 = lesson_type) (planned s lesson_types)
  = if decide (lesson_type ∈ lesson_types) then groups s lesson_type else [].
Proof.
  intros Hm. unfold planned.
  induction 1 as [|lt lts Hlt Hnd IH]; [done|]. csimpl.
  rewrite filter_app, IH.
  pose proof (groups_sizes s lt Hm) as Hg.
  destruct (decide (lt = lesson_type)) as [->|Hne].
  - rewrite (decide_False (P := lesson_type ∈ lts)) by done.
    rewrite (decide_True (P := lesson_type ∈ lesson_type :: lts)) by left.
    rewrite app_nil_r. clear IH.
    induction Hg as [|g l [Hg1 _] _ IH]; [done|].
    rewrite filter_cons, decide_True by done. by rewrite IH.
  - assert (filter (λ g, g.1 = lesson_type) (groups s lt) = []) as ->.
    { clear IH. induction Hg as [|g l [Hg1 _] _ IH]; [done|].
      rewrite filter_cons, decide_False by congruence. done. }
    simpl. destruct (decide (lesson_type ∈ lts)) as [Hin|Hout].
    + by rewrite decide_True by (by right).
    + rewrite decide_False; [done|]. by intros [?|?]%elem_of_cons.
Qed.

Lemma LessonType_members_all lesson_type :
  NoDup LessonType_members ∧ lesson_type ∈ LessonType_members.
Proof.
  split.
  - apply (bool_decide_unpack _). vm_compute. exact I.
  - destruct lesson_type; apply (bool_decide_unpack _); vm_compute; exact I.
Qed.

Lemma attending_groups lesson_type (l : list Lesson.t) :
  attending lesson_type l
  = mjoin ((filter (λ g, g.1 = lesson_type) (group_of <$> l)).*2).
Proof.
  unfold attending. induction l as [|x l IH]; [done|].
  rewrite fmap_cons, !filter_cons. simpl.
  destruct (decide (Lesson.lesson_type x = lesson_type)); csimpl;
    by rewrite IH.
Qed.

Lemma gen_inv_init greedy st :
  let a := st.(heap) st.(self).(schedule) in
  occupied a = 0 →
  gen_inv greedy st [] st (mk_gen_acc 0 (range (length a.(data)))).
Proof.
  intros a Hocc. apply length_zero_iff_nil in Hocc.
  assert (∀ j, j < length a.(data) → a.(data) !! j = Some None) as Hnone.
  { intros j Hj. destruct (lookup_lt_is_Some_2 _ _ Hj) as [[l|] Hl]; [|done].
    assert (l ∈ lessons a) as Hin; [|rewrite Hocc in Hin;
                                      by apply elem_of_nil in Hin].
    apply list_elem_of_omap. exists (Some l). split; [|done].
    by eapply list_elem_of_lookup_2. }
  split; try done.
  - fold a. by rewrite Hocc.
  - fold a. by rewrite Hocc.
  - fold a. destruct greedy; simpl.
    + split; [done|]. intros j Hj. apply Hnone. lia.
    + split; [apply NoDup_seq|]. split.
      * intros j Hj%elem_of_seq. apply Hnone. lia.
      * unfold range. rewrite length_seq. lia.
Qed.

Section Generation.

(** The generator was started in the store [st0], on a grid of [N] cells;
    [day * time_slot] cells make a classroom.  In random mode the grid has
    one classroom. *)
Variable greedy : bool.
Variable st0 : state.
Let s := st0.(self).
Let N := length (st0.(heap) s.(schedule)).(data).
Hypothesis Hinterval : s.(day) * s.(time_slot) ≤ N.
Hypothesis Hmode : greedy = false → s.(day) * s.(time_slot) = N.

Lemma place_training_Ok placed lesson_type training ins st acc :
  gen_inv greedy st0 placed st acc →
  length placed < s.(day) * s.(time_slot) → ins ≠ [] →
  Forall (λ i, i ∈ qualified s lesson_type) ins →
  ∃ acc' st',
    place_training greedy lesson_type (requests s lesson_type) training
      (ins, acc) st = Ok ((ins, acc'), st')
    ∧ gen_inv greedy st0 (placed ++ [group s lesson_type training]) st' acc'.
Proof.
  intros [Hself Hnext Hframe Hshape Hlen Hgroups Hqual Hfree] Hroom Hins Hsub.
  fold s in Hframe, Hshape, Hlen, Hgroups, Hqual, Hfree. fold N in Hlen.
  set (a := st.(heap) s.(schedule)) in *.
  destruct (pick_slot greedy a.(data) acc (length placed) st Hfree)
    as (lesson_id & acc' & st1 & Hpick & Hst1 & Hnone & Hk & Hfree'); [lia|].
  assert (lesson_id < s.(day) * s.(time_slot)) as Hid.
  { destruct greedy; [by rewrite Hk|].
    rewrite (Hmode eq_refl), <-Hlen. by eapply lookup_lt_Some. }
  assert (self st1 = s ∧ heap st1 = heap st ∧ next st1 = next st)
    as (Hself1 & Hheap1 & Hnext1) by (by destruct Hst1 as [->| ->]).
  destruct (choice_Ok ins st1 Hins) as (instructor & Hin & Hchoice).
  set (participants :=
         take s.(max_clients_per_training)
           (drop (training * s.(max_clients_per_training))
              (requests s lesson_type))).
  set (lesson := Lesson.mk instructor lesson_type participants).
  set (a' := mk_ndarray a.(shape) (<[lesson_id := Some lesson]> a.(data))).
  exists acc', (update s.(schedule) a' (tick st1)). split.
  - unfold place_training.
    rewrite (bind_M_eq get_self _ st (self st) st eq_refl).
    rewrite Hself. fold s. rewrite (bind_M_eq _ _ _ _ _ Hpick).
    cbn beta iota zeta.
    rewrite (bind_M_eq (deref _) _ st1 a st1)
      by (unfold deref; by rewrite Hheap1).
    rewrite (bind_M_eq (lift _) _ st1 lesson_id st1)
      by (apply lift_eq, py_mod_small; lia).
    rewrite (bind_M_eq (lift _) _ st1 ins st1).
    2: { apply lift_eq, exclude_busy_free.
         apply (positions_free greedy _ acc (length placed)); try done.
         intros Hg. rewrite (Hmode Hg). by rewrite Hlen. }
    rewrite (bind_M_eq _ _ _ _ _ Hchoice).
    rewrite (bind_M_eq (lift _) _ (tick st1) a' (tick st1)).
    2: { apply lift_eq. unfold set_row. rewrite bool_decide_eq_true_2; [done|].
         by eapply lookup_lt_Some. }
    done.
  - split; simpl; rewrite ?fn_lookup_insert; fold s; try done.
    + congruence.
    + intros r Hr. rewrite fn_lookup_insert_ne by done.
      rewrite Hheap1. by apply Hframe.
    + unfold a'. simpl. by rewrite length_insert.
    + unfold a', lessons. simpl. rewrite (lessons_insert_Some _ _ _ Hnone).
      rewrite fmap_cons. fold (lessons a). rewrite Hgroups.
      by rewrite <-Permutation_cons_append.
    + unfold a', lessons. simpl. rewrite (lessons_insert_Some _ _ _ Hnone).
      constructor; [|done]. simpl.
      by apply (proj1 (Forall_forall _ _) Hsub).
    + rewrite length_app, Nat.add_1_r. apply Hfree'.
Qed.

Lemma place_trainings_Ok lesson_type ins trs :
  (trs ≠ [] → ins ≠ []) →
  Forall (λ i, i ∈ qualified s lesson_type) ins →
  ∀ placed st acc,
    gen_inv greedy st0 placed st acc →
    length placed + length trs ≤ s.(day) * s.(time_slot) →
    ∃ acc' st',
      for_inM trs (place_training greedy lesson_type (requests s lesson_type))
        (ins, acc) st = Ok ((ins, acc'), st')
      ∧ gen_inv greedy st0 (placed ++ (group s lesson_type <$> trs)) st' acc'.
Proof.
  intros Hins Hsub.
  induction trs as [|training trs IH]; intros placed st acc Hinv Hroom.
  - exists acc, st. split; [done|]. by rewrite app_nil_r.
  - simpl in Hroom.
    destruct (place_training_Ok placed lesson_type training ins st acc Hinv)
      as (acc1 & st1 & Hrun & Hinv1); [lia|by apply Hins|done|].
    simpl. rewrite (bind_M_eq _ _ _ _ _ Hrun).
    destruct (IH ltac:(intros _; by apply Hins) _ st1 acc1 Hinv1)
      as (acc' & st' & Hrun' & Hinv').
    { rewrite length_app. simpl. lia. }
    exists acc', st'. split; [done|].
    by rewrite (cons_middle _ placed), (assoc_L (++)).
Qed.

Lemma place_lesson_type_Ok lesson_type placed st acc :
  0 < s.(max_clients_per_training) →
  (requests s lesson_type ≠ [] → qualified s lesson_type ≠ []) →
  gen_inv greedy st0 placed st acc →
  length placed + length (groups s lesson_type) ≤ s.(day) * s.(time_slot) →
  ∃ acc' st',
    place_lesson_type greedy lesson_type acc st = Ok (acc', st')
    ∧ gen_inv greedy st0 (placed ++ groups s lesson_type) st' acc'.
Proof.
  intros Hm Hins Hinv Hroom.
  pose proof (gen_self _ _ _ _ _ Hinv) as Hself. fold s in Hself.
  destruct (place_trainings_Ok lesson_type (qualified s lesson_type)
              (range ((length (requests s lesson_type)
                       + (s.(max_clients_per_training) - 1))
                      / s.(max_clients_per_training))))
    with (placed := placed) (st := st) (acc := acc)
    as (acc' & st' & Hrun & Hinv'); [| |done|..].
  - intros Hne. apply Hins. intros Hnil. apply Hne.
    pose proof (groups_nil s lesson_type Hm Hnil) as Hg. unfold groups in Hg.
    by apply fmap_nil_inv in Hg.
  - by apply Forall_forall.
  - unfold groups in Hroom. by rewrite length_fmap in Hroom.
  - exists acc', st'. split; [|done]. unfold place_lesson_type.
    rewrite (bind_M_eq get_self _ st (self st) st eq_refl), Hself.
    fold (requests s lesson_type) (qualified s lesson_type).
    rewrite (bind_M_eq (lift _) _ st
               ((length (requests s lesson_type)
                 + (s.(max_clients_per_training) - 1))
                / s.(max_clients_per_training)) st).
    2: { apply lift_eq. unfold ceil_div.
         destruct (max_clients_per_training s) eqn:Hmax; [lia|done]. }
    by rewrite (bind_M_eq _ _ _ _ _ Hrun).
Qed.

Lemma place_lesson_types_Ok lesson_types :
  0 < s.(max_clients_per_training) →
  (∀ lesson_type, requests s lesson_type ≠ [] → qualified s lesson_type ≠ []) →
  ∀ placed st acc,
    gen_inv greedy st0 placed st acc →
    length placed + length (planned s lesson_types)
    ≤ s.(day) * s.(time_slot) →
    ∃ acc' st',
      for_inM lesson_types (place_lesson_type greedy) acc st = Ok (acc', st')
      ∧ gen_inv greedy st0 (placed ++ planned s lesson_types) st' acc'.
Proof.
  intros Hm Hins.
  induction lesson_types as [|lesson_type lts IH];
    intros placed st acc Hinv Hroom.
  - exists acc, st. split; [done|]. by rewrite app_nil_r.
  - unfold planned in Hroom. csimpl in Hroom. rewrite length_app in Hroom.
    destruct (place_lesson_type_Ok lesson_type placed st acc Hm
                (Hins lesson_type) Hinv)
      as (acc1 & st1 & Hrun & Hinv1); [lia|].
    simpl. rewrite (bind_M_eq _ _ _ _ _ Hrun).
    destruct (IH _ st1 acc1 Hinv1) as (acc' & st' & Hrun' & Hinv').
    { rewrite length_app. unfold planned. lia. }
    exists acc', st'. split; [done|].
    unfold planned. csimpl. by rewrite (assoc_L (++)).
Qed.

(** *** No instructor *)

Lemma place_training_IndexError placed lesson_type training st acc :
  gen_inv greedy st0 placed st acc →
  length placed < s.(day) * s.(time_slot) →
  place_training greedy lesson_type (requests s lesson_type) training
    ([], acc) st = Raise IndexError.
Proof.
  intros [Hself Hnext Hframe Hshape Hlen Hgroups Hqual Hfree] Hroom.
  fold s in Hframe, Hshape, Hlen, Hgroups, Hqual, Hfree. fold N in Hlen.
  set (a := st.(heap) s.(schedule)) in *.
  destruct (pick_slot greedy a.(data) acc (length placed) st Hfree)
    as (lesson_id & acc' & st1 & Hpick & Hst1 & Hnone & Hk & Hfree'); [lia|].
  assert (lesson_id < s.(day) * s.(time_slot)) as Hid.
  { destruct greedy; [by rewrite Hk|].
    rewrite (Hmode eq_refl), <-Hlen. by eapply lookup_lt_Some. }
  assert (self st1 = s ∧ heap st1 = heap st ∧ next st1 = next st)
    as (Hself1 & Hheap1 & Hnext1) by (by destruct Hst1 as [->| ->]).
  unfold place_training.
  rewrite (bind_M_eq get_self _ st (self st) st eq_refl).
  rewrite Hself. fold s. rewrite (bind_M_eq _ _ _ _ _ Hpick).
  cbn beta iota zeta.
  rewrite (bind_M_eq (deref _) _ st1 a st1)
    by (unfold deref; by rewrite Hheap1).
  rewrite (bind_M_eq (lift _) _ st1 lesson_id st1)
    by (apply lift_eq, py_mod_small; lia).
  rewrite (bind_M_eq (lift _) _ st1 [] st1).
  2: { apply lift_eq, exclude_busy_free.
       apply (positions_free greedy _ acc (length placed)); try done.
       intros Hg. rewrite (Hmode Hg). by rewrite Hlen. }
  done.
Qed.

Lemma place_lesson_type_IndexError lesson_type placed st acc :
  0 < s.(max_clients_per_training) →
  requests s lesson_type ≠ [] → qualified s lesson_type = [] →
  gen_inv greedy st0 placed st acc →
  length placed < s.(day) * s.(time_slot) →
  place_lesson_type greedy lesson_type acc st = Raise IndexError.
Proof.
  intros Hm Hreq Hnone Hinv Hroom.
  pose proof (gen_self _ _ _ _ _ Hinv) as Hself. fold s in Hself.
  unfold place_lesson_type.
  rewrite (bind_M_eq get_self _ st (self st) st eq_refl), Hself.
  fold (requests s lesson_type) (qualified s lesson_type).
  rewrite (bind_M_eq (lift _) _ st
             ((length (requests s lesson_type)
               + (s.(max_clients_per_training) - 1))
              / s.(max_clients_per_training)) st).
  2: { apply lift_eq. unfold ceil_div.
       destruct (max_clients_per_training s) eqn:Hmax; [lia|done]. }
  apply bind_M_Raise. rewrite Hnone.
  pose proof (groups_length s lesson_type Hm Hreq) as Hlen.
  unfold groups, range in Hlen. rewrite length_fmap, length_seq in Hlen.
  unfold range.
  destruct ((length (requests s lesson_type)
             + (max_clients_per_training s - 1))
            / max_clients_per_training s) as [|n]; [lia|].
  cbn [seq for_inM]. apply bind_M_Raise.
  by apply (place_training_IndexError placed).
Qed.

Lemma place_lesson_types_IndexError lesson_types :
  0 < s.(max_clients_per_training) →
  Exists (λ lesson_type, requests s lesson_type ≠ []
                         ∧ qualified s lesson_type = []) lesson_types →
  ∀ placed st acc,
    gen_inv greedy st0 placed st acc →
    length placed + length (planned s lesson_types)
    ≤ s.(day) * s.(time_slot) →
    for_inM lesson_types (place_lesson_type greedy) acc st = Raise IndexError.
Proof.
  intros Hm.
  induction lesson_types as [|lesson_type lts IH];
    intros Hbad placed st acc Hinv Hroom; [by apply Exists_nil in Hbad|].
  unfold planned in Hroom. csimpl in Hroom. rewrite length_app in Hroom.
  simpl.
  destruct (decide (requests s lesson_type ≠ []
                    ∧ qualified s lesson_type = [])) as [[Hreq Hnone]|Hgood].
  - apply bind_M_Raise.
    apply (place_lesson_type_IndexError lesson_type placed); try done.
    pose proof (groups_length s lesson_type Hm Hreq). lia.
  - apply Exists_cons in Hbad as [Hbad|Hbad]; [done|].
    destruct (place_lesson_type_Ok lesson_type placed st acc Hm)
      as (acc1 & st1 & Hrun & Hinv1); [|done|lia|].
    { intros Hreq Hnone. apply Hgood. done. }
    rewrite (bind_M_eq _ _ _ _ _ Hrun).
    apply (IH Hbad _ st1 acc1 Hinv1). rewrite length_app.
    unfold planned. lia.
Qed.

End Generation.

(** *** No room *)

Lemma place_training_ValueError st0 placed lesson_type training ins st acc :
  let s := st0.(self) in
  gen_inv false st0 placed st acc →
  length placed = length (st0.(heap) s.(schedule)).(data) →
  place_training false lesson_type (requests s lesson_type) training
    (ins, acc) st = Raise ValueError.
Proof.
  intros s [Hself _ _ _ Hlen _ _ Hfree] Hfull. simpl in Hfree.
  destruct Hfree as (_ & _ & Hfree). fold s in Hlen, Hfree.
  unfold place_training.
  rewrite (bind_M_eq get_self _ st (self st) st eq_refl).
  apply bind_M_Raise. apply bind_M_Raise.
  assert (length (free_ts acc) = 0) as -> by lia. done.
Qed.

Lemma omap_id_length_le {A} (l : list (option A)) :
  length (omap id l) ≤ length l.
Proof. induction l as [|[x|] l IH]; csimpl; lia. Qed.

Lemma omap_id_full {A} (l : list (option A)) :
  length l ≤ length (omap id l) → Forall is_Some l.
Proof.
  induction l as [|[x|] l IH]; csimpl; intros Hlen.
  - constructor.
  - constructor; [done|]. apply IH. lia.
  - pose proof (omap_id_length_le l). lia.
Qed.

(** In greedy mode the lessons placed so far fill the first positions. *)
Lemma greedy_prefix st0 placed st acc j :
  gen_inv true st0 placed st acc → j < length placed →
  row_not_None (st.(heap) st0.(self).(schedule)) j = true.
Proof.
  intros [_ _ _ _ _ Hgroups _ [_ Hfree]] Hj.
  unfold row_not_None.
  set (d := (st.(heap) st0.(self).(schedule)).(data)) in *.
  assert (length (omap id d) = length placed) as Hlen
    by (by rewrite <-Hgroups, length_fmap).
  assert (omap id (drop (length placed) d) = []) as Hdrop.
  { destruct (omap id (drop _ d)) as [|x l] eqn:Hx; [done|].
    assert (x ∈ omap id (drop (length placed) d)) as Hin by (rewrite Hx; left).
    apply list_elem_of_omap in Hin as (y & Hy & Hyx).
    apply list_elem_of_lookup in Hy as (i & Hi).
    rewrite lookup_drop in Hi. rewrite Hfree in Hi.
    - injection Hi as <-. done.
    - apply lookup_lt_Some in Hi. lia. }
  rewrite <-(take_drop (length placed) d), omap_app, Hdrop, app_nil_r in Hlen.
  pose proof (omap_id_length_le (take (length placed) d)) as Hle.
  rewrite Hlen, length_take in Hle.
  assert (Forall is_Some (take (length placed) d)) as Hfull.
  { apply omap_id_full. rewrite Hlen, length_take. lia. }
  destruct (lookup_lt_is_Some_2 (take (length placed) d) j) as [x Hx].
  { rewrite length_take. lia. }
  pose proof (Forall_lookup_1 _ _ _ _ Hfull Hx) as [y ->].
  rewrite lookup_take_lt in Hx by done. by rewrite Hx.
Qed.

Lemma place_training_AttributeError st0 placed lesson_type training ins st
    acc :
  let s := st0.(self) in
  0 < s.(day) * s.(time_slot) →
  s.(day) * s.(time_slot) ≤ length (st0.(heap) s.(schedule)).(data) →
  gen_inv true st0 placed st acc →
  length placed = s.(day) * s.(time_slot) →
  place_training true lesson_type (requests s lesson_type) training
    (ins, acc) st = Raise AttributeError.
Proof.
  intros s Hpos Hinterval Hinv Hfull.
  pose proof (greedy_prefix st0 placed st acc 0 Hinv ltac:(lia)) as Hrow.
  destruct Hinv as [Hself _ _ _ Hlen _ _ [Hi _]]. fold s in Hlen, Hrow.
  unfold place_training.
  rewrite (bind_M_eq get_self _ st (self st) st eq_refl).
  rewrite Hself. fold s.
  rewrite (bind_M_eq (mret _) _ st
             (acc.(gen_i), mk_gen_acc (S acc.(gen_i)) acc.(free_ts)) st
             eq_refl).
  cbn beta iota zeta.
  rewrite (bind_M_eq (deref _) _ st (st.(heap) s.(schedule)) st eq_refl).
  rewrite (bind_M_eq (lift _) _ st 0 st).
  2: { apply lift_eq. rewrite Hi, Hfull. unfold py_mod.
       destruct (day s * time_slot s) as [|n] eqn:Hn; [lia|].
       by rewrite Nat.Div0.mod_same. }
  apply bind_M_Raise. unfold lift.
  rewrite (exclude_busy_raise _ _ _ 0); [done| |done].
  unfold range3. apply list_elem_of_fmap. exists 0. split; [lia|].
  apply elem_of_seq. split; [lia|]. simpl.
  apply Nat.div_str_pos. lia.
Qed.

Section Overflow.

(** The loops when the step that finds no room raises [e]. *)
Variable greedy : bool.
Variable st0 : state.
Variable e : exn.
Let s := st0.(self).
Let N := length (st0.(heap) s.(schedule)).(data).
Hypothesis Hinterval : s.(day) * s.(time_slot) ≤ N.
Hypothesis Hmode : greedy = false → s.(day) * s.(time_slot) = N.
Hypothesis Hfull : ∀ placed lesson_type training ins st acc,
  gen_inv greedy st0 placed st acc →
  length placed = s.(day) * s.(time_slot) →
  place_training greedy lesson_type (requests s lesson_type) training
    (ins, acc) st = Raise e.

Lemma place_trainings_overflow lesson_type ins trs :
  ins ≠ [] → Forall (λ i, i ∈ qualified s lesson_type) ins →
  ∀ placed st acc,
    gen_inv greedy st0 placed st acc →
    length placed ≤ s.(day) * s.(time_slot) →
    s.(day) * s.(time_slot) < length placed + length trs →
    for_inM trs (place_training greedy lesson_type (requests s lesson_type))
      (ins, acc) st = Raise e.
Proof.
  intros Hins Hsub.
  induction trs as [|training trs IH]; intros placed st acc Hinv Hle Hgt;
    [simpl in Hgt; lia|].
  simpl in Hgt |- *. apply Nat.lt_eq_cases in Hle as [Hlt|Heq].
  - destruct (place_training_Ok greedy st0 Hinterval Hmode placed lesson_type
                training ins st acc Hinv) as (acc1 & st1 & Hrun & Hinv1);
      [done..|].
    fold s in Hrun. rewrite (bind_M_eq _ _ _ _ _ Hrun).
    apply (IH _ st1 acc1 Hinv1); rewrite length_app; simpl; lia.
  - apply bind_M_Raise. by apply (Hfull placed).
Qed.

Lemma place_lesson_types_overflow lesson_types :
  0 < s.(max_clients_per_training) →
  (∀ lesson_type, requests s lesson_type ≠ [] → qualified s lesson_type ≠ []) →
  ∀ placed st acc,
    gen_inv greedy st0 placed st acc →
    length placed ≤ s.(day) * s.(time_slot) →
    s.(day) * s.(time_slot) < length placed + length (planned s lesson_types) →
    for_inM lesson_types (place_lesson_type greedy) acc st = Raise e.
Proof.
  intros Hm Hins.
  induction lesson_types as [|lesson_type lts IH];
    intros placed st acc Hinv Hle Hgt; [simpl in Hgt; lia|].
  unfold planned in Hgt. csimpl in Hgt. rewrite length_app in Hgt.
  simpl.
  destruct (decide (length placed + length (groups s lesson_type)
                    ≤ s.(day) * s.(time_slot))) as [Hfit|Hover].
  - destruct (place_lesson_type_Ok greedy st0 Hinterval Hmode lesson_type
                placed st acc Hm (Hins lesson_type) Hinv)
      as (acc1 & st1 & Hrun & Hinv1); [done|].
    rewrite (bind_M_eq _ _ _ _ _ Hrun).
    apply (IH _ st1 acc1 Hinv1); rewrite length_app; fold s;
      unfold planned; lia.
  - apply bind_M_Raise. unfold place_lesson_type.
    pose proof (gen_self _ _ _ _ _ Hinv) as Hself. fold s in Hself.
    rewrite (bind_M_eq get_self _ st (self st) st eq_refl), Hself.
    fold (requests s lesson_type) (qualified s lesson_type).
    rewrite (bind_M_eq (lift _) _ st
               ((length (requests s lesson_type)
                 + (s.(max_clients_per_training) - 1))
                / s.(max_clients_per_training)) st).
    2: { apply lift_eq. unfold ceil_div.
         destruct (max_clients_per_training s) eqn:Hmax; [lia|done]. }
    apply bind_M_Raise.
    apply place_trainings_overflow with (placed := placed); try done.
    + apply Hins. intros Hnil.
      rewrite (groups_nil s lesson_type Hm Hnil) in Hover. simpl in Hover.
      lia.
    + by apply Forall_forall.
    + unfold groups in Hover. rewrite length_fmap in Hover. lia.
Qed.

End Overflow.

(** ** [generate_random_schedule]: the whole run *)

Lemma generate_random_schedule_Ok greedy st :
  let s := st.(self) in
  let a := st.(heap) s.(schedule) in
  occupied a = 0 →
  s.(day) * s.(time_slot) ≤ length a.(data) →
  (greedy = false → s.(day) * s.(time_slot) = length a.(data)) →
  0 < s.(max_clients_per_training) →
  length (planned s LessonType_members) ≤ s.(day) * s.(time_slot) →
  (∀ lesson_type, requests s lesson_type ≠ [] → qualified s lesson_type ≠ []) →
  ∃ acc' st',
    generate_random_schedule greedy st = Ok ((), st')
    ∧ gen_inv greedy st (planned s LessonType_members) st' acc'.
Proof.
  intros s a Hocc Hinterval Hmode Hm Hroom Hins.
  destruct (place_lesson_types_Ok greedy st Hinterval Hmode
              LessonType_members Hm Hins [] st
              (mk_gen_acc 0 (range (length a.(data)))))
    as (acc' & st' & Hrun & Hinv); [by apply gen_inv_init|done|].
  exists acc', st'. split; [|done]. unfold generate_random_schedule.
  rewrite (bind_M_eq get_self _ st (self st) st eq_refl).
  rewrite (bind_M_eq (deref _) _ st a st eq_refl).
  fold s a. by rewrite (bind_M_eq _ _ _ _ _ Hrun).
Qed.

(** The grid of a schedule is created with the shape [(class_id, day,
    time_slot)]; on such a grid the [reshape] that ends the generator gives
    back the shape the grid has. *)
Lemma generate_random_schedule_new greedy st :
  let s := st.(self) in
  st.(heap) s.(schedule) = empty_grid s.(class_id) s.(day) s.(time_slot) →
  0 < s.(class_id) → (greedy = false → s.(class_id) = 1) →
  0 < s.(max_clients_per_training) →
  length (planned s LessonType_members) ≤ s.(day) * s.(time_slot) →
  (∀ lesson_type, requests s lesson_type ≠ [] → qualified s lesson_type ≠ []) →
  ∃ acc' st',
    generate_random_schedule greedy st = Ok ((), st')
    ∧ gen_inv greedy st (planned s LessonType_members) st' acc'.
Proof.
  intros s Hgrid Hclass Hmode Hm Hroom Hins.
  assert (length (st.(heap) s.(schedule)).(data)
          = s.(class_id) * (s.(day) * s.(time_slot))) as Hlen.
  { rewrite Hgrid. simpl. rewrite length_replicate. lia. }
  apply generate_random_schedule_Ok; fold s; try done.
  - rewrite Hgrid. unfold occupied, lessons. simpl.
    generalize (class_id s * day s * time_slot s). intros n. by induction n.
  - rewrite Hlen. nia.
  - intros Hg. rewrite Hlen, (Hmode Hg). lia.
Qed.

(** X9.  On the empty grid of a new schedule the generator returns when
    [max_clients_per_training] is positive, there are no more groups than
    [day * time_slot], and every lesson type that a client selected has a
    qualified instructor; in random mode the schedule must have one classroom,
    in greedy mode it may have more.  The grid then holds one lesson for each
    planned group, with that group's lesson type and participants, given by an
    instructor qualified for the type; it has the shape [(class_id, day,
    time_slot)], and no other array has changed. *)
Theorem generate_random_schedule_places (greedy : bool) (st : state) :
  let s := st.(self) in
  st.(heap) s.(schedule) = empty_grid s.(class_id) s.(day) s.(time_slot) →
  0 < s.(class_id) → (greedy = false → s.(class_id) = 1) →
  0 < s.(max_clients_per_training) →
  length (planned s LessonType_members) ≤ s.(day) * s.(time_slot) →
  (∀ lesson_type, requests s lesson_type ≠ [] → qualified s lesson_type ≠ []) →
  ∃ st',
    generate_random_schedule greedy st = Ok ((), st')
    ∧ st'.(self) = s
    ∧ (∀ r, r ≠ s.(schedule) → st'.(heap) r = st.(heap) r)
    ∧ (st'.(heap) s.(schedule)).(shape)
      = (s.(class_id), s.(day), s.(time_slot))
    ∧ group_of <$> lessons (st'.(heap) s.(schedule))
      ≡ₚ planned s LessonType_members
    ∧ Forall (λ l, l.(Lesson.instructor)
                   ∈ qualified s l.(Lesson.lesson_type))
        (lessons (st'.(heap) s.(schedule))).
Proof.
  intros s Hgrid Hclass Hmode Hm Hroom Hins.
  destruct (generate_random_schedule_new greedy st Hgrid Hclass Hmode Hm
              Hroom Hins)
    as (acc' & st' & Hrun & [Hself _ Hframe Hshape _ Hgroups Hqual _]).
  fold s in Hshape. rewrite Hgrid in Hshape.
  exists st'. done.
Qed.

Lemma generate_random_schedule_places_witness :
  ∃ st',
    generate_random_schedule false studio_empty = Ok ((), st')
    ∧ st'.(self) = studio
    ∧ (∀ r, r ≠ 0 → st'.(heap) r = empty_grid 1 2 2)
    ∧ (st'.(heap) 0).(shape) = (1, 2, 2)
    ∧ group_of <$> lessons (st'.(heap) 0)
      ≡ₚ planned studio LessonType_members
    ∧ Forall (λ l, l.(Lesson.instructor)
                   ∈ qualified studio l.(Lesson.lesson_type))
        (lessons (st'.(heap) 0)).
Proof.
  apply (generate_random_schedule_places false studio_empty).
  - reflexivity.
  - simpl. lia.
  - reflexivity.
  - simpl. lia.
  - vm_compute. lia.
  - intros [] H; vm_compute in H |- *; congruence.
Defined.

(** X10.  Under the same conditions every request is served once: for each
    lesson type, the participants of the lessons of that type are, taken
    together, the clients who selected it; and every lesson has at least one
    and at most [max_clients_per_training] participants. *)
Theorem generate_random_schedule_serves (greedy : bool) (st : state) :
  let s := st.(self) in
  st.(heap) s.(schedule) = empty_grid s.(class_id) s.(day) s.(time_slot) →
  0 < s.(class_id) → (greedy = false → s.(class_id) = 1) →
  0 < s.(max_clients_per_training) →
  length (planned s LessonType_members) ≤ s.(day) * s.(time_slot) →
  (∀ lesson_type, requests s lesson_type ≠ [] → qualified s lesson_type ≠ []) →
  ∃ st',
    generate_random_schedule greedy st = Ok ((), st')
    ∧ (∀ lesson_type,
         attending lesson_type (lessons (st'.(heap) s.(schedule)))
         ≡ₚ requests s lesson_type)
    ∧ Forall (λ l, 1 ≤ length l.(Lesson.participants)
                   ≤ s.(max_clients_per_training))
        (lessons (st'.(heap) s.(schedule))).
Proof.
  intros s Hgrid Hclass Hmode Hm Hroom Hins.
  destruct (generate_random_schedule_new greedy st Hgrid Hclass Hmode Hm
              Hroom Hins)
    as (acc' & st' & Hrun & [_ _ _ _ _ Hgroups _ _]).
  fold s in Hgroups. exists st'. split; [done|]. split.
  - intros lesson_type. rewrite attending_groups, Hgroups.
    destruct (LessonType_members_all lesson_type) as [Hnd Hin].
    rewrite (planned_filter _ _ _ Hm Hnd), decide_True by done.
    by rewrite groups_participants.
  - assert (Forall (λ g : LessonType * list Client.t,
                      1 ≤ length g.2 ≤ s.(max_clients_per_training))
              (planned s LessonType_members)) as Hsizes.
    { unfold planned. apply Forall_forall.
      intros g (lt & Hg & _)%list_elem_of_bind.
      by apply (proj1 (Forall_forall _ _) (groups_sizes s lt Hm))
        in Hg as [_ ?]. }
    rewrite <-Hgroups in Hsizes. by apply Forall_fmap in Hsizes.
Qed.

Lemma generate_random_schedule_serves_witness :
  ∃ st',
    generate_random_schedule true
      (fresh (studio_with 2 1 2 5 [instructor0; instructor1])) = Ok ((), st')
    ∧ (∀ lesson_type,
         attending lesson_type (lessons (st'.(heap) 0))
         ≡ₚ requests studio lesson_type)
    ∧ Forall (λ l, 1 ≤ length l.(Lesson.participants) ≤ 5)
        (lessons (st'.(heap) 0)).
Proof.
  apply (generate_random_schedule_serves true
           (fresh (studio_with 2 1 2 5 [instructor0; instructor1]))).
  - reflexivity.
  - simpl. lia.
  - discriminate.
  - simpl. lia.
  - vm_compute. lia.
  - intros [] H; vm_compute in H |- *; congruence.
Defined.







(** X14.  With [max_clients_per_training] equal to 0 the generator raises
    [ZeroDivisionError] at the first lesson type, whatever the clients, the
    instructors and the grid. *)
Theorem generate_random_schedule_ZeroDivisionError (greedy : bool)
    (st : state) :
  st.(self).(max_clients_per_training) = 0 →
  generate_random_schedule greedy st = Raise ZeroDivisionError.
Proof.
  intros Hm. unfold generate_random_schedule.
  rewrite (bind_M_eq get_self _ st (self st) st eq_refl).
  rewrite (bind_M_eq (deref _) _ st _ st eq_refl).
  apply bind_M_Raise. unfold LessonType_members. cbn [for_inM].
  apply bind_M_Raise. unfold place_lesson_type.
  rewrite (bind_M_eq get_self _ st (self st) st eq_refl).
  apply bind_M_Raise. by rewrite Hm.
Qed.

Lemma generate_random_schedule_ZeroDivisionError_witness :
  generate_random_schedule false
    (fresh (studio_with 1 2 2 0 [instructor0; instructor1]))
  = Raise ZeroDivisionError.
Proof.
  by apply (generate_random_schedule_ZeroDivisionError false
              (fresh (studio_with 1 2 2 0 [instructor0; instructor1]))).
Defined.

(** ** The check boxes and the forms of the application *)

Lemma remove_first_absent x l : x ∉ l → remove_first x l = Raise ValueError.
Proof.
  induction l as [|y l IH]; [done|]. intros Hx. simpl.
  rewrite decide_False by (intros ->; apply Hx; left).
  rewrite IH; [done|]. intros ?. apply Hx. by right.
Qed.

Lemma remove_first_snoc x l : x ∉ l → remove_first x (l ++ [x]) = Ok l.
Proof.
  induction l as [|y l IH]; intros Hx; simpl.
  - by rewrite decide_True.
  - rewrite decide_False by (intros ->; apply Hx; left).
    rewrite IH; [done|]. intros ?. apply Hx. by right.
Qed.

(** X15.  Checking a box appends the neighbourhood type and unchecking removes
    its first occurrence: a type that was not in the list is gone again after
    the two clicks and the dictionary is as before.  Unchecking a type that is
    not in the list raises [ValueError]. *)
Theorem checkbox_click_round_trip (parameters : gmap string value)
    (l : list string) (neighborhood_type : string) :
  parameters !! "neighborhood_type_lst"%string = Some (VList l) →
  neighborhood_type ∉ l →
  (d ← Optimize_checkbox_click parameters true neighborhood_type;
   Optimize_checkbox_click d false neighborhood_type) = Ok parameters
  ∧ Optimize_checkbox_click parameters false neighborhood_type
    = Raise ValueError.
Proof.
  intros Hl Hx. unfold Optimize_checkbox_click. rewrite Hl. split.
  - simpl. rewrite lookup_insert_eq. rewrite remove_first_snoc by done.
    simpl. rewrite insert_insert_eq. by rewrite insert_id.
  - by rewrite remove_first_absent.
Qed.

Lemma checkbox_click_round_trip_witness :
  (d ← Optimize_checkbox_click Optimize_parameters true "swap";
   Optimize_checkbox_click d false "swap") = Ok Optimize_parameters
  ∧ Optimize_checkbox_click Optimize_parameters false "swap"
    = Raise ValueError.
Proof.
  apply (checkbox_click_round_trip Optimize_parameters [] "swap").
  - reflexivity.
  - apply not_elem_of_nil.
Defined.

Lemma all_ints_store int d parameter input_parameter :
  all_ints d → all_ints (store_int int d parameter input_parameter).
Proof.
  unfold all_ints. intros Hd. eapply Forall_impl; [exact Hd|]. simpl.
  intros k [n Hk]. unfold store_int.
  destruct (decide (k = parameter)) as [->|Hne].
  - destruct (int input_parameter); rewrite lookup_insert_eq; eauto.
  - destruct (int input_parameter); rewrite lookup_insert_ne by done; eauto.
Qed.

(** X16.  Whatever is typed into the schedule form, and in whatever order, the
    dictionary keeps an [int] under each of the eight keys that
    [start_optimization] reads, and the [print] of an [on_text] event finds
    ['ticket_cost']: no edit removes a parameter or stores anything but an
    [int]. *)
Theorem schedule_parameters_stay_ints (int : string → option Z)
    (events : list (string * string)) (parameter input_parameter : string) :
  let d := edits int events schedule_parameters in
  all_ints d
  ∧ ∃ n, (ScheduleParameters_on_text int d parameter input_parameter).2
         = Ok (VInt n).
Proof.
  intros d.
  assert (all_ints d) as Hd.
  { unfold d, edits. generalize schedule_parameters,
      (ltac:(unfold all_ints, schedule_keys, schedule_parameters;
             repeat (constructor; [by eexists|]); constructor)
        : all_ints schedule_parameters).
    induction events as [|e events IH]; intros d0 Hd0; [done|]. simpl.
    apply IH. by apply all_ints_store. }
  split; [done|]. unfold ScheduleParameters_on_text. simpl.
  pose proof (all_ints_store int d parameter input_parameter Hd) as Hd'.
  unfold all_ints, schedule_keys in Hd'.
  apply Forall_cons in Hd' as [_ Hd']. apply Forall_cons in Hd' as [_ Hd'].
  apply Forall_cons in Hd' as [_ Hd']. apply Forall_cons in Hd' as [_ Hd'].
  apply Forall_cons in Hd' as [[n Hn] _]. rewrite Hn. eauto.
Qed.

(** ** Numerals: [int(str(n))] *)

Lemma int_digits_cons c l acc b k :
  digit_of c = Some k →
  int_digits (c :: l) acc b = int_digits l (10 * acc + k)%Z true.
Proof. intros H. simpl. by rewrite H. Qed.

Lemma int_digits_acc d : ∀ acc,
  int_digits (list_ascii_of_string (DecimalString.NilEmpty.string_of_uint d))
    (Z.pos acc) true
  = Some (Z.pos (Pos.of_uint_acc d acc)).
Proof.
  induction d as [|d IH|d IH|d IH|d IH|d IH|d IH|d IH|d IH|d IH|d IH];
    intros acc; [done|..];
    cbn [DecimalString.NilEmpty.string_of_uint list_ascii_of_string
         Pos.of_uint_acc];
    erewrite int_digits_cons by reflexivity; rewrite <-IH; f_equal;
    vm_compute Z.of_nat; lia.
Qed.

Lemma int_digits_zero d : ∀ b,
  int_digits (list_ascii_of_string (DecimalString.NilEmpty.string_of_uint d))
    0 b
  = match d with
    | Decimal.Nil => if b then Some 0%Z else None
    | _ => Some (Z.of_N (Pos.of_uint d))
    end.
Proof.
  induction d as [|d IH|d IH|d IH|d IH|d IH|d IH|d IH|d IH|d IH|d IH];
    intros b; [done|..];
    cbn [DecimalString.NilEmpty.string_of_uint list_ascii_of_string
         Pos.of_uint];
    erewrite int_digits_cons by reflexivity.
  - rewrite IH. by destruct d.
  - apply (int_digits_acc d 1).
  - apply (int_digits_acc d 2).
  - apply (int_digits_acc d 3).
  - apply (int_digits_acc d 4).
  - apply (int_digits_acc d 5).
  - apply (int_digits_acc d 6).
  - apply (int_digits_acc d 7).
  - apply (int_digits_acc d 8).
  - apply (int_digits_acc d 9).
Qed.

Lemma numeral_no_space d :
  Forall (λ c, is_space c = false)
    (list_ascii_of_string (DecimalString.NilEmpty.string_of_uint d)).
Proof. induction d; simpl; by constructor. Qed.

Lemma lstrip_no_space l : Forall (λ c, is_space c = false) l → lstrip l = l.
Proof. destruct 1 as [|c l Hc _]; [done|]. simpl. by rewrite Hc. Qed.

Lemma strip_no_space l :
  Forall (λ c, is_space c = false) l →
  lstrip (reverse (lstrip (reverse l))) = l.
Proof.
  intros Hl. rewrite (lstrip_no_space (reverse l)) by (by apply Forall_reverse).
  rewrite reverse_involutive. by apply lstrip_no_space.
Qed.

Lemma int_ascii_uint d :
  int_ascii (DecimalString.NilZero.string_of_uint d) = Some (Z.of_uint d)
  ∧ int_ascii (String "-" (DecimalString.NilZero.string_of_uint d))
    = Some (- Z.of_uint d)%Z.
Proof.
  assert (∀ d, d ≠ Decimal.Nil →
            int_ascii (DecimalString.NilEmpty.string_of_uint d)
            = Some (Z.of_uint d)
            ∧ int_ascii (String "-" (DecimalString.NilEmpty.string_of_uint d))
              = Some (- Z.of_uint d)%Z) as Hgen.
  { clear d. intros d Hd. unfold int_ascii. split.
    - rewrite strip_no_space by apply numeral_no_space.
      pose proof (int_digits_zero d false) as Hz.
      destruct d; try done; exact Hz.
    - cbn [list_ascii_of_string].
      rewrite strip_no_space
        by (constructor; [done|apply numeral_no_space]).
      rewrite (int_digits_zero d false). by destruct d. }
  destruct d; try (apply Hgen; discriminate). done.
Qed.

Lemma int_ascii_str_int n : int_ascii (str_int n) = Some n.
Proof.
  unfold str_int. rewrite <-(DecimalZ.of_to n) at 2.
  destruct (Z.to_int n) as [d|d]; cbn [DecimalString.NilZero.string_of_int];
    apply int_ascii_uint.
Qed.


(** ** Text that is not a numeral *)

Lemma int_digits_other l : ∀ acc b c,
  c ∈ l → digit_of c = None → c ≠ "_"%char → int_digits l acc b = None.
Proof.
  induction l as [|x l IH]; intros acc b c Hin Hd Hu;
    [by apply elem_of_nil in Hin|].
  simpl. apply elem_of_cons in Hin as [->|Hin].
  - rewrite Hd. by rewrite bool_decide_eq_false_2.
  - destruct (digit_of x); [by eapply IH|].
    destruct (bool_decide (x = "_"%char) && b); [by eapply IH|done].
Qed.

Lemma elem_of_lstrip c l : c ∈ l → is_space c = false → c ∈ lstrip l.
Proof.
  induction l as [|x l IH]; intros Hin Hc; [done|]. simpl.
  destruct (is_space x) eqn:Hx; [|done].
  apply elem_of_cons in Hin as [->|Hin]; [congruence|by apply IH].
Qed.

Lemma int_ascii_other s c :
  c ∈ list_ascii_of_string s → digit_of c = None → c ≠ "_"%char →
  c ≠ "-"%char → c ≠ "+"%char → is_space c = false →
  int_ascii s = None.
Proof.
  intros Hin Hd Hu Hm Hp Hs. unfold int_ascii.
  set (l := lstrip (reverse (lstrip (reverse (list_ascii_of_string s))))).
  assert (c ∈ l) as Hl.
  { unfold l. apply elem_of_lstrip; [|done]. apply elem_of_reverse.
    apply elem_of_lstrip; [|done]. by apply elem_of_reverse. }
  clearbody l. destruct l as [|x l]; [by apply elem_of_nil in Hl|].
  assert (∀ l', c ∈ l' → int_digits l' 0 false = None) as Hbad
    by (intros; by eapply int_digits_other).
  destruct (decide (x = "-"%char)) as [->|Hxm].
  { apply elem_of_cons in Hl as [?|Hl]; [done|]. by rewrite Hbad. }
  destruct (decide (x = "+"%char)) as [->|Hxp].
  { apply elem_of_cons in Hl as [?|Hl]; [done|]. by rewrite Hbad. }
  rewrite <-(Hbad (x :: l) Hl).
  destruct x as [[] [] [] [] [] [] [] []]; done.
Qed.

(** X18.  Text with a decimal point is not an [int]: typing [0.5] into a
    field, [alpha] included, stores 0. *)
Theorem on_text_decimal_point (d : gmap string value)
    (parameter input_parameter : string) :
  "."%char ∈ list_ascii_of_string input_parameter →
  Optimize_on_text int_ascii d parameter input_parameter !! parameter
  = Some (VInt 0)
  ∧ (ScheduleParameters_on_text int_ascii d parameter input_parameter).1
    !! parameter = Some (VInt 0).
Proof.
  intros Hdot.
  unfold Optimize_on_text, ScheduleParameters_on_text, store_int. simpl.
  rewrite (int_ascii_other input_parameter "."%char) by done.
  by rewrite lookup_insert_eq.
Qed.

Lemma on_text_decimal_point_witness :
  Optimize_on_text int_ascii Optimize_parameters "alpha" "0.5" !! "alpha"%string
  = Some (VInt 0)
  ∧ (ScheduleParameters_on_text int_ascii Optimize_parameters "alpha" "0.5").1
    !! "alpha"%string = Some (VInt 0).
Proof.
  apply (on_text_decimal_point Optimize_parameters "alpha" "0.5").
  simpl. right. left.
Defined.

(** ** Printing a schedule *)

Lemma Lesson_str_Ok (l : Lesson.t) :
  Lesson_str l
  = Ok ("I: " ++ str_int l.(Lesson.instructor).(Instructor.id)
        ++ ", L: " ++ LessonType_name l.(Lesson.lesson_type))%string.
Proof. unfold Lesson_str. by destruct (Lesson.lesson_type l). Qed.

Lemma for_in_Ok {A S} (l : list A) (body : A → S → outcome S) s :
  (∀ x s, x ∈ l → ∃ s', body x s = Ok s') → ∃ s', for_in l body s = Ok s'.
Proof.
  intros Hb.
  destruct (for_in_invariant (λ _, True) l body s) as (s' & ? & _); eauto.
  intros x s0 Hx _. destruct (Hb x s0 Hx) as [s1 ?]. eauto.
Qed.

Lemma for_in_Raise {A S} e (pre post : list A) x
    (body : A → S → outcome S) s :
  (∀ y s, y ∈ pre → ∃ s', body y s = Ok s') →
  (∀ s, body x s = Raise e) →
  for_in (pre ++ x :: post) body s = Raise e.
Proof.
  intros Hpre Hx. rewrite for_in_app.
  destruct (for_in_Ok pre body s Hpre) as [s' ->]. simpl. by rewrite Hx.
Qed.

Lemma range_split n k : k < n → range n = range k ++ k :: seq (S k) (n - S k).
Proof.
  intros Hk. unfold range.
  replace n with (k + S (n - S k)) at 1 by lia. by rewrite seq_app.
Qed.

Lemma Schedule_str_slot_Ok a c d ts result :
  wf_ndarray a → c < shape0 a → d < shape1 a → ts < shape2 a → ts < 6 →
  ∃ text, Schedule_str_slot a c d ts result = Ok text.
Proof.
  intros Hwf Hc Hd Hts H6. unfold Schedule_str_slot.
  destruct (lookup_lt_is_Some_2 hour ts) as [h Hh]; [simpl; lia|].
  rewrite (list_get_Ok _ _ _ Hh). simpl.
  rewrite getitem_cell by (done || by apply in_bounds_spec). simpl.
  destruct (cell a (c, d, ts)) as [l|]; [|eauto].
  rewrite Lesson_str_Ok. simpl. eauto.
Qed.

Lemma Schedule_str_slot_Raise a c d ts result :
  6 ≤ ts → Schedule_str_slot a c d ts result = Raise IndexError.
Proof.
  intros H6. unfold Schedule_str_slot, list_get.
  rewrite (proj2 (lookup_ge_None hour ts)); [done|simpl; lia].
Qed.

Lemma Schedule_str_day_outcome a c d result :
  wf_ndarray a → c < shape0 a → d < shape1 a →
  if decide (d < 6 ∧ shape2 a ≤ 6)
  then ∃ text, Schedule_str_day a c d result = Ok text
  else Schedule_str_day a c d result = Raise IndexError.
Proof.
  intros Hwf Hc Hd. unfold Schedule_str_day. case_decide as Hcase.
  - destruct Hcase as [Hd6 Ht6].
    destruct (lookup_lt_is_Some_2 days d) as [name Hn]; [simpl; lia|].
    rewrite (list_get_Ok _ _ _ Hn). simpl. apply for_in_Ok.
    intros ts s Hts%elem_of_seq. apply Schedule_str_slot_Ok; try done; lia.
  - destruct (decide (d < 6)) as [Hd6|Hd6].
    + destruct (lookup_lt_is_Some_2 days d) as [name Hn]; [simpl; lia|].
      rewrite (list_get_Ok _ _ _ Hn). simpl.
      rewrite (range_split (shape2 a) 6) by lia. apply for_in_Raise.
      * intros ts s Hts%elem_of_seq.
        apply Schedule_str_slot_Ok; try done; lia.
      * intros s. by apply Schedule_str_slot_Raise.
    + unfold list_get.
      rewrite (proj2 (lookup_ge_None days d)); [done|simpl; lia].
Qed.

Lemma Schedule_str_days_outcome a c result :
  wf_ndarray a → c < shape0 a →
  if decide (shape1 a ≤ 6 ∧ (shape1 a = 0 ∨ shape2 a ≤ 6))
  then ∃ text, for_in (range (shape1 a)) (Schedule_str_day a c) result = Ok text
  else for_in (range (shape1 a)) (Schedule_str_day a c) result
       = Raise IndexError.
Proof.
  intros Hwf Hc. case_decide as Hcase.
  - apply for_in_Ok. intros d s Hd%elem_of_seq.
    pose proof (Schedule_str_day_outcome a c d s Hwf Hc ltac:(lia)) as Hday.
    rewrite decide_True in Hday by lia. done.
  - destruct (decide (shape2 a ≤ 6)) as [Ht|Ht].
    + rewrite (range_split (shape1 a) 6) by lia. apply for_in_Raise.
      * intros d s Hd%elem_of_seq.
        pose proof (Schedule_str_day_outcome a c d s Hwf Hc ltac:(lia))
          as Hday.
        rewrite decide_True in Hday by lia. done.
      * intros s.
        pose proof (Schedule_str_day_outcome a c 6 s Hwf Hc ltac:(lia))
          as Hday.
        rewrite decide_False in Hday by lia. done.
    + rewrite (range_split (shape1 a) 0) by lia.
      apply (for_in_Raise IndexError []); [by intros ? ? ?%elem_of_nil|].
      intros s.
      pose proof (Schedule_str_day_outcome a c 0 s Hwf Hc ltac:(lia)) as Hday.
      rewrite decide_False in Hday by lia. done.
Qed.

(** X19.  [Schedule.__str__] has six day names and six hour labels: it raises
    [IndexError] exactly on a grid with a classroom and more than six days, or
    with a day and more than six time slots; on any other grid it returns the
    text. *)
Theorem Schedule_str_IndexError (a : ndarray) :
  wf_ndarray a →
  if decide (0 < shape0 a
             ∧ (6 < shape1 a ∨ (0 < shape1 a ∧ 6 < shape2 a)))
  then Schedule_str a = Raise IndexError
  else ∃ text, Schedule_str a = Ok text.
Proof.
  intros Hwf. unfold Schedule_str. case_decide as Hcase.
  - rewrite (range_split (shape0 a) 0) by lia.
    apply (for_in_Raise IndexError []); [by intros ? ? ?%elem_of_nil|].
    intros s.
    pose proof (Schedule_str_days_outcome a 0 s Hwf ltac:(lia)) as Hdays.
    rewrite decide_False in Hdays by lia. done.
  - apply for_in_Ok. intros c s Hc%elem_of_seq.
    pose proof (Schedule_str_days_outcome a c s Hwf ltac:(lia)) as Hdays.
    rewrite decide_True in Hdays by lia. done.
Qed.

Lemma Schedule_str_IndexError_witness :
  Schedule_str long_week = Raise IndexError
  ∧ ∃ text, Schedule_str week = Ok text.
Proof.
  split.
  - apply (Schedule_str_IndexError long_week). reflexivity.
  - apply (Schedule_str_IndexError week). reflexivity.
Defined.

(** ** Reading the [Lesson_Types] column *)

Lemma LessonType_value_of (t : LessonType) :
  LessonType_of_value (Z.of_nat (LessonType_value t)) = Ok t.
Proof. by destruct t. Qed.

Lemma str_split_numeral (t : LessonType) (rest : string) :
  str_split " " (str_int (Z.of_nat (LessonType_value t)) ++ String " " rest)
  = str_int (Z.of_nat (LessonType_value t)) :: str_split " " rest.
Proof. by destruct t. Qed.

Lemma string_app_assoc (a b c : string) :
  ((a ++ b) ++ c = a ++ (b ++ c))%string.
Proof.
  induction a as [|x a IH]; [done|].
  change (String x ((a ++ b) ++ c) = String x (a ++ (b ++ c)))%string.
  by rewrite IH.
Qed.

Lemma str_split_join (types : list LessonType) :
  types ≠ [] →
  str_split " " (join_values types)
  = (λ t, str_int (Z.of_nat (LessonType_value t))) <$> types
  ∧ ∀ rest,
      str_split " " (join_values types ++ String " " rest)
      = ((λ t, str_int (Z.of_nat (LessonType_value t))) <$> types)
        ++ str_split " " rest.
Proof.
  induction types as [|t types IH]; [done|]. intros _.
  destruct types as [|t' types].
  - split; [by destruct t|]. intros rest. cbn [join_values].
    by rewrite str_split_numeral.
  - destruct IH as [IH1 IH2]; [done|].
    change (join_values (t :: t' :: types))
      with (str_int (Z.of_nat (LessonType_value t))
            ++ String " " (join_values (t' :: types)))%string.
    split.
    + by rewrite str_split_numeral, IH1.
    + intros rest. rewrite string_app_assoc.
      change (String " " (join_values (t' :: types)) ++ String " " rest)%string
        with (String " " (join_values (t' :: types) ++ String " " rest))%string.
      by rewrite str_split_numeral, IH2.
Qed.

Lemma comprehension_numerals (types : list LessonType) (more : list string) :
  comprehension
    (λ elem, match int_ascii elem with
             | Some v => LessonType_of_value v
             | None => Raise ValueError
             end)
    (((λ t, str_int (Z.of_nat (LessonType_value t))) <$> types) ++ more)
  = ys ← comprehension
           (λ elem, match int_ascii elem with
                    | Some v => LessonType_of_value v
                    | None => Raise ValueError
                    end) more;
    Ok (types ++ ys).
Proof.
  induction types as [|t types IH].
  - simpl. by destruct (comprehension _ more).
  - cbn [fmap list_fmap app comprehension].
    rewrite int_ascii_str_int, LessonType_value_of. simpl.
    change (list_fmap _ _ ?f types) with (f <$> types).
    rewrite IH. by destruct (comprehension _ more).
Qed.

(** X20.  A field that lists the numbers of lesson types, separated by single
    spaces, is read back as those lesson types, in order.  A number that is no
    lesson type and a doubled space each raise [ValueError]. *)
Theorem lesson_types_of_join (types : list LessonType) :
  types ≠ [] →
  lesson_types_of (join_values types) = Ok types
  ∧ lesson_types_of (join_values types ++ " 10") = Raise ValueError
  ∧ lesson_types_of (join_values types ++ "  0") = Raise ValueError.
Proof.
  intros Hne. destruct (str_split_join types Hne) as [H1 H2].
  unfold lesson_types_of. rewrite H1, !H2. split; [|split].
  - rewrite <-(app_nil_r (_ <$> types)), comprehension_numerals. simpl.
    by rewrite app_nil_r.
  - by rewrite comprehension_numerals.
  - by rewrite comprehension_numerals.
Qed.

Lemma lesson_types_of_join_witness :
  lesson_types_of "1 9" = Ok [ZUMBA; YOGA]
  ∧ lesson_types_of "1 9 10" = Raise ValueError
  ∧ lesson_types_of "1 9  0" = Raise ValueError.
Proof. apply (lesson_types_of_join [ZUMBA; YOGA]). discriminate. Defined.

(** ** [Schedule.__init__] *)

Lemma comprehension_fails_only {A B} (f : A → outcome B) (l : list A) e :
  (∀ x, fails_only e (f x)) → fails_only e (comprehension f l).
Proof.
  intros Hf. induction l as [|x l IH]; [done|]. simpl.
  specialize (Hf x). destruct (f x); simpl; [|done..].
  destruct (comprehension f l); simpl; done.
Qed.

Lemma lesson_types_of_fails_only field :
  fails_only ValueError (lesson_types_of field).
Proof.
  apply comprehension_fails_only. intros elem.
  destruct (int_ascii elem) as [v|]; [|done].
  destruct v as [|p|p]; [done| |done].
  do 4 (destruct p as [p|p|]; try done).
Qed.

Lemma Schedule_init_facts (client_rows instructor_rows : list (Z * string))
    (class_num day_num time_slot_num max_clients : nat)
    (ticket hourly presence rent : Z) (st : state) :
  match Schedule_init client_rows instructor_rows class_num day_num
          time_slot_num max_clients ticket hourly presence rent st with
  | Ok (_, st') =>
      ∃ clients instructors,
        st'.(self)
        = mk_Schedule class_num day_num time_slot_num max_clients clients
            instructors st.(next) ticket hourly presence rent
        ∧ length clients = length client_rows
        ∧ length instructors = length instructor_rows
        ∧ st'.(heap) st.(next) = empty_grid class_num day_num time_slot_num
        ∧ (∀ r, r < st.(next) → st'.(heap) r = st.(heap) r)
        ∧ get_cost st'.(self) (st'.(heap) st'.(self).(schedule)) = Ok 0%Z
  | Raise e => e = ValueError
  | OutOfFuel => False
  end.
Proof.
  unfold Schedule_init.
  set (load_clients := comprehension _ client_rows).
  set (load_instructors := comprehension _ instructor_rows).
  assert (fails_only ValueError load_clients) as Hc.
  { apply comprehension_fails_only. intros [id field]. simpl.
    pose proof (lesson_types_of_fails_only field).
    by destruct (lesson_types_of field). }
  assert (fails_only ValueError load_instructors) as Hi.
  { apply comprehension_fails_only. intros [id field]. simpl.
    pose proof (lesson_types_of_fails_only field).
    by destruct (lesson_types_of field). }
  assert (∀ {A B} (f : A → outcome B) l ys,
            comprehension f l = Ok ys → length ys = length l) as Hlen.
  { intros A B f l. induction l as [|x l IH]; intros ys; simpl.
    - by intros [= <-].
    - destruct (f x); [|done..]. simpl.
      destruct (comprehension f l) as [zs| |]; [|done..]. simpl.
      intros [= <-]. simpl. by rewrite (IH zs). }
  unfold mbind at 1, M_bind at 1, lift at 1.
  destruct load_clients as [clients| |] eqn:Hclients; [|done..].
  unfold mbind at 1, M_bind at 1, lift at 1.
  destruct load_instructors as [instructors| |] eqn:Hinstructors; [|done..].
  simpl. exists clients, instructors. rewrite fn_lookup_insert.
  split; [done|]. split; [by eapply Hlen|]. split; [by eapply Hlen|].
  split; [done|]. split.
  - intros r Hr. by rewrite fn_lookup_insert_ne by lia.
  - apply get_cost_lessons_nil.
    + unfold wf_ndarray, size, empty_grid. simpl. by rewrite length_replicate.
    + unfold occupied, lessons, empty_grid. simpl.
      generalize (class_num * day_num * time_slot_num).
      intros n. by induction n.
Qed.


(** ** The cost of a generated schedule *)

Lemma sum_list_with_Permutation {A} (f : A → nat) (l k : list A) :
  l ≡ₚ k → sum_list_with f l = sum_list_with f k.
Proof. induction 1; simpl; lia. Qed.

Lemma sum_list_with_fmap {A B} (f : B → nat) (g : A → B) (l : list A) :
  sum_list_with f (g <$> l) = sum_list_with (λ x, f (g x)) l.
Proof. induction l as [|x l IH]; [done|]. csimpl. by rewrite IH. Qed.

Lemma sum_list_with_bind {A B} (f : B → nat) (g : A → list B) (l : list A) :
  sum_list_with f (l ≫= g) = sum_list_with (λ x, sum_list_with f (g x)) l.
Proof.
  induction l as [|x l IH]; [done|]. csimpl.
  by rewrite sum_list_with_app, IH.
Qed.

Lemma sum_lengths_join {A} (l : list (list A)) :
  sum_list_with length l = length (mjoin l).
Proof.
  induction l as [|x l IH]; [done|]. csimpl. rewrite length_app. lia.
Qed.

Lemma planned_participants s lesson_types :
  0 < s.(max_clients_per_training) →
  sum_list_with (λ g : LessonType * list Client.t, length g.2)
    (planned s lesson_types)
  = sum_list_with (λ lesson_type, length (requests s lesson_type))
      lesson_types.
Proof.
  intros Hm. unfold planned. rewrite sum_list_with_bind.
  apply sum_list_with_ext_in. intros lesson_type _.
  simpl. rewrite <-(groups_participants s lesson_type Hm).
  by rewrite <-sum_lengths_join, sum_list_with_fmap.
Qed.



(** ** The script: each stage can only raise the earnings *)

Lemma Schedule_str_Ok a :
  wf_ndarray a → shape1 a ≤ 6 → shape2 a ≤ 6 →
  ∃ text, Schedule_str a = Ok text.
Proof.
  intros Hwf H1 H2. unfold Schedule_str. apply for_in_Ok.
  intros c s Hc%elem_of_seq.
  pose proof (Schedule_str_days_outcome a c s Hwf ltac:(lia)) as Hdays.
  rewrite decide_True in Hdays by lia. done.
Qed.

Lemma print_schedule_Ok st :
  let a := st.(heap) st.(self).(schedule) in
  wf_ndarray a → shape1 a ≤ 6 → shape2 a ≤ 6 →
  print_schedule st = Ok ((), st).
Proof.
  intros a Hwf H1 H2. destruct (Schedule_str_Ok a Hwf H1 H2) as [text Ht].
  unfold print_schedule, mbind, M_bind, get_self, deref, lift. simpl.
  fold a. by rewrite Ht.
Qed.

(** [improve_results] on a grid of the schedule with one classroom, with
    fuel for the days of presence. *)
Lemma improve_results_Ok_cost st :
  let s := st.(self) in
  let g := st.(heap) s.(schedule) in
  grid_of s g → shape0 g = 1 →
  (0 ≤ s.(pay_for_presence))%Z → (0 ≤ s.(class_renting_cost))%Z →
  ∃ st' g',
    improve_results (S (presence s.(instructors) g)) st = Ok ((), st')
    ∧ st'.(self) = s ∧ st'.(heap) s.(schedule) = g'
    ∧ grid_of s g' ∧ g'.(shape) = g.(shape)
    ∧ (final_score s g ≤ final_score s g')%Z.
Proof.
  intros s g Hgrid Hone Hpay Hrent.
  pose proof (grid_wf _ _ Hgrid) as Hwf.
  destruct (improve_while_Ok (S (presence s.(instructors) g)) s.(instructors)
              true g Hwf Hone) as (g' & Hg'); [lia|].
  pose proof (improve_while_outcome (S (presence s.(instructors) g))
                s.(instructors) true g Hwf Hone) as Hout.
  rewrite Hg' in Hout. destruct Hout as (Hwf' & Hsh & Hp).
  pose proof (improve_while_present _ _ true _ g' Hwf Hone Hg') as Hmono.
  pose proof (grid_of_Permutation _ _ _ Hgrid Hwf' Hsh Hp) as Hgrid'.
  exists (update s.(schedule) g' st), g'. split.
  { unfold improve_results, mbind, M_bind, get_self, deref, lift, assign.
    simpl. fold s g. unfold improve_grid. by rewrite Hg'. }
  split; [done|]. split; [simpl; by rewrite fn_lookup_insert|].
  split; [done|]. split; [done|].
  pose proof (final_score_Permutation _ _ _ Hgrid Hgrid' Hp) as Hdiff.
  assert (shape0 g' = 1) as Hone' by (unfold shape0 in *; by rewrite Hsh).
  assert (∀ c X d, present g' c X d = true → present g c X d = true) as Hall.
  { intros c X d H. pose proof (present_classroom0 _ _ _ _ Hone' H) as ->.
    by apply Hmono. }
  assert (instructor_presence_days s g' ≤ instructor_presence_days s g)
    as Hdays.
  { apply instructor_presence_days_le. intros c X d H. exists c. by apply Hall. }
  assert (classroom_days s g' ≤ classroom_days s g) as Hrooms.
  { apply classroom_days_le. intros c X d H. exists X. by apply Hall. }
  nia.
Qed.

Lemma grid_of_set_schedule self r a :
  grid_of (set_schedule self r) a ↔ grid_of self a.
Proof. split; intros [? ? ? ?]; by split. Qed.

Section Script.

Variable metropolis : nat → Z → Q → bool.

(** A run of [simulated_annealing] on a grid with an occupied and an empty
    cell, with fuel for the cooling. *)
Lemma simulated_annealing_Ok_cost alpha initial_temp n min_temp epsilon m st :
  let s := st.(self) in
  let g := st.(heap) s.(schedule) in
  (0 <= alpha)%Q → (alpha < 1)%Q → (0 < min_temp)%Q → searchable s g →
  ∃ fuel best total st' r',
    simulated_annealing metropolis fuel alpha initial_temp n min_temp epsilon
      m true st = Ok ((best, total), st')
    ∧ st'.(self) = set_schedule s r'
    ∧ (final_score s g ≤ best)%Z
    ∧ get_cost s (st'.(heap) r') = Ok best
    ∧ wf_ndarray (st'.(heap) r')
    ∧ (st'.(heap) r').(shape) = g.(shape)
    ∧ lessons (st'.(heap) r') ≡ₚ lessons g.
Proof.
  intros s g Ha0 Ha1 Hm Hs.
  destruct (cooling_ends alpha initial_temp min_temp Ha0 Ha1 Hm)
    as [fuel Hcold].
  destruct (sa_init_Ok initial_temp st Hs) as (s0 & st1 & Hinit & Ht & Hs1).
  rewrite <-Ht in Hcold.
  destruct (sa_while_Ok metropolis alpha min_temp epsilon n m fuel s0 st1
              Hs1 Hcold) as (s1 & st2 & Hwhile).
  exists fuel, s1.(best_cost), s1.(total_counter),
    (mk_state (set_schedule st2.(self) s1.(best_solution)) st2.(heap)
       st2.(next) st2.(tape)), s1.(best_solution).
  split.
  { unfold simulated_annealing.
    unfold mbind at 1, M_bind at 1, mret at 1, M_ret at 1.
    by rewrite (bind_M_eq _ _ _ _ _ Hinit), (bind_M_eq _ _ _ _ _ Hwhile). }
  pose proof (sa_init_facts _ _ _ _ Hinit) as (Hinv0 & Hself0 & _ & Hcost0).
  fold s g in Hcost0.
  rewrite (get_cost_final_score _ _ (proj1 Hs)) in Hcost0.
  injection Hcost0 as Hcost0.
  pose proof (sa_while_facts _ _ _ _ _ _ _ _ _ _ _ Hwhile)
    as (Hkeep & Hle & _ & Hself2).
  destruct (Hkeep Hinv0) as [_ _ _ Hbest _].
  assert (self st2 = s) as Hself by (by rewrite Hself2, Hself0).
  pose proof Hinit as Hinit'.
  rewrite (sa_init_eq initial_temp st (final_score s g)) in Hinit'
    by apply (get_cost_final_score _ _ (proj1 Hs)).
  injection Hinit' as Hs0 Hst1.
  assert (s0.(best_solution) ≠ s0.(current_solution)
          ∧ sa_frame st g st1 s0) as Hframe0.
  { rewrite <-Hs0, <-Hst1. split; [simpl; lia|].
    by apply sa_frame_init, (grid_wf _ _ (proj1 Hs)). }
  pose proof (sa_while_frame metropolis st g _ _ _ _ _ _ _ _ _ _ Hwhile
                Hframe0) as (_ & [_ _ _ _ _ Hbw Hbs Hbl _ _]).
  simpl. rewrite Hself in Hbest |- *.
  split; [done|]. split; [lia|]. done.
Qed.


End Script.

